(** * Arki: tool-call ledger, conversation assembly and the nested agent loop

  A shallow embedding of the parts of the bot that carry its design:
  - [ToolCallsStore]  (services/ai/tool-calls-store.ts), the in-memory ledger;
  - [MessageUtils]    (utils/message-utils.ts), the conversation assembler;
  - [AIService]       (services/ai/ai-service.ts), the chat-completion client;
  - [OpenProjectAgent] (tools/openproject-agent), the nested agent loop;
  - [MessageHandler]  (events/message-handler.ts), the outer pipeline.

  JavaScript strings are modelled as [string], numbers that count or stamp
  time as [Z], the [Map] of the ledger as a [gmap], the [Map]s whose order
  of insertion is read (tool registries, image cache) as association lists,
  [Set] objects as [gset].  Everything outside the process (the completion
  endpoint, Discord, the REST service, the network) is an oracle threaded
  through an abstract world. *)

From Stdlib Require Import ZArith String Ascii Lia.
From Stdlib Require PrimFloat.
From stdpp Require Import base strings gmap list pretty.

Local Open Scope Z_scope.

(** ** JavaScript string primitives used by the sources *)
Module JS.

(** [s.startsWith(p)] *)
Definition startsWith (s p : string) : bool := String.prefix p s.

(** [s.includes(p)] *)
Fixpoint includes (s p : string) : bool :=
  String.prefix p s ||
  match s with
  | EmptyString => false
  | String _ s' => includes s' p
  end.

(** [s.endsWith(p)] *)
Definition endsWith (s p : string) : bool :=
  String.prefix (String.rev p) (String.rev s).

Definition lowerAscii (c : ascii) : ascii :=
  let n := N_of_ascii c in
  if ((65 <=? n) && (n <=? 90))%N then ascii_of_N (n + 32) else c.

(** [s.toLowerCase()], on the ASCII letters; the sources only look for
    ASCII patterns in the result. *)
Fixpoint toLowerCase (s : string) : string :=
  match s with
  | EmptyString => EmptyString
  | String c s' => String (lowerAscii c) (toLowerCase s')
  end.

Definition isSpace (c : ascii) : bool :=
  let n := N_of_ascii c in
  ((n =? 32) || ((9 <=? n) && (n <=? 13)))%N.

Fixpoint trimStart (s : string) : string :=
  match s with
  | String c s' => if isSpace c then trimStart s' else s
  | EmptyString => EmptyString
  end.

(** [s.trim()] *)
Definition trim (s : string) : string :=
  String.rev (trimStart (String.rev (trimStart s))).

(** [s.substring(0, n)] *)
Definition substring0 (n : nat) (s : string) : string := String.substring 0 n s.

(** Truthiness of a possibly absent string: [undefined], [null] and the
    empty string are falsy. *)
Definition truthy (o : option string) : bool :=
  match o with
  | Some s => negb (String.eqb s EmptyString)
  | None => false
  end.

(** [a || d] on a possibly absent string. *)
Definition orElse (o : option string) (d : string) : string :=
  match o with
  | Some s => if String.eqb s EmptyString then d else s
  | None => d
  end.

(** [String(n)] for an integral number. *)
Definition ofNumber (n : Z) : string := pretty n.

(** [l.join(sep)] *)
Fixpoint join (sep : string) (l : list string) : string :=
  match l with
  | [] => EmptyString
  | [x] => x
  | x :: rest => x +:+ sep +:+ join sep rest
  end.

End JS.

(** ** Discord data, as far as the sources read it *)

Module Attachment.
Record t := {
  name : string;
  size : Z;
  contentType : option string;
  description : option string;
  url : string;
  height : option Z;
  width : option Z
  }.
End Attachment.

Module Embed.
Record t := {
  title : option string;
  description : option string;
  url : option string;
  author : option string;            (* author.name *)
  fields : list (string * string);   (* name, value *)
  footer : option string;            (* footer.text *)
  image : option string;             (* image.url *)
  thumbnail : option string;         (* thumbnail.url *)
  timestamp : option string
  }.
End Embed.

Module Sticker.
Record t := { name : string; description : option string }.
End Sticker.

Module Reaction.
Record t := { emoji : option string; count : Z }.
End Reaction.

Module Poll.
Record t := {
  question : string;                 (* question.text *)
  answers : list string;             (* answer.text, in order *)
  expiresAt : option string
  }.
End Poll.

Module Reference.
(** [message.reference], together with what the channel's message cache
    holds for the referenced id: author username and content. *)
Record t := {
  messageId : option string;
  cached : option (string * string)
  }.
End Reference.

Module Author.
Record t := { bot : bool; username : string; displayName : string }.
End Author.

Module Message.
Record t := {
  id : string;
  createdTimestamp : Z;
  content : string;
  author : Author.t;
  member : option string;            (* member.displayName *)
  attachments : list Attachment.t;
  embeds : list Embed.t;
  stickers : list Sticker.t;
  poll : option Poll.t;
  reactions : list Reaction.t;
  reference : option Reference.t
  }.
End Message.

(** ** OpenAI SDK data *)

(** [ChatCompletionMessageToolCall]: a function call, or a call of another
  type that the loops skip. *)
Inductive ToolCall :=
| FunctionToolCall (id : string) (name : string) (arguments : string)
| CustomToolCall (id : string) (name : string) (input : string).

Definition call_id (c : ToolCall) : string :=
  match c with
  | FunctionToolCall i _ _ => i
  | CustomToolCall i _ _ => i
  end.

(** [toolCall.function?.name] *)
Definition call_function_name (c : ToolCall) : option string :=
  match c with
  | FunctionToolCall _ n _ => Some n
  | CustomToolCall _ _ _ => None
  end.

Module ToolResult.
Record t := {
  tool_call_id : string;
  name : string;
  content : string
  }.
End ToolResult.

Inductive MessageContentPart :=
| TextPart (text : string)
| ImagePart (url : string)            (* image_url: { url, detail: 'auto' } *)
| AudioPart (data : string).

Inductive UserContent :=
| UserText (s : string)
| UserParts (parts : list MessageContentPart).

(** [ChatCompletionMessageParam] *)
Inductive AIMessage :=
| SystemMessage (content : string)
| UserMessage (content : UserContent) (name : option string)
| AssistantMessage (content : option string) (tool_calls : option (list ToolCall))
| ToolMessage (content : string) (tool_call_id : string).

(** ** The tool-call ledger (tool-calls-store.ts) *)
Module ToolCallsStore.

Record ToolCallData := {
  messageId : string;
  messageContent : string;
  timestamp : Z;
  toolCalls : list ToolCall;
  toolResults : list ToolResult.t
  }.

(** The private [toolCallsMap]. *)
Abbreviation Store := (gmap string ToolCallData).

Definition generateMessageKey (message : Message.t) : string :=
  Message.id message +:+ "_" +:+ JS.ofNumber (Message.createdTimestamp message).

Definition storeToolCallsForMessage
    (message : Message.t) (calls : list ToolCall) (results : list ToolResult.t)
    (store : Store) : Store :=
  let key := generateMessageKey message in
  <[key := {| messageId := Message.id message;
              messageContent := Message.content message;
              timestamp := Message.createdTimestamp message;
              toolCalls := calls;
              toolResults := results |}]> store.

Definition getToolCallsForMessage (message : Message.t) (store : Store)
  : option ToolCallData :=
  let key := generateMessageKey message in
  store !! key.

Definition recentMessageKeys (recentMessages : list Message.t) : gset string :=
  list_to_set (generateMessageKey <$> recentMessages).

Definition recentMessageIds (recentMessages : list Message.t) : gset string :=
  list_to_set (Message.id <$> recentMessages).

(** The test of the cleanup loop on one key, against the current map:
    [!recentMessageKeys.has(key) && !recentMessageIds.has(data?.messageId || '')]. *)
Definition stale (keys ids : gset string) (key : string) (data : option ToolCallData)
  : bool :=
  bool_decide (key ∉ keys) &&
  bool_decide (default EmptyString (messageId <$> data) ∉ ids).

Definition cleanupStep (keys ids : gset string) (store : Store) (key : string) : Store :=
  let data := store !! key in
  if stale keys ids key data then delete key store else store.

(** The loop runs over the keys of the map and deletes in place. *)
Definition cleanupOldToolCalls (recentMessages : list Message.t) (store : Store) : Store :=
  let keys := recentMessageKeys recentMessages in
  let ids := recentMessageIds recentMessages in
  foldl (cleanupStep keys ids) store (map_to_list store).*1.

End ToolCallsStore.


(** ** Thrown values, oracles and the process state *)

Module Thrown.
(** A JavaScript value that was thrown, with what the handlers read from it:
    [error instanceof Error], [error?.status], [error?.message],
    [error?.toString()] and [error.error?.metadata?.remaining_credits]. *)
Record t := {
  instanceofError : bool;
  status : option Z;
  message : string;
  toString : string;
  remaining_credits : option string
}.
End Thrown.

(** [new Error(msg)] *)
Definition newError (msg : string) : Thrown.t :=
  {| Thrown.instanceofError := true;
     Thrown.status := None;
     Thrown.message := msg;
     Thrown.toString := "Error: " +:+ msg;
     Thrown.remaining_credits := None |}.

(** [ChatCompletionTool]; the description and the parameter schema are
    static text handed to the endpoint and are left out. *)
Record ToolDefinition := { def_name : string }.

Module ChatRequest.
(** The body of [client.chat.completions.create]. *)
Record t := {
  model : string;
  messages : list AIMessage;
  tools : option (list ToolDefinition);
  max_tokens : Z
}.
End ChatRequest.

Module Completion.
(** [completion.message] of the first choice. *)
Record t := {
  content : option string;
  tool_calls : option (list ToolCall)
}.
End Completion.

Inductive ApiReply :=
| ApiThrows (e : Thrown.t)
| ApiChoices (first : option Completion.t).

Inductive ToolOutcome :=
| Returned (text : string)           (* the result, as the loops stringify it *)
| Threw (e : Thrown.t).

(** [channel.messages.fetch]: the messages newest first, or a thrown value
    together with whether it is the Discord error 10008 (unknown message). *)
Inductive FetchReply :=
| Fetched (newestFirst : list Message.t)
| FetchThrows (unknownMessage : bool) (e : Thrown.t).

(** [OpenProjectAgentOptions] *)
Record OpenProjectAgentOptions := {
  task : string;
  context : option string;
  max_iterations : option Z
}.

(** What lies outside the process.  Every oracle takes the world and gives
    it back, so that replies may differ from one call to the next. *)
Record Env := {
  World : Type;
  Json : Type;
  (** [JSON.parse]: the value, or the message of the [SyntaxError] *)
  JSON_parse : string -> string + Json;
  (** the chat-completion endpoint *)
  chatCompletionsCreate : ChatRequest.t -> World -> ApiReply * World;
  (** [fetch(url)] of an image followed by the base64 encoding of the body;
      [None] when the fetch throws or the response is not ok *)
  fetchBase64 : string -> World -> option string * World;
  (** [date.toLocaleString()] of a creation time *)
  toLocaleString : Z -> string;
  (** the tools, whose bodies are REST calls or clock reads *)
  listProjectsTool : Json -> World -> ToolOutcome * World;
  createWorkPackageTool : Json -> World -> ToolOutcome * World;
  listWorkPackagesTool : Json -> World -> ToolOutcome * World;
  assignUserTool : Json -> World -> ToolOutcome * World;
  searchUsersTool : Json -> World -> ToolOutcome * World;
  getMetadataTool : Json -> World -> ToolOutcome * World;
  dateTimeTool : Json -> World -> ToolOutcome * World;
  (** the cast [args as unknown as OpenProjectAgentOptions] *)
  asOpenProjectAgentOptions : Json -> OpenProjectAgentOptions;
  (** the prompt template of the nested agent with the task, the context and
      the budget spliced in; the loop never inspects it *)
  openProjectSystemPrompt : string -> option string -> Z -> string;
  (** [generateSystemPrompt(basePrompt, ...)] of the outer pipeline *)
  outerSystemPrompt : Message.t -> string;
  (** configuration *)
  config_modelName : string;
  config_messageHistoryLimit : Z;
  (** Discord and the anchor file *)
  getAnchorMessageId : World -> option string * World;
  clearAnchorMessageId : World -> World;
  channelFetch : Z -> option string -> World -> FetchReply * World;
  (** the delivery layer: [sendSplitMessage], giving the first sent message
      when there is one, or throwing *)
  sendSplitMessage : string -> Message.t -> World -> (Thrown.t + option Message.t) * World
}.

(** Ghost record of what a run asked of the world. *)
Inductive Event :=
| Requested (req : ChatRequest.t)
| Executed (toolName : string).

Section Process.
Variable E : Env.

Record Proc := {
  world : World E;
  trace : list Event;
  ledger : gmap string ToolCallsStore.ToolCallData;
  imageCache : list (string * string)
}.

Definition set_world (w : World E) (p : Proc) : Proc :=
  {| world := w; trace := trace p; ledger := ledger p; imageCache := imageCache p |}.

Definition set_trace (t : list Event) (p : Proc) : Proc :=
  {| world := world p; trace := t; ledger := ledger p; imageCache := imageCache p |}.

Definition set_ledger (l : gmap string ToolCallsStore.ToolCallData) (p : Proc) : Proc :=
  {| world := world p; trace := trace p; ledger := l; imageCache := imageCache p |}.

Definition set_imageCache (c : list (string * string)) (p : Proc) : Proc :=
  {| world := world p; trace := trace p; ledger := ledger p; imageCache := c |}.

(** How a computation ends: with a value, with a thrown value, or cut short
    because the number of rounds granted to a loop of this embedding ran out. *)
Inductive Result (A : Type) :=
| Ok (a : A)
| Throw (e : Thrown.t)
| OutOfFuel.

Definition M (A : Type) : Type := Proc -> Result A * Proc.

Definition ret {A} (a : A) : M A := fun p => (Ok _ a, p).

Definition throw {A} (e : Thrown.t) : M A := fun p => (Throw _ e, p).

Definition bind {A B} (m : M A) (k : A -> M B) : M B :=
  fun p =>
    match m p with
    | (Ok _ a, p') => k a p'
    | (Throw _ e, p') => (Throw B e, p')
    | (OutOfFuel _, p') => (OutOfFuel B, p')
    end.

(** [try { m } catch (e) { h(e) }] *)
Definition tryCatch {A} (m : M A) (h : Thrown.t -> M A) : M A :=
  fun p =>
    match m p with
    | (Throw _ e, p') => h e p'
    | r => r
    end.

(** An oracle call. *)
Definition ask {A} (f : World E -> A * World E) : M A :=
  fun p => let '(a, w) := f (world p) in (Ok A a, set_world w p).

Definition record (ev : Event) : M unit :=
  fun p => (Ok unit tt, set_trace (trace p ++ [ev]) p).

Definition getLedger : M (gmap string ToolCallsStore.ToolCallData) :=
  fun p => (Ok _ (ledger p), p).

Definition modifyLedger
    (f : gmap string ToolCallsStore.ToolCallData -> gmap string ToolCallsStore.ToolCallData)
  : M unit :=
  fun p => (Ok unit tt, set_ledger (f (ledger p)) p).

Definition getImageCache : M (list (string * string)) :=
  fun p => (Ok _ (imageCache p), p).

Definition putImageCache (c : list (string * string)) : M unit :=
  fun p => (Ok unit tt, set_imageCache c p).

End Process.

Arguments Ok {A} a.
Arguments Throw {A} e.
Arguments OutOfFuel {A}.
Arguments ret {E A} a.
Arguments throw {E A} e.
Arguments bind {E A B} m k.
Arguments tryCatch {E A} m h.
Arguments ask {E A} f.
Arguments record {E} ev.
Arguments getLedger {E}.
Arguments modifyLedger {E} f.
Arguments getImageCache {E}.
Arguments putImageCache {E} c.
Arguments set_world {E} w p.
Arguments set_trace {E} t p.
Arguments set_ledger {E} l p.
Arguments set_imageCache {E} c p.
Arguments world {E} p.
Arguments trace {E} p.
Arguments ledger {E} p.
Arguments imageCache {E} p.

Declare Scope js_scope.
Delimit Scope js_scope with js.
Notation "'let*' x := m 'in' k" := (bind m (fun x => k))
  (at level 10, x name, m at level 100, k at level 200) : js_scope.
Notation "m1 ;;; m2" := (bind m1 (fun _ => m2))
  (at level 100, m2 at level 200, right associativity) : js_scope.
Local Open Scope js_scope.

Fixpoint mapM {E A B} (f : A -> M E B) (l : list A) : M E (list B) :=
  match l with
  | [] => ret []
  | x :: rest =>
      let* y := f x in
      let* ys := mapM f rest in
      ret (y :: ys)
  end.

(** ** A JavaScript [Map] with string keys, in insertion order *)
Module JsMap.

Fixpoint get {V} (key : string) (m : list (string * V)) : option V :=
  match m with
  | [] => None
  | (k, v) :: rest => if String.eqb k key then Some v else get key rest
  end.

(** [m.set(key, v)]: an existing key keeps its place. *)
Fixpoint set {V} (key : string) (v : V) (m : list (string * V)) : list (string * V) :=
  match m with
  | [] => [(key, v)]
  | (k, v0) :: rest =>
      if String.eqb k key then (k, v) :: rest else (k, v0) :: set key v rest
  end.

Fixpoint delete {V} (key : string) (m : list (string * V)) : list (string * V) :=
  match m with
  | [] => []
  | (k, v) :: rest => if String.eqb k key then rest else (k, v) :: delete key rest
  end.

Definition keys {V} (m : list (string * V)) : list string := m.*1.

Definition values {V} (m : list (string * V)) : list V := m.*2.

End JsMap.

Definition dq : string := String "034" EmptyString.
Definition nl : string := String "010" EmptyString.

(** ** The conversation assembler (message-utils.ts) *)
Module MessageUtils.

(** [const firstKey = imageCache.keys().next().value;
     if (firstKey) imageCache.delete(firstKey)] *)
Definition cacheEvictOldest (c : list (string * string)) : list (string * string) :=
  match JsMap.keys c with
  | [] => c
  | firstKey :: _ =>
      if String.eqb firstKey EmptyString then c else JsMap.delete firstKey c
  end.

(** Determine MIME type from URL or default to PNG. *)
Definition sniffMimeType (url : string) : string :=
  let urlLower := JS.toLowerCase url in
  if JS.includes urlLower ".jpg" || JS.includes urlLower ".jpeg" then "image/jpeg"
  else if JS.includes urlLower ".gif" then "image/gif"
  else if JS.includes urlLower ".webp" then "image/webp"
  else "image/png".

Definition dataUrl (mimeType base64 : string) : string :=
  "data:" +:+ mimeType +:+ ";base64," +:+ base64.

(** [(size / (1024 * 1024)).toFixed(2)] for a size in bytes: the quotient is
    exact in a double, and [toFixed] rounds it to hundredths, half up. *)
Definition sizeInMB (size : Z) : string :=
  let h := (size * 200 + 1048576) / 2097152 in
  pretty (h / 100) +:+ "." +:+ pretty (h mod 100 / 10) +:+ pretty (h mod 10).

Definition quoted (s : string) : string := dq +:+ s +:+ dq.

Definition whenSome (o : option string) (f : string -> string) : string :=
  match o with
  | Some s => if String.eqb s EmptyString then EmptyString else f s
  | None => EmptyString
  end.

Definition convertEmbedToText (embed : Embed.t) : string :=
  "[Embed:"
  +:+ whenSome (Embed.title embed) (fun t => " Title: " +:+ quoted t)
  +:+ whenSome (Embed.description embed) (fun d => " Description: " +:+ quoted d)
  +:+ whenSome (Embed.url embed) (fun u => " URL: " +:+ u)
  +:+ match Embed.author embed with
      | Some a => " Author: " +:+ quoted a
      | None => EmptyString
      end
  +:+ match Embed.fields embed with
      | [] => EmptyString
      | fs => " Fields: " +:+
              JS.join ", " ((fun f => quoted (f.1 +:+ ": " +:+ f.2)) <$> fs)
      end
  +:+ match Embed.footer embed with
      | Some f => " Footer: " +:+ quoted f
      | None => EmptyString
      end
  +:+ match Embed.image embed with
      | Some u => " Image: " +:+ u
      | None => EmptyString
      end
  +:+ match Embed.thumbnail embed with
      | Some u => " Thumbnail: " +:+ u
      | None => EmptyString
      end
  +:+ whenSome (Embed.timestamp embed) (fun t => " Timestamp: " +:+ t)
  +:+ "]".

Definition convertStickerToText (sticker : Sticker.t) : string :=
  "[Sticker: " +:+ quoted (Sticker.name sticker) +:+ " - "
  +:+ JS.orElse (Sticker.description sticker) "No description" +:+ "]".

Definition convertReactionsToText (message : Message.t) : string :=
  match Message.reactions message with
  | [] => EmptyString
  | rs =>
      "[Reactions: " +:+
      JS.join ", "
        ((fun r => JS.orElse (Reaction.emoji r) "Unknown" +:+ " (" +:+
                   JS.ofNumber (Reaction.count r) +:+ ")") <$> rs)
      +:+ "]"
  end.

Definition convertMessageReferenceToText (message : Message.t) : string :=
  match Message.reference message with
  | None => EmptyString
  | Some r =>
      "[Reply to: " +:+
      match Reference.messageId r with
      | Some mid =>
          if String.eqb mid EmptyString then EmptyString
          else
            match Reference.cached r with
            | Some (authorName, text) =>
                let content := if String.eqb text EmptyString then "[No text content]" else text in
                let truncatedContent :=
                  if (100 <? String.length content)%nat
                  then JS.substring0 100 content +:+ "..."
                  else content in
                authorName +:+ ": " +:+ quoted truncatedContent
            | None => "Message ID " +:+ mid
            end
      | None => EmptyString
      end
      +:+ "]"
  end.

Definition convertPollToText (poll : Poll.t) : string :=
  "[Poll: " +:+ quoted (Poll.question poll)
  +:+ match Poll.answers poll with
      | [] => EmptyString
      | answers => " Options: " +:+ JS.join ", " (quoted <$> answers)
      end
  +:+ match Poll.expiresAt poll with
      | Some e => " Expires: " +:+ e
      | None => EmptyString
      end
  +:+ "]".

(** [username.replace(/[^a-zA-Z0-9_-]/g, '_').substring(0, 64)] *)
Definition nameChar (c : ascii) : ascii :=
  let n := N_of_ascii c in
  if (((97 <=? n) && (n <=? 122)) || ((65 <=? n) && (n <=? 90)) ||
      ((48 <=? n) && (n <=? 57)) || (n =? 95) || (n =? 45))%N
  then c else "_"%char.

Fixpoint mapChars (f : ascii -> ascii) (s : string) : string :=
  match s with
  | EmptyString => EmptyString
  | String c s' => String (f c) (mapChars f s')
  end.

Definition cleanName (username : string) : string :=
  JS.substring0 64 (mapChars nameChar username).

(** The loop that re-adds the stored results: position [i] of the results
    is paired with position [i] of the calls, and emitted when both exist. *)
Definition toolMessages (calls : list ToolCall) (results : list ToolResult.t)
  : list AIMessage :=
  flat_map
    (fun i =>
       match results !! i, calls !! i with
       | Some toolResult, Some toolCall =>
           [ToolMessage (ToolResult.content toolResult) (call_id toolCall)]
       | _, _ => []
       end)
    (seq 0 (length results)).

(** [parts.map(...).join(' ')] of the assistant branch. *)
Definition partAsText (part : MessageContentPart) : string :=
  match part with
  | TextPart t => t
  | ImagePart u => "[Image: " +:+ JS.substring0 50 u +:+ "...]"
  | AudioPart _ => "[Non-text content]"
  end.

Definition assistantContent (contentParts : list MessageContentPart) : option string :=
  match contentParts with
  | [] => None
  | [TextPart t] => Some t
  | _ => Some (JS.join " " (partAsText <$> contentParts))
  end.

Section WithEnv.
Variable E : Env.

(** The part of [convertImageToBase64] after a cache miss: download, encode,
    sniff the type, make room in the cache, store.  A failure anywhere in
    the download falls back to the URL itself. *)
Definition downloadAndCache (url : string) : M E string :=
  let* fetched := ask (fetchBase64 E url) in
  match fetched with
  | None => ret url
  | Some base64 =>
      let result := dataUrl (sniffMimeType url) base64 in
      let* cache := getImageCache in
      let cache1 := if (100 <=? length cache)%nat then cacheEvictOldest cache else cache in
      putImageCache (JsMap.set url result cache1) ;;;
      ret result
  end.

Definition convertImageToBase64 (url : string) : M E string :=
  let* cache := getImageCache in
  match JsMap.get url cache with
  | Some cached =>
      if String.eqb cached EmptyString then downloadAndCache url else ret cached
  | None => downloadAndCache url
  end.

(** The description of an attachment that is neither image nor audio. *)
Definition attachmentText (attachment : Attachment.t) : string :=
  "[Attachment: " +:+ Attachment.name attachment +:+ " (" +:+
  sizeInMB (Attachment.size attachment) +:+ "MB)"
  +:+ whenSome (Attachment.contentType attachment) (fun contentType =>
        if JS.startsWith contentType "video/" then
          " - Video" +:+
          match Attachment.height attachment, Attachment.width attachment with
          | Some h, Some w =>
              if (h =? 0) || (w =? 0) then EmptyString
              else " (" +:+ JS.ofNumber w +:+ "x" +:+ JS.ofNumber h +:+ ")"
          | _, _ => EmptyString
          end
        else if JS.includes contentType "pdf" then " - PDF Document"
        else if JS.includes contentType "text/" then " - Text File"
        else " - File (" +:+ contentType +:+ ")")
  +:+ whenSome (Attachment.description attachment) (fun d =>
        " - Description: " +:+ quoted d)
  +:+ " - URL: " +:+ Attachment.url attachment +:+ "]".

(** [convertImageToBase64] catches its own failures, so the [catch] around
    its call in the source is never entered. *)
Definition convertAttachmentToContentPart (attachment : Attachment.t)
  : M E MessageContentPart :=
  let url := Attachment.url attachment in
  match Attachment.contentType attachment with
  | Some contentType =>
      if String.eqb contentType EmptyString then
        ret (TextPart (attachmentText attachment))
      else if JS.startsWith contentType "image/" then
        let* base64Url := convertImageToBase64 url in
        ret (ImagePart base64Url)
      else if JS.startsWith contentType "audio/" then
        ret (TextPart ("[Audio File: " +:+ Attachment.name attachment +:+ " (" +:+
                       sizeInMB (Attachment.size attachment) +:+ "MB) - " +:+
                       contentType +:+ " - URL: " +:+ url +:+ "]"))
      else ret (TextPart (attachmentText attachment))
  | None => ret (TextPart (attachmentText attachment))
  end.

Definition textParts (texts : list string) : list MessageContentPart :=
  TextPart <$> texts.

Definition whenNonEmpty (s : string) : list MessageContentPart :=
  if String.eqb s EmptyString then [] else [TextPart s].

(** [member?.displayName || author.displayName || author.username] *)
Definition speaker (message : Message.t) : string :=
  let author := Message.author message in
  JS.orElse (Message.member message)
    (JS.orElse (Some (Author.displayName author)) (Author.username author)).

(** The user branch of the loop of [convertToAIMessages].  The source starts
    the conversions of the attachments together ([Promise.all]) and collects
    the segments in attachment order; here they run one after the other in
    that order, which is one of the schedules. *)
Definition convertUserMessage (message : Message.t) : M E AIMessage :=
  let username := speaker message in
  let* attachmentParts :=
    mapM convertAttachmentToContentPart (Message.attachments message) in
  let contentParts :=
    [TextPart (username +:+ ":")]
    ++ whenNonEmpty (convertMessageReferenceToText message)
    ++ whenNonEmpty (Message.content message)
    ++ attachmentParts
    ++ textParts (convertEmbedToText <$> Message.embeds message)
    ++ textParts (convertStickerToText <$> Message.stickers message)
    ++ match Message.poll message with
       | Some poll => whenNonEmpty (convertPollToText poll)
       | None => []
       end
    ++ whenNonEmpty (convertReactionsToText message)
    ++ [TextPart ("[Sent: " +:+ toLocaleString E (Message.createdTimestamp message) +:+ "]")] in
  ret (UserMessage
         (match contentParts with
          | [] => UserText "No content"
          | _ => UserParts contentParts
          end)
         (Some (cleanName username))).

Definition convertBotAttachment (att : Attachment.t) : M E MessageContentPart :=
  match Attachment.contentType att with
  | Some contentType =>
      if JS.startsWith contentType "image/" then
        let* base64Url := convertImageToBase64 (Attachment.url att) in
        ret (ImagePart base64Url)
      else ret (TextPart ("[Bot shared: " +:+ Attachment.name att +:+ "]"))
  | None => ret (TextPart ("[Bot shared: " +:+ Attachment.name att +:+ "]"))
  end.

Definition botEmbedText (embed : Embed.t) : string :=
  "[Bot embed: " +:+
  JS.orElse (Embed.title embed) (JS.orElse (Embed.description embed) "Embedded content")
  +:+ "]".

(** The content of the assistant turn for a bot message: [None] when the
    source skips the message at [if (!content) continue]. *)
Definition convertBotContent (message : Message.t) : M E (option string) :=
  let* botAttachmentParts := mapM convertBotAttachment (Message.attachments message) in
  let contentParts :=
    whenNonEmpty (Message.content message)
    ++ botAttachmentParts
    ++ textParts (botEmbedText <$> Message.embeds message) in
  ret (match assistantContent contentParts with
       | Some s => if String.eqb s EmptyString then None else Some s
       | None => None
       end).

(** The lines after [aiMessages.push(assistantMessage)]: the ledger is
    consulted, and on a hit with at least one call the assistant text is
    popped, the tool request and the tool results are pushed, and the text
    is pushed back. *)
Definition reinsertToolCalls (message : Message.t) (aiMessages : list AIMessage)
  : M E (list AIMessage) :=
  let* store := getLedger in
  match ToolCallsStore.getToolCallsForMessage message store with
  | Some toolCallData =>
      match ToolCallsStore.toolCalls toolCallData with
      | [] => ret aiMessages
      | calls =>
          match last aiMessages with
          | Some botMessage =>
              ret (removelast aiMessages
                   ++ [AssistantMessage None (Some calls)]
                   ++ toolMessages calls (ToolCallsStore.toolResults toolCallData)
                   ++ [botMessage])
          | None => ret aiMessages
          end
      end
  | None => ret aiMessages
  end.

(** One round of the loop of [convertToAIMessages]. *)
Definition convertMessage (aiMessages : list AIMessage) (message : Message.t)
  : M E (list AIMessage) :=
  let isBot := Author.bot (Message.author message) in
  if isBot
     && String.eqb (Message.content message) EmptyString
     && bool_decide (Message.attachments message = [])
     && bool_decide (Message.embeds message = [])
     && bool_decide (Message.stickers message = [])
  then ret aiMessages
  else if negb isBot then
    let* userMessage := convertUserMessage message in
    ret (aiMessages ++ [userMessage])
  else
    let* content := convertBotContent message in
    match content with
    | None => ret aiMessages
    | Some text =>
        reinsertToolCalls message (aiMessages ++ [AssistantMessage (Some text) None])
    end.

Fixpoint convertMessages (aiMessages : list AIMessage) (messages : list Message.t)
  : M E (list AIMessage) :=
  match messages with
  | [] => ret aiMessages
  | message :: rest =>
      let* aiMessages1 := convertMessage aiMessages message in
      convertMessages aiMessages1 rest
  end.

Definition convertToAIMessages (messages : list Message.t) (query : string)
  : M E (list AIMessage) :=
  let* aiMessages := convertMessages [] messages in
  let trimmed := JS.trim query in
  if String.eqb trimmed EmptyString then ret aiMessages
  else ret (aiMessages ++ [UserMessage (UserText trimmed) None]).

(** [fetchRecentMessages]: the window oldest first, or the empty list when
    anything in the fetch throws. *)
Definition fetchRecentMessages (limit : Z) : M E (list Message.t) :=
  tryCatch
    (let* anchorId := ask (getAnchorMessageId E) in
     let* fetched :=
       if JS.truthy anchorId then
         let* reply := ask (channelFetch E limit anchorId) in
         match reply with
         | Fetched ms => ret ms
         | FetchThrows true _ =>
             ask (fun w => (tt, clearAnchorMessageId E w)) ;;;
             let* again := ask (channelFetch E limit None) in
             match again with
             | Fetched ms => ret ms
             | FetchThrows _ e => throw e
             end
         | FetchThrows false e => throw e
         end
       else
         let* reply := ask (channelFetch E limit None) in
         match reply with
         | Fetched ms => ret ms
         | FetchThrows _ e => throw e
         end in
     ret (rev fetched))
    (fun _ => ret []).

End WithEnv.
End MessageUtils.

(** ** Tools and registries (tools-registry.ts, openproject-agent/registry.ts) *)

Record Tool (E : Env) := {
  tool_name : string;
  tool_execute : Json E -> M E string
}.
Arguments tool_name {E} t.
Arguments tool_execute {E} t.

(** A tool whose body lives outside the process. *)
Definition externalTool {E} (name : string)
    (body : Json E -> World E -> ToolOutcome * World E) : Tool E :=
  {| tool_name := name;
     tool_execute := fun args =>
       let* outcome := ask (body args) in
       match outcome with
       | Returned text => ret text
       | Threw e => throw e
       end |}.

Definition registerTool {E} (tool : Tool E) (tools : list (string * Tool E))
  : list (string * Tool E) :=
  JsMap.set (tool_name tool) tool tools.

Definition getToolDefinitions {E} (tools : list (string * Tool E)) : list ToolDefinition :=
  (fun tool => {| def_name := tool_name tool |}) <$> JsMap.values tools.

Definition getToolNames {E} (tools : list (string * Tool E)) : list string :=
  JsMap.keys tools.

Definition getToolCount {E} (tools : list (string * Tool E)) : Z :=
  Z.of_nat (length tools).

(** [executeTool] of either registry; they differ in the message of the
    error for an unknown name. *)
Definition executeToolIn {E} (notFound : string) (tools : list (string * Tool E))
    (name : string) (args : Json E) : M E string :=
  match JsMap.get name tools with
  | None => throw (newError (notFound +:+ name))
  | Some tool =>
      record (Executed name) ;;;
      tool_execute tool args
  end.

(** [JSON.parse(argsString)] *)
Definition parseJson {E} (argsString : string) : M E (Json E) :=
  match JSON_parse E argsString with
  | inl msg => throw (newError msg)
  | inr v => ret v
  end.

Module OpenProjectToolsRegistry.

Definition new (E : Env) : list (string * Tool E) :=
  registerTool (externalTool "get_metadata" (getMetadataTool E))
  (registerTool (externalTool "search_users" (searchUsersTool E))
  (registerTool (externalTool "assign_user" (assignUserTool E))
  (registerTool (externalTool "list_work_packages" (listWorkPackagesTool E))
  (registerTool (externalTool "create_work_package" (createWorkPackageTool E))
  (registerTool (externalTool "list_projects" (listProjectsTool E)) []))))).

Definition executeTool {E} (tools : list (string * Tool E)) : string -> Json E -> M E string :=
  executeToolIn "OpenProject tool not found: " tools.

End OpenProjectToolsRegistry.

(** ** The chat-completion client (ai-service.ts) *)
Module AIService.

Record AIServiceConfig := {
  cfg_modelName : string;
  cfg_systemPrompt : string;
  cfg_maxTokens : option Z;
  cfg_customTools : option (list ToolDefinition)
}.

Record t := {
  modelName : string;
  systemPrompt : string;
  tools : list ToolDefinition;
  maxTokens : Z
}.

(** The constructor; [registryTools] stands for
    [toolsRegistry.getToolDefinitions()] of the global registry. *)
Definition new (options : AIServiceConfig) (registryTools : list ToolDefinition) : t :=
  {| modelName := cfg_modelName options;
     systemPrompt := cfg_systemPrompt options;
     tools := default registryTools (cfg_customTools options);
     maxTokens := match cfg_maxTokens options with
                  | Some n => if n =? 0 then 8192 else n
                  | None => 8192
                  end |}.

(** The [catch] of [generateResponse]: the failure is sorted by its HTTP
    status and thrown again as an [Error] with a fixed sentence. *)
Definition categorize (maxTokens : Z) (error : Thrown.t) : Thrown.t :=
  match Thrown.status error with
  | Some status =>
      if status =? 402 then
        newError ("AI service credit limit exceeded: " +:+
                  "Insufficient credits. You requested up to " +:+ JS.ofNumber maxTokens +:+
                  " tokens but can only afford " +:+
                  JS.orElse (Thrown.remaining_credits error) "unknown" +:+
                  " tokens. Please add more credits at https://openrouter.ai/settings/credits")
      else if status =? 429 then
        newError "AI service rate limit exceeded. Please try again later."
      else if status =? 401 then
        newError "AI service authentication failed. Please check your API key."
      else if 500 <=? status then
        newError "AI service is temporarily unavailable. Please try again later."
      else
        newError ("AI service error: " +:+
                  JS.orElse (Some (Thrown.message error))
                    (JS.orElse (Some (Thrown.toString error)) "Unknown error"))
  | None =>
      newError ("AI service error: " +:+
                JS.orElse (Some (Thrown.message error))
                  (JS.orElse (Some (Thrown.toString error)) "Unknown error"))
  end.

Definition withSystemPrompt (service : t) (messages : list AIMessage) : list AIMessage :=
  match messages with
  | SystemMessage _ :: _ => messages
  | _ => SystemMessage (systemPrompt service) :: messages
  end.

Definition request (service : t) (messages : list AIMessage) : ChatRequest.t :=
  {| ChatRequest.model := modelName service;
     ChatRequest.messages := withSystemPrompt service messages;
     ChatRequest.tools := match tools service with
                          | [] => None
                          | ts => Some ts
                          end;
     ChatRequest.max_tokens := maxTokens service |}.

Definition generateResponse {E} (service : t) (messages : list AIMessage)
  : M E Completion.t :=
  tryCatch
    (let req := request service messages in
     record (Requested req) ;;;
     let* reply := ask (chatCompletionsCreate E req) in
     match reply with
     | ApiThrows e => throw e
     | ApiChoices None => throw (newError "No completion received from AI")
     | ApiChoices (Some completion) => ret completion
     end)
    (fun error => throw (categorize (maxTokens service) error)).

(** One round of the loop of [processToolCalls]; [executeTool] stands for
    [toolsRegistry.executeTool] of the global registry. *)
Definition processToolCall {E} (executeTool : string -> Json E -> M E string)
    (results : list ToolResult.t) (call : ToolCall) : M E (list ToolResult.t) :=
  match call with
  | CustomToolCall _ _ _ => ret results
  | FunctionToolCall id name argsString =>
      tryCatch
        (let* args := parseJson argsString in
         let* resultString := executeTool name args in
         ret (results ++ [{| ToolResult.tool_call_id := id;
                             ToolResult.name := name;
                             ToolResult.content := resultString |}]))
        (fun _ =>
           ret (results ++ [{| ToolResult.tool_call_id := id;
                               ToolResult.name := name;
                               ToolResult.content :=
                                 "Error: Failed to execute tool " +:+ name |}]))
  end.

Fixpoint processToolCallsFrom {E} (executeTool : string -> Json E -> M E string)
    (results : list ToolResult.t) (calls : list ToolCall) : M E (list ToolResult.t) :=
  match calls with
  | [] => ret results
  | call :: rest =>
      let* results1 := processToolCall executeTool results call in
      processToolCallsFrom executeTool results1 rest
  end.

Definition processToolCalls {E} (executeTool : string -> Json E -> M E string)
    (toolCalls : option (list ToolCall)) : M E (list ToolResult.t) :=
  match toolCalls with
  | None => ret []
  | Some calls => processToolCallsFrom executeTool [] calls
  end.

Definition createToolResultMessages (toolResults : list ToolResult.t) : list AIMessage :=
  (fun result => ToolMessage (ToolResult.content result) (ToolResult.tool_call_id result))
    <$> toolResults.

End AIService.

(** ** The nested agent (openproject-agent/index.ts) *)
Module OpenProjectAgent.

(** An element of the local [toolResults] array. *)
Record AgentToolResult := {
  tool_call_id : string;
  content : string
}.

Definition asMessage (r : AgentToolResult) : AIMessage :=
  ToolMessage (content r) (tool_call_id r).

(** The variables of [execute] that the loop reads and writes. *)
Record LoopState := {
  messages : list AIMessage;
  iterationCount : Z;
  finalResponse : string;
  foundUserIdButNeedsList : bool
}.

Definition summaryRequest : AIMessage :=
  UserMessage
    (UserText
       ("Please provide a comprehensive final summary of your OpenProject management results. "
        +:+ "Include ALL the detailed information you found - work package IDs, titles, "
        +:+ "statuses, users, dates, links, etc. Do not just say the task was completed, "
        +:+ "show the actual data and results you discovered."))
    None.

(** [error instanceof Error ? error.message : 'Unknown error'] *)
Definition errorText (error : Thrown.t) : string :=
  if Thrown.instanceofError error then Thrown.message error else "Unknown error".

(** The condition of the [while]. *)
Definition loopCondition (max_iterations : Z) (s : LoopState) : bool :=
  (iterationCount s <? max_iterations)
  || (foundUserIdButNeedsList s && (iterationCount s <? max_iterations + 2)).

(** The task wording that makes a resolved user id extend the budget. *)
Definition taskAsksForListing (task : string) : bool :=
  let lower := JS.toLowerCase task in
  JS.includes lower "list" || JS.includes lower "issue" || JS.includes lower "work package".

(** The second [for] of a tool turn: did a [search_users] call of this turn
    come back with a user id, for a task that asks for a listing? *)
Definition foundUserId (task : string) (calls : list ToolCall)
    (toolResults : list AgentToolResult) : bool :=
  existsb
    (fun toolCall =>
       match call_function_name toolCall with
       | Some name =>
           String.eqb name "search_users" &&
           match find (fun r => String.eqb (tool_call_id r) (call_id toolCall)) toolResults with
           | Some toolResult =>
               JS.includes (content toolResult) "User ID:" && taskAsksForListing task
           | None => false
           end
       | None => false
       end)
    calls.

Section WithEnv.
Variable E : Env.

(** One round of the first [for] of a tool turn. *)
Definition executeToolCall (registry : list (string * Tool E))
    (toolResults : list AgentToolResult) (toolCall : ToolCall)
  : M E (list AgentToolResult) :=
  match toolCall with
  | CustomToolCall _ _ _ => ret toolResults
  | FunctionToolCall id name argsString =>
      tryCatch
        (let* toolArgs := parseJson argsString in
         let* resultString := OpenProjectToolsRegistry.executeTool registry name toolArgs in
         ret (toolResults ++ [{| tool_call_id := id; content := resultString |}]))
        (fun error =>
           ret (toolResults ++
                [{| tool_call_id := id;
                    content := "Error: Failed to execute " +:+ name +:+ ": " +:+
                               errorText error |}]))
  end.

Fixpoint executeToolCalls (registry : list (string * Tool E))
    (toolResults : list AgentToolResult) (calls : list ToolCall)
  : M E (list AgentToolResult) :=
  match calls with
  | [] => ret toolResults
  | toolCall :: rest =>
      let* toolResults1 := executeToolCall registry toolResults toolCall in
      executeToolCalls registry toolResults1 rest
  end.

(** The messages pushed at the end of a tool turn that has brought the
    counter to [iterationCount]. *)
Definition summaryIfDue (max_iterations iterationCount : Z) (found : bool)
  : list AIMessage :=
  if (iterationCount =? max_iterations) && negb found then [summaryRequest]
  else if iterationCount =? max_iterations + 2 then [summaryRequest]
  else [].

(** The branch of the loop body taken when the model asked for tools. *)
Definition toolTurn (registry : list (string * Tool E)) (task : string)
    (max_iterations : Z) (s : LoopState) (response : Completion.t)
    (calls : list ToolCall) : M E LoopState :=
  let iterationCount1 := iterationCount s + 1 in
  let messages1 :=
    messages s ++ [AssistantMessage (Completion.content response) (Some calls)] in
  let* toolResults := executeToolCalls registry [] calls in
  let found := foundUserIdButNeedsList s || foundUserId task calls toolResults in
  ret {| messages := messages1 ++ (asMessage <$> toolResults)
                     ++ summaryIfDue max_iterations iterationCount1 found;
         iterationCount := iterationCount1;
         finalResponse := finalResponse s;
         foundUserIdButNeedsList := found |}.

(** The [while] of [execute].  [fuel] is the number of rounds this embedding
    is prepared to unfold; the loop itself stops on its condition or on
    [break], and [agentLoop_halts] shows that the budget plus two rounds are
    always enough. *)
Fixpoint agentLoop (fuel : nat) (service : AIService.t)
    (registry : list (string * Tool E)) (task : string) (max_iterations : Z)
    (s : LoopState) : M E LoopState :=
  if loopCondition max_iterations s then
    match fuel with
    | O => fun p => (OutOfFuel, p)
    | S fuel' =>
        let* response := AIService.generateResponse service (messages s) in
        match Completion.tool_calls response with
        | Some (toolCall :: others) =>
            let* s1 := toolTurn registry task max_iterations s response
                         (toolCall :: others) in
            agentLoop fuel' service registry task max_iterations s1
        | _ =>
            ret {| messages := messages s;
                   iterationCount := iterationCount s + 1;
                   finalResponse :=
                     default "OpenProject task completed with no specific results."
                       (Completion.content response);
                   foundUserIdButNeedsList := foundUserIdButNeedsList s |}
        end
    end
  else ret s.

(** The [if] after the loop: one more request when there is no text yet and
    the counter has reached the budget. *)
Definition finalRequest (service : AIService.t) (max_iterations : Z) (s : LoopState)
  : M E LoopState :=
  if String.eqb (finalResponse s) EmptyString && (max_iterations <=? iterationCount s) then
    let* finalResponseResult := AIService.generateResponse service (messages s) in
    ret {| messages := messages s;
           iterationCount := iterationCount s;
           finalResponse :=
             default "OpenProject task completed after maximum iterations."
               (Completion.content finalResponseResult);
           foundUserIdButNeedsList := foundUserIdButNeedsList s |}
  else ret s.

Definition initialMessages (task : string) (context : option string) : list AIMessage :=
  [UserMessage
     (UserText ("Please help me with this OpenProject task: " +:+ task +:+
                match context with
                | Some text =>
                    if String.eqb text EmptyString then EmptyString
                    else nl +:+ nl +:+ "Context: " +:+ text
                | None => EmptyString
                end))
     None].

(** The loop and the request after it, from the variables as [execute]
    initialises them. *)
Definition runAgent (fuel : nat) (service : AIService.t)
    (registry : list (string * Tool E)) (task : string) (context : option string)
    (max_iterations : Z) : M E LoopState :=
  let* s := agentLoop fuel service registry task max_iterations
              {| messages := initialMessages task context;
                 iterationCount := 0;
                 finalResponse := EmptyString;
                 foundUserIdButNeedsList := false |} in
  finalRequest service max_iterations s.

Definition resultText (registry : list (string * Tool E)) (s : LoopState) : string :=
  "**OpenProject Agent Results**" +:+ nl +:+ nl +:+ finalResponse s +:+ nl +:+ nl +:+
  "---" +:+ nl +:+ "*Task completed using " +:+ JS.ofNumber (getToolCount registry) +:+
  " specialized OpenProject tools in " +:+ JS.ofNumber (iterationCount s) +:+
  " iterations*".

Definition agentService (task : string) (context : option string) (max_iterations : Z)
    (registry : list (string * Tool E)) : AIService.t :=
  AIService.new
    {| AIService.cfg_modelName := config_modelName E;
       AIService.cfg_systemPrompt := openProjectSystemPrompt E task context max_iterations;
       AIService.cfg_maxTokens := None;
       AIService.cfg_customTools := Some (getToolDefinitions registry) |}
    [].

(** [openProjectAgentTool.execute] *)
Definition execute (fuel : nat) (options : OpenProjectAgentOptions) : M E string :=
  let task := task options in
  let context := context options in
  let max_iterations := default 5 (max_iterations options) in
  tryCatch
    (let openProjectRegistry := OpenProjectToolsRegistry.new E in
     let openProjectAI := agentService task context max_iterations openProjectRegistry in
     let* s := runAgent fuel openProjectAI openProjectRegistry task context max_iterations in
     ret (resultText openProjectRegistry s))
    (fun error =>
       ret ("OpenProject Agent encountered an error: " +:+ errorText error)).

Definition openProjectAgentTool (fuel : nat) : Tool E :=
  {| tool_name := "openproject_agent";
     tool_execute := fun args => execute fuel (asOpenProjectAgentOptions E args) |}.

End WithEnv.
End OpenProjectAgent.

(** ** The global registry (tools-registry.ts) *)
Module ToolsRegistry.

Definition new (E : Env) (fuel : nat) : list (string * Tool E) :=
  registerTool (OpenProjectAgent.openProjectAgentTool E fuel)
  (registerTool (externalTool "get_date_time" (dateTimeTool E)) []).

Definition executeTool {E} (tools : list (string * Tool E)) : string -> Json E -> M E string :=
  executeToolIn "Tool not found: " tools.

End ToolsRegistry.

(** ** The outer pipeline (events/message-handler.ts) *)
Module MessageHandler.

(** What [processUserMessage] returns: the text alone, or the text with the
    tool calls and results that led to it. *)
Inductive Response :=
| PlainResponse (content : string)
| ToolResponse (content : string) (toolCalls : list ToolCall)
    (toolResults : list ToolResult.t).

Definition responseContent (r : Response) : string :=
  match r with
  | PlainResponse c => c
  | ToolResponse c _ _ => c
  end.

(** [content.replace(new RegExp(`<@!?${clientId}>`, 'g'), '')], for a client
    id without regular-expression operators. *)
Fixpoint removeMentions (plain nick : string) (skip : nat) (s : string) : string :=
  match s with
  | EmptyString => EmptyString
  | String c rest =>
      match skip with
      | S k => removeMentions plain nick k rest
      | O =>
          if String.prefix plain s then
            removeMentions plain nick (String.length plain - 1) rest
          else if String.prefix nick s then
            removeMentions plain nick (String.length nick - 1) rest
          else String c (removeMentions plain nick 0 rest)
      end
  end.

Definition extractQueryFromMention (content clientId : string) : string :=
  JS.trim (removeMentions ("<@" +:+ clientId +:+ ">") ("<@!" +:+ clientId +:+ ">") 0 content).

Definition getErrorMessage (error : Thrown.t) : string :=
  let errorMessage := JS.toLowerCase (Thrown.message error) in
  if JS.includes errorMessage "credit limit exceeded" then
    "Sorry, I'm currently experiencing credit limitations. Please try again later."
  else if JS.includes errorMessage "rate limit exceeded" then
    "Sorry, I'm being rate limited. Please wait a moment and try again."
  else if JS.includes errorMessage "authentication failed" then
    "Sorry, there's a configuration issue with my AI service. Please contact the administrator."
  else if JS.includes errorMessage "temporarily unavailable" then
    "Sorry, the AI service is temporarily unavailable. Please try again later."
  else "Sorry, I encountered an error while processing your request.".

Definition noResponse : string := "I processed your request but have no response.".

Section WithEnv.
Variable E : Env.
Variable fuel : nat.

Definition outerService (message : Message.t) : AIService.t :=
  AIService.new
    {| AIService.cfg_modelName := config_modelName E;
       AIService.cfg_systemPrompt := outerSystemPrompt E message;
       AIService.cfg_maxTokens := None;
       AIService.cfg_customTools := None |}
    (getToolDefinitions (ToolsRegistry.new E fuel)).

Definition handleToolCalls (aiService : AIService.t) (aiMessages : list AIMessage)
    (response : Completion.t) (calls : list ToolCall) : M E Response :=
  let* toolResults :=
    AIService.processToolCalls (ToolsRegistry.executeTool (ToolsRegistry.new E fuel))
      (Some calls) in
  let toolMessages := AIService.createToolResultMessages toolResults in
  let* followUpResponse :=
    AIService.generateResponse aiService
      (aiMessages
       ++ [AssistantMessage (Completion.content response) (Completion.tool_calls response)]
       ++ toolMessages) in
  ret (ToolResponse
         (JS.orElse (Completion.content followUpResponse) noResponse)
         calls toolResults).

Definition processUserMessage (message : Message.t) (clientId : string) : M E Response :=
  let aiService := outerService message in
  let* recentMessages :=
    MessageUtils.fetchRecentMessages E (config_messageHistoryLimit E) in
  modifyLedger (ToolCallsStore.cleanupOldToolCalls recentMessages) ;;;
  let query := extractQueryFromMention (Message.content message) clientId in
  let* aiMessages := MessageUtils.convertToAIMessages E recentMessages query in
  let* response := AIService.generateResponse aiService aiMessages in
  match Completion.tool_calls response with
  | Some (call :: others) => handleToolCalls aiService aiMessages response (call :: others)
  | _ => ret (PlainResponse (JS.orElse (Completion.content response) noResponse))
  end.

Definition sendSplit (content : string) (replyMessage : Message.t)
  : M E (option Message.t) :=
  let* sent := ask (sendSplitMessage E content replyMessage) in
  match sent with
  | inl e => throw e
  | inr m => ret m
  end.

Definition sendResponse (message : Message.t) (response : Response) : M E unit :=
  let* sentMessage := sendSplit (responseContent response) message in
  match sentMessage, response with
  | Some sent, ToolResponse _ toolCalls toolResults =>
      modifyLedger (ToolCallsStore.storeToolCallsForMessage sent toolCalls toolResults)
  | _, _ => ret tt
  end.

(** The body of [handleMessage] once its early returns are passed; the
    typing indicator around it is left out. *)
Definition handleMessage (message : Message.t) (clientId : string) : M E unit :=
  tryCatch
    (let* response := processUserMessage message clientId in
     sendResponse message response)
    (fun error =>
       sendSplit (getErrorMessage error) message ;;;
       ret tt).

End WithEnv.
End MessageHandler.

(** ** Notions used to state the properties *)
Module Spec.

(** The source of an image segment carries the PNG media type. *)
Definition pngTagged (source : string) : bool :=
  JS.startsWith source "data:image/png;".

(** Every cached value is a data URL tagged with the type sniffed from the
    URL it is cached under; this holds of the empty cache the process starts
    with and is kept by [convertImageToBase64]. *)
Definition cacheWellFormed (c : list (string * string)) : Prop :=
  Forall
    (fun entry =>
       exists base64,
         entry.2 = MessageUtils.dataUrl (MessageUtils.sniffMimeType entry.1) base64)
    c.

(** How often an id occurs among the requests of an assistant turn. *)
Definition requestsWithId (id : string) (calls : list ToolCall) : nat :=
  length (filter (fun c => call_id c = id) calls).

Definition isRequest (ev : Event) : bool :=
  match ev with
  | Requested _ => true
  | Executed _ => false
  end.

Import OpenProjectAgent.

(** The variables after a tool turn that produced [toolResults]. *)
Definition afterToolTurn (task : string) (max_iterations : Z) (s : LoopState)
    (response : Completion.t) (calls : list ToolCall)
    (toolResults : list AgentToolResult) : LoopState :=
  let found := foundUserIdButNeedsList s || foundUserId task calls toolResults in
  {| messages :=
       (messages s ++ [AssistantMessage (Completion.content response) (Some calls)])
       ++ (asMessage <$> toolResults)
       ++ summaryIfDue max_iterations (iterationCount s + 1) found;
     iterationCount := iterationCount s + 1;
     finalResponse := finalResponse s;
     foundUserIdButNeedsList := found |}.

(** The ids of the function calls of a turn, in order. *)
Definition functionCallIds (calls : list ToolCall) : list string :=
  omap (fun c => match c with
                 | FunctionToolCall id _ _ => Some id
                 | CustomToolCall _ _ _ => None
                 end) calls.

Definition errorResult (id name : string) (error : Thrown.t) : AgentToolResult :=
  {| tool_call_id := id;
     content := "Error: Failed to execute " +:+ name +:+ ": " +:+ errorText error |}.

Section WithEnv.
Variable E : Env.

(** A computation that neither reads nor writes the ledger: started with
    another ledger it does the same and leaves that ledger in place. *)
Definition LedgerBlind {A} (m : M E A) : Prop :=
  forall (p : Proc E) l, m (set_ledger l p) = ((m p).1, set_ledger l (m p).2).

(** A computation whose final state is related to its initial state. *)
Definition Steps (R : Proc E -> Proc E -> Prop) {A} (m : M E A) : Prop :=
  forall p : Proc E, R p (m p).2.

Definition traceExtends (p p' : Proc E) : Prop :=
  exists t, trace p' = trace p ++ t.

Definition sameLedger (p p' : Proc E) : Prop :=
  ledger p' = ledger p.

(** A computation that only appends to the record of requests and tool
    executions. *)
Definition TraceGrows {A} (m : M E A) : Prop := Steps traceExtends m.

(** A computation that leaves the ledger as it found it. *)
Definition KeepsLedger {A} (m : M E A) : Prop := Steps sameLedger m.

(** A computation that ends with a value: it neither throws nor is cut
    short. *)
Definition Returns {A} (m : M E A) : Prop :=
  forall p : Proc E, exists a p', m p = (Ok a, p').

(** A computation that ends with a value or a thrown value. *)
Definition Halts {A} (m : M E A) : Prop :=
  forall p : Proc E, (m p).1 <> OutOfFuel.

(** An endpoint that answers every request with at least one tool call. *)
Definition alwaysRequestsTools : Prop :=
  forall req w, exists text call others w',
    chatCompletionsCreate E req w
    = (ApiChoices (Some {| Completion.content := text;
                           Completion.tool_calls := Some (call :: others) |}), w').

(** The number of completion requests on record. *)
Definition requestCount (p : Proc E) : nat :=
  length (List.filter isRequest (trace p)).


(** The state after a request: the request is on record and the world has
    moved. *)
Definition afterRequest (service : AIService.t) (messages : list AIMessage)
    (p : Proc E) : Proc E :=
  let req := AIService.request service messages in
  set_world (chatCompletionsCreate E req (world p)).2
    (set_trace (trace p ++ [Requested req]) p).

(** The guarded part of one round: parse, look up, execute. *)
Definition attempt (toolResults : list AgentToolResult) (id name argsString : string)
  : M E (list AgentToolResult) :=
  let* toolArgs := parseJson argsString in
  let* resultString := OpenProjectToolsRegistry.executeTool (OpenProjectToolsRegistry.new E) name toolArgs in
  ret (toolResults ++ [{| tool_call_id := id; content := resultString |}]).

(** The guarded part of one round of [processToolCalls]. *)
Definition outerAttempt (executeTool : string -> Json E -> M E string)
    (results : list ToolResult.t) (id name argsString : string)
  : M E (list ToolResult.t) :=
  let* args := parseJson argsString in
  let* resultString := executeTool name args in
  ret (results ++ [{| ToolResult.tool_call_id := id;
                      ToolResult.name := name;
                      ToolResult.content := resultString |}]).

Definition outerErrorResult (id name : string) : ToolResult.t :=
  {| ToolResult.tool_call_id := id;
     ToolResult.name := name;
     ToolResult.content := "Error: Failed to execute tool " +:+ name |}.

(** The steps of [processUserMessage] before its first request: fetch the
    window, clean the ledger up against it, assemble the history. *)
Definition assembleHistory (message : Message.t) (clientId : string)
  : M E (list AIMessage) :=
  let* recentMessages :=
    MessageUtils.fetchRecentMessages E (config_messageHistoryLimit E) in
  modifyLedger (ToolCallsStore.cleanupOldToolCalls recentMessages) ;;;
  MessageUtils.convertToAIMessages E recentMessages
    (MessageHandler.extractQueryFromMention (Message.content message) clientId).

End WithEnv.
End Spec.

(** ** What the program stores in the ledger *)
Module Stored.
Import ToolCallsStore.

(** The ids of the calls of an assistant turn are unique within the
    turn. *)
Definition uniqueIds (calls : list ToolCall) : Prop := NoDup (call_id <$> calls).

(** An entry as [sendResponse], the only writer of the ledger, stores it:
    the calls are those of one assistant turn, and the results are those
    [processToolCalls] returned for them, one for each function call and in
    the order of the calls. *)
Definition wellFormed (d : ToolCallData) : Prop :=
  ToolResult.tool_call_id <$> toolResults d = Spec.functionCallIds (toolCalls d)
  /\ uniqueIds (toolCalls d).

Definition ledgerWellFormed (store : Store) : Prop :=
  map_Forall (fun _ d => wellFormed d) store.

(** The contract of the endpoint on the ids of a turn. *)
Definition endpointIdsUnique (E : Env) : Prop :=
  forall request w completion w',
    chatCompletionsCreate E request w = (ApiChoices (Some completion), w') ->
    uniqueIds (default [] (Completion.tool_calls completion)).

(** A step that leaves a ledger of stored entries a ledger of stored
    entries. *)
Definition keepsWellFormed {E : Env} (p p' : Proc E) : Prop :=
  ledgerWellFormed (ledger p) -> ledgerWellFormed (ledger p').

End Stored.

(** ** Concrete worlds for the examples *)
Module Examples.

Definition message (id : string) (createdTimestamp : Z) (bot : bool) (content : string)
    (attachments : list Attachment.t) : Message.t :=
  {| Message.id := id;
     Message.createdTimestamp := createdTimestamp;
     Message.content := content;
     Message.author := {| Author.bot := bot;
                          Author.username := if bot then "arki" else "raj";
                          Author.displayName := if bot then "Arki" else "Raj" |};
     Message.member := None;
     Message.attachments := attachments;
     Message.embeds := [];
     Message.stickers := [];
     Message.poll := None;
     Message.reactions := [];
     Message.reference := None |}.

Definition image (url : string) (contentType : option string) : Attachment.t :=
  {| Attachment.name := "image";
     Attachment.size := 131072;
     Attachment.contentType := contentType;
     Attachment.description := None;
     Attachment.url := url;
     Attachment.height := Some 10;
     Attachment.width := Some 20 |}.

Definition asksFor (id name : string) (text : option string) : ApiReply :=
  ApiChoices (Some {| Completion.content := text;
                      Completion.tool_calls := Some [FunctionToolCall id name "{}"] |}).

Definition says (text : string) : ApiReply :=
  ApiChoices (Some {| Completion.content := Some text; Completion.tool_calls := None |}).

Definition failsWith (status : Z) : ApiReply :=
  ApiThrows {| Thrown.instanceofError := true;
               Thrown.status := Some status;
               Thrown.message := "upstream";
               Thrown.toString := "Error: upstream";
               Thrown.remaining_credits := None |}.

(** A world that counts the completion requests it has answered.  The
    endpoint follows [script] and then keeps giving [afterwards]; every
    argument string that opens a brace parses; images download as [download]
    says; the channel answers a fetch with [channel]. *)
Definition scripted (script : list ApiReply) (afterwards : ApiReply)
    (download : string -> option string) (channel : FetchReply)
    (search : ToolOutcome) : Env :=
  {| World := nat;
     Json := string;
     JSON_parse := fun s =>
       if String.prefix "{" s then inr s else inl "Unexpected token in JSON";
     chatCompletionsCreate := fun _ n => (nth n script afterwards, S n);
     fetchBase64 := fun url n => (download url, n);
     toLocaleString := fun z => pretty z;
     listProjectsTool := fun _ n => (Returned "No projects found in OpenProject.", n);
     createWorkPackageTool := fun _ n => (Returned "Created.", n);
     listWorkPackagesTool := fun _ n => (Returned "No work packages found.", n);
     assignUserTool := fun _ n => (Threw (newError "HTTP 404"), n);
     searchUsersTool := fun _ n => (search, n);
     getMetadataTool := fun _ n => (Returned "Statuses: New, Closed", n);
     dateTimeTool := fun _ n => (Returned "Friday, January 3, 2025", n);
     asOpenProjectAgentOptions := fun s =>
       {| task := s; context := None; max_iterations := Some 1 |};
     openProjectSystemPrompt := fun task _ _ => "You are an OpenProject Agent. Task: " +:+ task;
     outerSystemPrompt := fun _ => "You are Arki";
     config_modelName := "model";
     config_messageHistoryLimit := 20;
     getAnchorMessageId := fun n => (None, n);
     clearAnchorMessageId := fun n => n;
     channelFetch := fun _ _ n => (channel, n);
     sendSplitMessage := fun _ _ n =>
       (inr (Some (message "900" 5000 true "sent" [])), n) |}.

Definition start (E : Env) (w : World E)
    (ledger : gmap string ToolCallsStore.ToolCallData) : Proc E :=
  {| world := w; trace := []; ledger := ledger; imageCache := [] |}.

(** A quiet world: the endpoint only talks, downloads fail, the channel is
    empty. *)
Definition quiet : Env :=
  scripted [] (says "Hello.") (fun _ => None) (Fetched []) (Returned "No users found.").

(** A world in which images download. *)
Definition online : Env :=
  scripted [] (says "Hello.") (fun _ => Some "iVBORw0KGgo=") (Fetched [])
    (Returned "No users found.").

(** A reply of the bot and the tool call that led to it. *)
Definition botReply : Message.t := message "900" 5000 true "It is Friday." [].

Definition dateCall : ToolCall := FunctionToolCall "call_1" "get_date_time" "{}".

Definition dateResult : ToolResult.t :=
  {| ToolResult.tool_call_id := "call_1";
     ToolResult.name := "get_date_time";
     ToolResult.content := "Friday, January 3, 2025" |}.

Definition dateEntry : ToolCallsStore.ToolCallData :=
  {| ToolCallsStore.messageId := "900";
     ToolCallsStore.messageContent := "It is Friday.";
     ToolCallsStore.timestamp := 5000;
     ToolCallsStore.toolCalls := [dateCall];
     ToolCallsStore.toolResults := [dateResult] |}.

Definition dateLedger : gmap string ToolCallsStore.ToolCallData :=
  ToolCallsStore.storeToolCallsForMessage botReply [dateCall] [dateResult] ∅.

(** The same reply as the channel gives it back later, its creation time
    resolved one millisecond off. *)
Definition botReplyDrifted : Message.t := message "900" 5001 true "It is Friday." [].

(** A budget of one, against an endpoint that asks for a tool twice and
    would give its summary on the third request. *)
Definition slowSummary : Env :=
  scripted [asksFor "c1" "list_projects" None; asksFor "c2" "list_projects" None]
    (says "Summary: no projects.") (fun _ => None) (Fetched [])
    (Returned "No users found.").

Definition budgetOfOne : OpenProjectAgentOptions :=
  {| task := "show projects"; context := None; max_iterations := Some 1 |}.

(** An endpoint that asks for a tool on every request. *)
Definition insatiable : Env :=
  scripted [] (asksFor "c" "list_projects" None) (fun _ => None) (Fetched [])
    (Returned "No users found.").

(** An endpoint that is rate limited. *)
Definition rateLimited : Env :=
  scripted [] (failsWith 429) (fun _ => None) (Fetched []) (Returned "No users found.").

(** A channel whose fetch throws. *)
Definition unreachable : Env :=
  scripted [] (says "Hello.") (fun _ => None) (FetchThrows false (newError "network"))
    (Returned "No users found.").

Definition initialState (options : OpenProjectAgentOptions) : OpenProjectAgent.LoopState :=
  {| OpenProjectAgent.messages :=
       OpenProjectAgent.initialMessages (task options) (context options);
     OpenProjectAgent.iterationCount := 0;
     OpenProjectAgent.finalResponse := EmptyString;
     OpenProjectAgent.foundUserIdButNeedsList := false |}.

Definition serviceFor (E : Env) (options : OpenProjectAgentOptions) : AIService.t :=
  OpenProjectAgent.agentService E (task options) (context options)
    (default 5 (max_iterations options)) (OpenProjectToolsRegistry.new E).

End Examples.

(** ** Predicates on the characters of a string *)
Module Text.

Fixpoint allChars (P : ascii -> bool) (s : string) : bool :=
  match s with
  | EmptyString => true
  | String c rest => P c && allChars P rest
  end.

End Text.

(** ** Delivery to Discord (message-utils.ts, [sendSplitMessage]) *)
Module Delivery.

(** [content.split('\n')] *)
Fixpoint splitLines (s : string) : list string :=
  match s with
  | EmptyString => [EmptyString]
  | String c rest =>
      if Ascii.eqb c "010" then EmptyString :: splitLines rest
      else
        match splitLines rest with
        | line :: lines => String c line :: lines
        | [] => [String c EmptyString]
        end
  end.

(** [s.substring(n)] *)
Fixpoint substringFrom (n : nat) (s : string) : string :=
  match n, s with
  | O, _ => s
  | S n', String _ rest => substringFrom n' rest
  | S _, EmptyString => EmptyString
  end.

(** The inner [while] of [splitContent], which cuts a line that is longer
    than a message into pieces.  It runs for ever when [maxLength] is zero
    and the line is not empty; [None] stands for that, and the rounds it is
    granted here, one per character of the line, suffice otherwise. *)
Fixpoint cutLongLine (rounds maxLength : nat) (parts : list string) (currentPart : string)
  : option (list string * string) :=
  if (maxLength <? String.length currentPart)%nat then
    match rounds with
    | O => None
    | S rounds' =>
        cutLongLine rounds' maxLength
          (parts ++ [JS.substring0 maxLength currentPart])
          (substringFrom maxLength currentPart)
    end
  else Some (parts, currentPart).

(** [if (currentPart.length > 0) parts.push(currentPart)] *)
Definition pushNonEmpty (parts : list string) (currentPart : string) : list string :=
  if (0 <? String.length currentPart)%nat then parts ++ [currentPart] else parts.

(** One round of the [for] of [splitContent], on the variables [parts] and
    [currentPart]. *)
Definition splitStep (maxLength : nat) (state : list string * string) (line : string)
  : option (list string * string) :=
  let '(parts, currentPart) := state in
  if (maxLength <? String.length currentPart + String.length line + 1)%nat then
    cutLongLine (String.length line) maxLength (pushNonEmpty parts currentPart) line
  else
    Some (parts,
          (if (0 <? String.length currentPart)%nat then currentPart +:+ nl else currentPart)
          +:+ line).

Fixpoint splitLoop (maxLength : nat) (state : list string * string) (lines : list string)
  : option (list string * string) :=
  match lines with
  | [] => Some state
  | line :: rest =>
      match splitStep maxLength state line with
      | Some state1 => splitLoop maxLength state1 rest
      | None => None
      end
  end.

Definition splitContent (content : string) (maxLength : nat) : option (list string) :=
  match splitLoop maxLength ([], EmptyString) (splitLines content) with
  | Some (parts, currentPart) =>
      Some match pushNonEmpty parts currentPart with
           | [] => [JS.substring0 maxLength content]
           | parts1 => parts1
           end
  | None => None
  end.

Definition MAX_LENGTH : nat := 1990.

Definition nothingToSay : string :=
  "I processed your request but have no specific response.".

(** [!text?.trim()] *)
Definition blank (text : string) : bool := String.eqb (JS.trim text) EmptyString.

(** The characters of a text other than its line breaks, and the parts of a
    split put back end to end; used to say what a split keeps. *)
Fixpoint withoutNewlines (s : string) : string :=
  match s with
  | EmptyString => EmptyString
  | String c rest =>
      if Ascii.eqb c "010" then withoutNewlines rest else String c (withoutNewlines rest)
  end.

Definition joined (parts : list string) : string := foldr String.append EmptyString parts.

(** What the variables of the loop of [splitContent] keep: every finished
    part is within the limit and not empty, and the part being filled is
    within the limit. *)
Definition fits (maxLength : nat) (state : list string * string) : Prop :=
  Forall (fun part => (1 <= String.length part <= maxLength)%nat) state.1
  /\ (String.length state.2 <= maxLength)%nat.

Definition textOf (state : list string * string) : string :=
  withoutNewlines (joined state.1 +:+ state.2).

(** A text Discord would take: not blank and within [MAX_LENGTH]. *)
Definition deliverable (text : string) : bool :=
  negb (blank text) && (String.length text <=? MAX_LENGTH)%nat.

(** A channel that refuses what is not [deliverable]. *)
Definition refusal : Thrown.t := newError "Invalid Form Body".

Definition strictReply {W} (reply : string -> Message.t -> W -> (Thrown.t + Message.t) * W)
    (text : string) (replyMessage : Message.t) (w : W) : (Thrown.t + Message.t) * W :=
  if deliverable text then reply text replyMessage w else (inl refusal, w).

Definition strictSend {W} (send : string -> W -> (Thrown.t + Message.t) * W)
    (text : string) (w : W) : (Thrown.t + Message.t) * W :=
  if deliverable text then send text w else (inl refusal, w).

Section WithEnv.
Variable E : Env.
(** [replyMessage.reply(text)] and [channel.send(text)]: the message Discord
    created, or a thrown value. *)
Variable reply : string -> Message.t -> World E -> (Thrown.t + Message.t) * World E.
Variable send : string -> World E -> (Thrown.t + Message.t) * World E.

Definition replyTo (replyMessage : Message.t) (text : string) : M E Message.t :=
  let* sent := ask (reply text replyMessage) in
  match sent with
  | inl e => throw e
  | inr m => ret m
  end.

Definition channelSend (text : string) : M E unit :=
  let* sent := ask (send text) in
  match sent with
  | inl e => throw e
  | inr _ => ret tt
  end.

(** [for (const part of parts) if (part?.trim()) await channel.send(part)] *)
Fixpoint sendRemaining (parts : list string) : M E unit :=
  match parts with
  | [] => ret tt
  | part :: rest =>
      (if blank part then ret tt else channelSend part) ;;;
      sendRemaining rest
  end.

Definition sendSplitMessage (content : string) (replyMessage : Message.t)
  : M E (option Message.t) :=
  if blank content then
    let* sent := replyTo replyMessage nothingToSay in
    ret (Some sent)
  else if (String.length content <=? MAX_LENGTH)%nat then
    let* sent := replyTo replyMessage content in
    ret (Some sent)
  else
    match splitContent content MAX_LENGTH with
    | None => fun p => (OutOfFuel, p)
    | Some parts =>
        let* firstSentMessage :=
          match head parts with
          | Some firstPart =>
              if blank firstPart then ret None
              else
                let* sent := replyTo replyMessage firstPart in
                ret (Some sent)
          | None => ret None
          end in
        sendRemaining (tail parts) ;;;
        ret firstSentMessage
    end.

End WithEnv.
End Delivery.
(** ** Permissions (utils/permissions.ts) *)
Module Permissions.

(** [GuildPermissions], as the JSON file may give it: either list can be
    missing. *)
Record GuildPermissions := {
  allowedUsers : option (list string);
  allowedRoles : option (list string)
}.

(** [GuildMember]: the user id and the names of the roles in the cache. *)
Record GuildMember := {
  member_id : string;
  roles : list string
}.

(** What the entry of the handler reads of an incoming message besides the
    message itself. *)
Record Incoming := {
  message : Message.t;
  guild : option string;             (* guild.id *)
  member : option GuildMember;
  inTextChannel : bool;              (* message.channel instanceof TextChannel *)
  mentions : list string             (* the keys of message.mentions.users *)
}.

(** [list.includes(x)] *)
Definition includes (l : list string) (x : string) : bool := existsb (String.eqb x) l.

(** [isUserAllowed]; [guildPermissions] is [config.guildPermissions]. *)
Definition isUserAllowed (guildPermissions : gmap string GuildPermissions)
    (incoming : Incoming) : bool :=
  match guild incoming, member incoming with
  | Some guildId, Some guildMember =>
      match guildPermissions !! guildId with
      | None => false
      | Some permissions =>
          if match allowedUsers permissions with
             | Some users => includes users (member_id guildMember)
             | None => false
             end
          then true
          else
            match allowedRoles permissions with
            | Some (role :: others) =>
                existsb (fun name => includes (role :: others) name) (roles guildMember)
            | _ => false
            end
      end
  | _, _ => false
  end.

(** [isBotMentioned] *)
Definition isBotMentioned (incoming : Incoming) (clientId : string) : bool :=
  includes (mentions incoming) clientId.

End Permissions.

(** ** The entry of the handler (events/message-handler.ts, [handleMessage]) *)
Module Entry.
Import Permissions.

Definition denied : string := "You do not have permission to use this bot.".

Section WithEnv.
Variable E : Env.
Variable fuel : nat.
Variable guildPermissions : gmap string GuildPermissions.
Variable reply : string -> Message.t -> World E -> (Thrown.t + Message.t) * World E.

(** [handleMessage] with its early returns; [clientUserId] is
    [client.user?.id].  What follows the early returns is
    [MessageHandler.handleMessage]. *)
Definition handleMessage (incoming : Incoming) (clientUserId : option string)
  : M E unit :=
  let message := Permissions.message incoming in
  if Author.bot (Message.author message) then ret tt
  else if negb (inTextChannel incoming) then ret tt
  else
    match clientUserId with
    | None => ret tt
    | Some clientId =>
        if String.eqb clientId EmptyString then ret tt
        else if negb (isBotMentioned incoming clientId) then ret tt
        else if negb (isUserAllowed guildPermissions incoming) then
          Delivery.replyTo E reply message denied ;;;
          ret tt
        else MessageHandler.handleMessage E fuel message clientId
    end.

End WithEnv.
End Entry.

(** ** The anchor file (utils/anchorMessageUtils.ts) *)
Module AnchorMessageUtils.

(** A value that [JSON.parse] returns.  The interface
    [AnchorMessagesConfig] is a compile-time type only: what
    [readAnchorMessages] returns is whatever the text of the file parses
    to. *)
#[warnings="-register-all"]
Inductive JsonValue :=
| JNull
| JBool (b : bool)
| JNumber (x : PrimFloat.float)
| JString (s : string)
| JArray (items : list JsonValue)
| JObject (fields : gmap string JsonValue).

(** A value of the declared type: an object from channel ids to message
    ids. *)
Definition configOf (anchors : gmap string string) : JsonValue :=
  JObject (JString <$> anchors).

(** [{}] *)
Definition emptyConfig : JsonValue := JObject ∅.

(** What [JSON.parse] makes of the text that [JSON.stringify] writes for a
    value: an infinite number is written as [null], a negative zero as [0],
    everything else reads back as it was. *)
Fixpoint reparse (v : JsonValue) : JsonValue :=
  match v with
  | JNumber x =>
      if PrimFloat.is_infinity x || PrimFloat.is_nan x then JNull
      else if PrimFloat.is_zero x then JNumber PrimFloat.zero
      else JNumber x
  | JArray items => JArray (reparse <$> items)
  | JObject fields => JObject (reparse <$> fields)
  | _ => v
  end.

(** The test of [if (config[channelId])]; [None] is [undefined]. *)
Definition truthy (v : option JsonValue) : bool :=
  match v with
  | None => false
  | Some JNull => false
  | Some (JBool b) => b
  | Some (JNumber x) => negb (PrimFloat.is_zero x || PrimFloat.is_nan x)
  | Some (JString s) => negb (String.eqb s EmptyString)
  | Some (JArray _) => true
  | Some (JObject _) => true
  end.

(** Channel ids are Discord snowflakes: strings of decimal digits, not
    empty.  The three property operations below are those of JavaScript for
    such keys: a key of digits names no property that an object, an array,
    a string or a number inherits, so only own properties and the elements
    of arrays and strings are in play. *)
Definition isDigit (c : ascii) : bool :=
  (48 <=? nat_of_ascii c)%nat && (nat_of_ascii c <=? 57)%nat.

Definition snowflake (s : string) : bool :=
  negb (String.eqb s EmptyString) && Text.allChars isDigit s.

Fixpoint decimal (acc : N) (s : string) : N :=
  match s with
  | EmptyString => acc
  | String c rest => decimal (acc * 10 + (N_of_ascii c - 48)) rest
  end.

(** The integer a key is the decimal numeral of; a numeral has no leading
    zero. *)
Definition integerIndex (key : string) : option N :=
  match key with
  | EmptyString => None
  | String "0" EmptyString => Some 0%N
  | String "0" _ => None
  | _ => if Text.allChars isDigit key then Some (decimal 0 key) else None
  end.

(** The character a key names in a string of [size] characters, if any. *)
Definition characterIndex (size : nat) (key : string) : option nat :=
  match integerIndex key with
  | Some i => if (i <? N.of_nat size)%N then Some (N.to_nat i) else None
  | None => None
  end.

(** The array index a key names, if any: an array index is below
    [2^32 - 1]. *)
Definition arrayIndexLimit : N := 4294967295.

Definition arrayIndex (key : string) : option nat :=
  match integerIndex key with
  | Some i => if (i <? arrayIndexLimit)%N then Some (N.to_nat i) else None
  | None => None
  end.

(** How the three functions end: normally, or with a [TypeError] that
    nothing in the module catches. *)
Inductive Outcome (A : Type) :=
| Done (a : A)
| TypeError.
Arguments Done {A} a.
Arguments TypeError {A}.

(** [config[key]].  Reading a property of [null] throws; a boolean and a
    number have no such property; a string has its characters, an array its
    elements, an object its own properties. *)
Definition getProperty (config : JsonValue) (key : string) : Outcome (option JsonValue) :=
  match config with
  | JNull => TypeError
  | JBool _ => Done None
  | JNumber _ => Done None
  | JString s =>
      Done (match characterIndex (String.length s) key with
            | Some i => (fun c => JString (String c EmptyString)) <$> String.get i s
            | None => None
            end)
  | JArray items =>
      Done (match arrayIndex key with
            | Some i => items !! i
            | None => None
            end)
  | JObject fields => Done (fields !! key)
  end.

(** [config[key] = value], in the strict mode of a module, as
    [JSON.stringify] then sees [config].  Assigning to a property of [null]
    or of a primitive value throws.  On an array an index inside the array
    replaces the element, an index beyond its end lengthens the array, the
    holes being written as [null]; a key that is no array index becomes a
    property that [JSON.stringify] leaves out. *)
Definition setProperty (config : JsonValue) (key : string) (value : JsonValue)
  : Outcome JsonValue :=
  match config with
  | JNull => TypeError
  | JBool _ => TypeError
  | JNumber _ => TypeError
  | JString _ => TypeError
  | JArray items =>
      Done (match arrayIndex key with
            | Some i =>
                if (i <? length items)%nat then JArray (<[i := value]> items)
                else JArray (items ++ replicate (i - length items) JNull ++ [value])
            | None => JArray items
            end)
  | JObject fields => Done (JObject (<[key := value]> fields))
  end.

(** [delete config[key]], in strict mode, as [JSON.stringify] then sees
    [config].  A character of a string cannot be deleted; a deleted element
    of an array leaves a hole, written as [null]. *)
Definition deleteProperty (config : JsonValue) (key : string) : Outcome JsonValue :=
  match config with
  | JNull => TypeError
  | JBool _ => Done config
  | JNumber _ => Done config
  | JString s =>
      match characterIndex (String.length s) key with
      | Some _ => TypeError
      | None => Done config
      end
  | JArray items =>
      Done (match arrayIndex key with
            | Some i => JArray (<[i := JNull]> items)
            | None => JArray items
            end)
  | JObject fields => Done (JObject (delete key fields))
  end.

(** The text of the file, by what [readAnchorMessages] makes of it: blank
    after [trim], a JSON text with the value it parses to, or something that
    [fs.readFile] or [JSON.parse] throws on. *)
Inductive Content :=
| Blank
| Json (value : JsonValue)
| Unreadable.

(** The file, by what [fs.access] says of it. *)
Inductive File :=
| Missing                              (* ENOENT *)
| Inaccessible                         (* any other error *)
| Present (content : Content).

(** The part of the file system the module works on; [writable] says
    whether [fs.writeFile] succeeds. *)
Record Disk := {
  file : File;
  writable : bool
}.

(** [writeAnchorMessages]: a failure of [fs.writeFile] is logged and
    swallowed.  The text written is [JSON.stringify(config, null, 2)]. *)
Definition writeAnchorMessages (config : JsonValue) (disk : Disk) : Disk :=
  if writable disk then {| file := Present (Json (reparse config)); writable := true |}
  else disk.

(** [readAnchorMessages]: it catches what the file system and [JSON.parse]
    throw, and returns the parsed value unchecked. *)
Definition readAnchorMessages (disk : Disk) : JsonValue * Disk :=
  match file disk with
  | Missing => (emptyConfig, writeAnchorMessages emptyConfig disk)
  | Inaccessible => (emptyConfig, disk)
  | Present Blank => (emptyConfig, disk)
  | Present (Json value) => (value, disk)
  | Present Unreadable => (emptyConfig, disk)
  end.

(** [getAnchorMessageId] *)
Definition getAnchorMessageId (channelId : string) (disk : Disk)
  : Outcome (option JsonValue) * Disk :=
  let '(config, disk1) := readAnchorMessages disk in
  (getProperty config channelId, disk1).

(** [setAnchorMessageId] *)
Definition setAnchorMessageId (channelId messageId : string) (disk : Disk)
  : Outcome unit * Disk :=
  let '(config, disk1) := readAnchorMessages disk in
  match setProperty config channelId (JString messageId) with
  | Done config1 => (Done tt, writeAnchorMessages config1 disk1)
  | TypeError => (TypeError, disk1)
  end.

(** [clearAnchorMessageId] *)
Definition clearAnchorMessageId (channelId : string) (disk : Disk)
  : Outcome unit * Disk :=
  let '(config, disk1) := readAnchorMessages disk in
  match getProperty config channelId with
  | Done value =>
      if truthy value then
        match deleteProperty config channelId with
        | Done config1 => (Done tt, writeAnchorMessages config1 disk1)
        | TypeError => (TypeError, disk1)
        end
      else (Done tt, disk1)
  | TypeError => (TypeError, disk1)
  end.

(** A file of the declared type, or one that reads as the empty
    configuration: the file is missing, cannot be accessed, is blank, does
    not parse, or holds an object from channel ids to message ids. *)
Definition typed (disk : Disk) : Prop :=
  match file disk with
  | Present (Json value) => exists anchors, value = configOf anchors
  | _ => True
  end.

End AnchorMessageUtils.

(** ** Date filters of work packages
       (openproject-agent/tools/list-work-packages-tool.ts, api-client.ts) *)
Module DateFilters.

(** [s.split(sep)] for a separator that is not empty: [current] holds the
    characters of the piece being read, and [skip] counts the characters of a
    separator still to be passed over. *)
Fixpoint splitFrom (sep : string) (skip : nat) (current : string) (s : string)
  : list string :=
  match s with
  | EmptyString => [current]
  | String c rest =>
      match skip with
      | S k => splitFrom sep k current rest
      | O =>
          if String.prefix sep s then
            current :: splitFrom sep (String.length sep - 1) EmptyString rest
          else splitFrom sep 0 (current +:+ String c EmptyString) rest
      end
  end.

Definition split (sep s : string) : list string := splitFrom sep 0 EmptyString s.

(** The value the tool gives a date filter from its two parameters, each
    absent, empty or a date; [startOfDay] and [endOfDay] are what the tool
    appends to the dates: [T00:00:00Z] and [T23:59:59Z] for the creation and
    update times, nothing for the start and due dates. *)
Definition dateFilter (startOfDay endOfDay : string) (after before : option string)
  : option string :=
  if JS.truthy after && JS.truthy before then
    Some ("<>d:" +:+ default EmptyString after +:+ startOfDay +:+ ","
          +:+ default EmptyString before +:+ endOfDay)
  else if JS.truthy after then
    Some (">=" +:+ default EmptyString after +:+ startOfDay)
  else if JS.truthy before then
    Some ("<" +:+ default EmptyString before +:+ endOfDay)
  else None.

(** An element of the [filterArray] of [buildFilterQuery]. *)
Record Filter := {
  filter_key : string;
  operator : string;
  values : list string
}.

Section WithRegExp.
(** The match of the regular expression that [buildFilterQuery] keeps for
    values of an older format, giving its two groups. *)
Variable legacyRange : string -> option (string * string).

(** What [buildFilterQuery] pushes for one of the keys [createdAt],
    [updatedAt], [startDate], [dueDate] with a string value. *)
Definition dateFilterFor (key stringValue : string) : list Filter :=
  if JS.includes stringValue "<>d:" then
    match split "<>d:" stringValue with
    | [_; range] =>
        if String.eqb range EmptyString then []
        else
          match split "," range with
          | startDate :: endDate :: _ =>
              if negb (String.eqb startDate EmptyString)
                 && negb (String.eqb endDate EmptyString)
              then [{| filter_key := key; operator := "<>d";
                       values := [startDate; endDate] |}]
              else []
          | _ => []
          end
    | _ => []
    end
  else if JS.includes stringValue ">=" && JS.includes stringValue "<" then
    match legacyRange stringValue with
    | Some (startDate, endDate) =>
        [{| filter_key := key; operator := "<>d";
            values := [startDate +:+ "T00:00:00Z"; endDate +:+ "T23:59:59Z"] |}]
    | None => []
    end
  else if JS.startsWith stringValue ">=" then
    [{| filter_key := key; operator := ">=";
        values := [Delivery.substringFrom 2 stringValue] |}]
  else if JS.startsWith stringValue "<" then
    [{| filter_key := key; operator := "<";
        values := [Delivery.substringFrom 1 stringValue] |}]
  else
    [{| filter_key := key; operator := "=d"; values := [stringValue] |}].

End WithRegExp.

(** A text free of the characters the encoding uses, and a date as the
    tool expects one: such a text that is not empty. *)
Definition plainChar (c : ascii) : bool :=
  negb (Ascii.eqb c "<") && negb (Ascii.eqb c ">") && negb (Ascii.eqb c ",").

Definition plainText (s : string) : Prop := Text.allChars plainChar s = true.

Definition plainDate (date : string) : Prop := date <> EmptyString /\ plainText date.

End DateFilters.

(** ** Registries built by registration *)
Module Registry.

(** The constructors of both registries: the tools registered one after
    the other into an empty map. *)
Definition registerAll {E} (tools : list (Tool E)) : list (string * Tool E) :=
  foldl (fun registry tool => registerTool tool registry) [] tools.

End Registry.

(** ** Further notions used to state properties *)
Module Shape.

(** The class [[a-zA-Z0-9_-]] of the regular expression in [cleanName]. *)
Definition nameCharAllowed (c : ascii) : bool :=
  let n := N_of_ascii c in
  (((97 <=? n) && (n <=? 122)) || ((65 <=? n) && (n <=? 90)) ||
   ((48 <=? n) && (n <=? 57)) || (n =? 95) || (n =? 45))%N.

(** A [name] the completion endpoint takes: at most 64 characters of the
    class above. *)
Definition validName (name : string) : Prop :=
  (String.length name <= 64)%nat /\ Text.allChars nameCharAllowed name = true.

(** The image cache within its bound, with no entry under the empty URL. *)
Definition cacheBounded (c : list (string * string)) : Prop :=
  (length c <= 100)%nat /\ Forall (fun entry => entry.1 <> EmptyString) c.

(** The [name] of a user turn. *)
Definition userName (m : AIMessage) : option string :=
  match m with
  | UserMessage _ name => name
  | _ => None
  end.

(** The turn that [convertToAIMessages] appends for the query. *)
Definition queryTurn (query : string) : list AIMessage :=
  if String.eqb (JS.trim query) EmptyString then []
  else [UserMessage (UserText (JS.trim query)) None].

Section WithEnv.
Variable E : Env.

(** A computation that leaves the record of requests and tool executions
    as it found it. *)
Definition sameTrace (p p' : Proc E) : Prop := trace p' = trace p.

Definition Quiet {A} (m : M E A) : Prop := Spec.Steps E sameTrace m.

(** A computation that keeps the image cache within its bound. *)
Definition keepsCacheBounded (p p' : Proc E) : Prop :=
  cacheBounded (imageCache p) -> cacheBounded (imageCache p').

(** A computation that makes no completion request. *)
Definition sameRequests (p p' : Proc E) : Prop :=
  Spec.requestCount E p' = Spec.requestCount E p.

(** What the nested agent may ask of the world: a completion request that
    offers the tools of its own registry, or the execution of one of them. *)
Definition nestedEvent (ev : Event) : Prop :=
  match ev with
  | Requested req =>
      ChatRequest.tools req = Some (getToolDefinitions (OpenProjectToolsRegistry.new E))
  | Executed name => name ∈ getToolNames (OpenProjectToolsRegistry.new E)
  end.

Definition onlyNestedEvents (p p' : Proc E) : Prop :=
  exists t, trace p' = trace p ++ t /\ Forall nestedEvent t.

End WithEnv.
End Shape.
(** ** More concrete worlds and inputs *)
Module Cases.
Import Examples.

(** A text of five lines, one of them longer than seven characters. *)
Definition fiveLines : string :=
  "abc" +:+ nl +:+ "defgh" +:+ nl +:+ nl +:+ "ijklmnopqrstuvwxyz" +:+ nl +:+ "z".

Definition fiveLinesSplit : list string :=
  ["abc"; "defgh" +:+ nl; "ijklmno"; "pqrstuv"; "wxyz" +:+ nl +:+ "z"].

(** A question of a user, and the window that holds it and the bot's reply. *)
Definition question : Message.t := message "101" 4000 false "<@1> what day is it?" [].

Definition exchange : list Message.t := [question; botReply].

(** A message with a picture and one with a document. *)
Definition picture : Attachment.t := image "https://cdn.example/a.png" (Some "image/png").

Definition document : Attachment.t :=
  {| Attachment.name := "plan.pdf";
     Attachment.size := 5000000;
     Attachment.contentType := Some "application/pdf";
     Attachment.description := None;
     Attachment.url := "https://cdn.example/plan.pdf";
     Attachment.height := None;
     Attachment.width := None |}.

Definition withPicture : Message.t := message "103" 6000 false "look" [picture; document].

(** A channel with an anchor.  The anchored fetch fails with the
    unknown-message error, the plain fetch gives [exchange] newest first.
    The world is the anchor the channel has. *)
Definition unknownMessage : Thrown.t := newError "Unknown Message".

Definition rateLimitError : Thrown.t :=
  newError "AI service rate limit exceeded. Please try again later.".

Definition anchoredChannel : Env :=
  {| World := option string;
     Json := string;
     JSON_parse := fun s =>
       if String.prefix "{" s then inr s else inl "Unexpected token in JSON";
     chatCompletionsCreate := fun _ anchor => (says "Hello.", anchor);
     fetchBase64 := fun _ anchor => (None, anchor);
     toLocaleString := fun z => pretty z;
     listProjectsTool := fun _ anchor => (Returned "No projects found in OpenProject.", anchor);
     createWorkPackageTool := fun _ anchor => (Returned "Created.", anchor);
     listWorkPackagesTool := fun _ anchor => (Returned "No work packages found.", anchor);
     assignUserTool := fun _ anchor => (Threw (newError "HTTP 404"), anchor);
     searchUsersTool := fun _ anchor => (Returned "No users found.", anchor);
     getMetadataTool := fun _ anchor => (Returned "Statuses: New, Closed", anchor);
     dateTimeTool := fun _ anchor => (Returned "Friday, January 3, 2025", anchor);
     asOpenProjectAgentOptions := fun s =>
       {| task := s; context := None; max_iterations := Some 1 |};
     openProjectSystemPrompt := fun task _ _ => "You are an OpenProject Agent. Task: " +:+ task;
     outerSystemPrompt := fun _ => "You are Arki";
     config_modelName := "model";
     config_messageHistoryLimit := 20;
     getAnchorMessageId := fun anchor => (anchor, anchor);
     clearAnchorMessageId := fun _ => None;
     channelFetch := fun _ after anchor =>
       match after with
       | Some _ => (FetchThrows true unknownMessage, anchor)
       | None => (Fetched (rev exchange), anchor)
       end;
     sendSplitMessage := fun _ _ anchor =>
       (inr (Some (message "900" 5000 true "sent" [])), anchor) |}.

(** An anchor file on a disk: one channel with its anchor; a file that does
    not parse on a disk that cannot be written; a file that holds [null];
    a file that holds the empty array. *)
Definition channelId : string := "1098765432101234567".

Definition anchoredDisk : AnchorMessageUtils.Disk :=
  {| AnchorMessageUtils.file :=
       AnchorMessageUtils.Present
         (AnchorMessageUtils.Json (AnchorMessageUtils.configOf {[ channelId := "555" ]}));
     AnchorMessageUtils.writable := true |}.

Definition readOnlyDisk : AnchorMessageUtils.Disk :=
  {| AnchorMessageUtils.file := AnchorMessageUtils.Present AnchorMessageUtils.Unreadable;
     AnchorMessageUtils.writable := false |}.

Definition nullDisk : AnchorMessageUtils.Disk :=
  {| AnchorMessageUtils.file :=
       AnchorMessageUtils.Present (AnchorMessageUtils.Json AnchorMessageUtils.JNull);
     AnchorMessageUtils.writable := true |}.

Definition arrayDisk : AnchorMessageUtils.Disk :=
  {| AnchorMessageUtils.file :=
       AnchorMessageUtils.Present
         (AnchorMessageUtils.Json (AnchorMessageUtils.JArray []));
     AnchorMessageUtils.writable := true |}.

(** A task that names no listing. *)
Definition assignment : OpenProjectAgentOptions :=
  {| task := "assign task 12 to Sarah"; context := None; max_iterations := Some 2 |}.

(** Permissions of one guild, a member with a role that is allowed, and the
    member's message to the bot. *)
Definition permissions : gmap string Permissions.GuildPermissions :=
  {[ "77" := {| Permissions.allowedUsers := Some ["5"];
                Permissions.allowedRoles := Some ["staff"] |} ]}.

Definition incoming : Permissions.Incoming :=
  {| Permissions.message := question;
     Permissions.guild := Some "77";
     Permissions.member := Some {| Permissions.member_id := "9";
                                   Permissions.roles := ["guest"; "staff"] |};
     Permissions.inTextChannel := true;
     Permissions.mentions := ["1"] |}.

(** A channel that takes every reply. *)
Definition accepts (text : string) (replyMessage : Message.t) (n : nat)
  : (Thrown.t + Message.t) * nat :=
  (inr (message "901" 5000 true text []), n).

End Cases.

(** * Properties *)

(** ** The ledger *)
Module LedgerFacts.
Import ToolCallsStore.

(** What the cleanup loop has done to one key after running over the keys
    in [l]: a key of [l] that tested stale is gone, everything else is as
    before. *)
Lemma cleanup_loop_lookup (keys ids : gset string) (l : list string)
    (store : gmap string ToolCallData) (k : string) :
  foldl (cleanupStep keys ids) store l !! k
  = if bool_decide (k ∈ l) && stale keys ids k (store !! k) then None else store !! k.
Proof.
  revert store. induction l as [|key l IH]; intros store; cbn [foldl].
  - rewrite bool_decide_eq_false_2; [done | apply not_elem_of_nil].
  - rewrite IH. unfold cleanupStep.
    destruct (decide (k = key)) as [->|Hne].
    + rewrite (bool_decide_eq_true_2 (key ∈ key :: l)); [|left]. simpl.
      destruct (stale keys ids key (store !! key)) eqn:Hst.
      * rewrite lookup_delete_eq. by destruct (_ && _).
      * rewrite Hst. by rewrite andb_false_r.
    + assert (bool_decide (k ∈ key :: l) = bool_decide (k ∈ l)) as ->.
      { apply bool_decide_ext. rewrite elem_of_cons.
        split; [intros [?|?]; [congruence|done] | by right]. }
      destruct (stale keys ids key (store !! key)); [|done].
      by rewrite lookup_delete_ne.
Qed.

(** The cleanup, key by key. *)
Lemma cleanup_lookup (recentMessages : list Message.t)
    (store : gmap string ToolCallData) (k : string) :
  cleanupOldToolCalls recentMessages store !! k
  = match store !! k with
    | Some d =>
        if stale (recentMessageKeys recentMessages) (recentMessageIds recentMessages)
             k (Some d)
        then None else Some d
    | None => None
    end.
Proof.
  unfold cleanupOldToolCalls. rewrite cleanup_loop_lookup.
  destruct (store !! k) as [d|] eqn:Hk.
  - rewrite bool_decide_eq_true_2; [done|].
    apply list_elem_of_fmap. exists (k, d). split; [done|].
    by apply elem_of_map_to_list.
  - by destruct (_ && _).
Qed.

(** C1.  After [cleanupOldToolCalls] with a window of live messages, an
    entry whose message identity is in the window's identity set is still in
    the ledger, whatever its composite key; and an entry that has gone had
    both its composite key and its message identity outside the window. *)
Theorem evict_keeps_live_identity (recentMessages : list Message.t)
    (store : gmap string ToolCallData) (k : string) (d : ToolCallData) :
  store !! k = Some d ->
  (messageId d ∈ recentMessageIds recentMessages ->
   cleanupOldToolCalls recentMessages store !! k = Some d)
  /\ (cleanupOldToolCalls recentMessages store !! k = None ->
      (k ∉ recentMessageKeys recentMessages)
      /\ (messageId d ∉ recentMessageIds recentMessages)).
Proof.
  intros Hk. rewrite cleanup_lookup, Hk. unfold stale.
  cbn [fmap option_fmap option_map default].
  split.
  - intros Hid. rewrite (bool_decide_eq_false_2 (messageId d ∉ _)); [|auto].
    by rewrite andb_false_r.
  - do 2 case_bool_decide; cbn; try discriminate. done.
Qed.

(** The converse: an entry with both its key and its identity outside the
    window is removed, and the cleanup adds nothing. *)
Lemma evict_removes_stale (recentMessages : list Message.t)
    (store : gmap string ToolCallData) (k : string) (d : ToolCallData) :
  store !! k = Some d ->
  k ∉ recentMessageKeys recentMessages ->
  messageId d ∉ recentMessageIds recentMessages ->
  cleanupOldToolCalls recentMessages store !! k = None.
Proof.
  intros Hk Hkey Hid. rewrite cleanup_lookup, Hk. unfold stale.
  cbn [fmap option_fmap option_map default].
  by rewrite !bool_decide_eq_true_2.
Qed.

Lemma evict_subset (recentMessages : list Message.t)
    (store : gmap string ToolCallData) (k : string) (d : ToolCallData) :
  cleanupOldToolCalls recentMessages store !! k = Some d -> store !! k = Some d.
Proof.
  rewrite cleanup_lookup. destruct (store !! k); [|done]. by destruct (stale _ _ _ _).
Qed.

(** C7.  [storeToolCallsForMessage] followed by [getToolCallsForMessage]
    with the same message gives back the entry that was stored; the store
    is a total function, and whatever was under the composite key before,
    an older entry of the same message included, is replaced. *)
Theorem store_get_roundtrip (store : gmap string ToolCallData) (message : Message.t)
    (calls : list ToolCall) (results : list ToolResult.t) :
  getToolCallsForMessage message (storeToolCallsForMessage message calls results store)
  = Some {| messageId := Message.id message;
            messageContent := Message.content message;
            timestamp := Message.createdTimestamp message;
            toolCalls := calls;
            toolResults := results |}
  /\ (forall old : ToolCallData,
        storeToolCallsForMessage message calls results
          (<[generateMessageKey message := old]> store)
        = storeToolCallsForMessage message calls results store)
  /\ (forall calls0 results0,
        storeToolCallsForMessage message calls results
          (storeToolCallsForMessage message calls0 results0 store)
        = storeToolCallsForMessage message calls results store).
Proof.
  unfold getToolCallsForMessage, storeToolCallsForMessage.
  split; [apply lookup_insert_eq|].
  split; intros; apply insert_insert_eq.
Qed.

(** Entries under other keys are left alone by a store. *)
Lemma store_other_key (store : gmap string ToolCallData) (message : Message.t)
    (calls : list ToolCall) (results : list ToolResult.t) (k : string) :
  k ≠ generateMessageKey message ->
  storeToolCallsForMessage message calls results store !! k = store !! k.
Proof. intros Hne. unfold storeToolCallsForMessage. by rewrite lookup_insert_ne. Qed.

(** An empty window empties the ledger. *)
Lemma evict_empty_window (store : gmap string ToolCallData) :
  cleanupOldToolCalls [] store = ∅.
Proof.
  apply map_eq. intros k. rewrite cleanup_lookup, lookup_empty.
  destruct (store !! k) as [d|]; [|done].
  unfold stale, recentMessageKeys, recentMessageIds. cbn [fmap list_fmap list_to_set].
  by rewrite !bool_decide_eq_true_2 by set_solver.
Qed.

End LedgerFacts.

(** ** The frame of a computation: ledger, trace, fuel *)
Module Frame.
Import Spec.

Section WithEnv.
Variable E : Env.

(** *** Laws of the computations *)

Lemma bind_ret_l {A B} (a : A) (k : A -> M E B) (p : Proc E) : bind (ret a) k p = k a p.
Proof. done. Qed.

Lemma bind_assoc {A B C} (m : M E A) (k : A -> M E B) (h : B -> M E C) (p : Proc E) :
  bind (bind m k) h p = bind m (fun a => bind (k a) h) p.
Proof. unfold bind. by destruct (m p) as [[a|e|] p']. Qed.

Lemma bind_ext {A B} (m : M E A) (k1 k2 : A -> M E B) (p : Proc E) :
  (forall a p', k1 a p' = k2 a p') -> bind m k1 p = bind m k2 p.
Proof. intros Hk. unfold bind. by destruct (m p) as [[a|e|] p']. Qed.

(** A computation that is known to return, followed by another. *)
Lemma bind_ok {A B} (m : M E A) (k : A -> M E B) (p p' : Proc E) (a : A) :
  m p = (Ok a, p') -> bind m k p = k a p'.
Proof. intros Hm. unfold bind. by rewrite Hm. Qed.

Lemma bind_throw {A B} (m : M E A) (k : A -> M E B) (p p' : Proc E) (e : Thrown.t) :
  m p = (Throw e, p') -> bind m k p = (Throw e, p').
Proof. intros Hm. unfold bind. by rewrite Hm. Qed.

Lemma tryCatch_ok {A} (m : M E A) (h : Thrown.t -> M E A) (p p' : Proc E) (a : A) :
  m p = (Ok a, p') -> tryCatch m h p = (Ok a, p').
Proof. intros Hm. unfold tryCatch. by rewrite Hm. Qed.

Lemma tryCatch_throw {A} (m : M E A) (h : Thrown.t -> M E A) (p p' : Proc E)
    (e : Thrown.t) :
  m p = (Throw e, p') -> tryCatch m h p = h e p'.
Proof. intros Hm. unfold tryCatch. by rewrite Hm. Qed.

Lemma set_ledger_same (p : Proc E) : set_ledger (ledger p) p = p.
Proof. by destruct p. Qed.

Lemma ledger_kept {A} (m : M E A) (p : Proc E) :
  LedgerBlind E m -> ledger (m p).2 = ledger p.
Proof.
  intros Hm. specialize (Hm p (ledger p)). rewrite set_ledger_same in Hm.
  destruct (m p) as [r p']. cbn in *. by injection Hm as ->.
Qed.

(** *** Neither reading nor writing the ledger *)

Lemma blind_ret {A} (a : A) : LedgerBlind E (ret a).
Proof. by intros p l. Qed.

Lemma blind_throw {A} (e : Thrown.t) : LedgerBlind E (@throw E A e).
Proof. by intros p l. Qed.

Lemma blind_out_of_fuel {A} : LedgerBlind E (fun p => (@OutOfFuel A, p)).
Proof. by intros p l. Qed.

Lemma blind_bind {A B} (m : M E A) (k : A -> M E B) :
  LedgerBlind E m -> (forall a, LedgerBlind E (k a)) -> LedgerBlind E (bind m k).
Proof.
  intros Hm Hk p l. unfold bind. rewrite Hm.
  destruct (m p) as [[a|e|] p']; cbn; [apply Hk | done | done].
Qed.

Lemma blind_tryCatch {A} (m : M E A) (h : Thrown.t -> M E A) :
  LedgerBlind E m -> (forall e, LedgerBlind E (h e)) -> LedgerBlind E (tryCatch m h).
Proof.
  intros Hm Hh p l. unfold tryCatch. rewrite Hm.
  destruct (m p) as [[a|e|] p']; cbn; [done | apply Hh | done].
Qed.

Lemma blind_ask {A} (f : World E -> A * World E) : LedgerBlind E (ask f).
Proof. intros p l. unfold ask. cbn. by destruct (f (world p)). Qed.

Lemma blind_record (ev : Event) : LedgerBlind E (record ev).
Proof. by intros p l. Qed.

Lemma blind_getImageCache : LedgerBlind E getImageCache.
Proof. by intros p l. Qed.

Lemma blind_putImageCache c : LedgerBlind E (putImageCache c).
Proof. by intros p l. Qed.

(** *** Relating the final state to the initial one *)

Section Steps.
Variable R : Proc E -> Proc E -> Prop.
Hypothesis R_refl : forall p, R p p.
Hypothesis R_trans : forall p1 p2 p3, R p1 p2 -> R p2 p3 -> R p1 p3.

Lemma steps_ret {A} (a : A) : Steps E R (ret a).
Proof. intros p. apply R_refl. Qed.

Lemma steps_throw {A} (e : Thrown.t) : Steps E R (@throw E A e).
Proof. intros p. apply R_refl. Qed.

Lemma steps_out_of_fuel {A} : Steps E R (fun p => (@OutOfFuel A, p)).
Proof. intros p. apply R_refl. Qed.

Lemma steps_bind {A B} (m : M E A) (k : A -> M E B) :
  Steps E R m -> (forall a, Steps E R (k a)) -> Steps E R (bind m k).
Proof.
  intros Hm Hk p. unfold bind. specialize (Hm p).
  destruct (m p) as [[a|e|] p']; cbn in *; [|done..].
  eapply R_trans; [apply Hm | apply Hk].
Qed.

Lemma steps_tryCatch {A} (m : M E A) (h : Thrown.t -> M E A) :
  Steps E R m -> (forall e, Steps E R (h e)) -> Steps E R (tryCatch m h).
Proof.
  intros Hm Hh p. unfold tryCatch. specialize (Hm p).
  destruct (m p) as [[a|e|] p']; cbn in *; [done| |done].
  eapply R_trans; [apply Hm | apply Hh].
Qed.

End Steps.

Lemma traceExtends_refl (p : Proc E) : traceExtends E p p.
Proof. exists []. by rewrite app_nil_r. Qed.

Lemma traceExtends_trans (p1 p2 p3 : Proc E) :
  traceExtends E p1 p2 -> traceExtends E p2 p3 -> traceExtends E p1 p3.
Proof. intros [t1 H1] [t2 H2]. exists (t1 ++ t2). by rewrite H2, H1, app_assoc. Qed.

Lemma sameLedger_refl (p : Proc E) : sameLedger E p p.
Proof. done. Qed.

Lemma sameLedger_trans (p1 p2 p3 : Proc E) :
  sameLedger E p1 p2 -> sameLedger E p2 p3 -> sameLedger E p1 p3.
Proof. unfold sameLedger. congruence. Qed.

Lemma grows_ret {A} (a : A) : TraceGrows E (ret a).
Proof. apply steps_ret, traceExtends_refl. Qed.

Lemma grows_throw {A} (e : Thrown.t) : TraceGrows E (@throw E A e).
Proof. apply steps_throw, traceExtends_refl. Qed.

Lemma grows_out_of_fuel {A} : TraceGrows E (fun p => (@OutOfFuel A, p)).
Proof. apply steps_out_of_fuel, traceExtends_refl. Qed.

Lemma grows_bind {A B} (m : M E A) (k : A -> M E B) :
  TraceGrows E m -> (forall a, TraceGrows E (k a)) -> TraceGrows E (bind m k).
Proof. apply steps_bind, traceExtends_trans. Qed.

Lemma grows_tryCatch {A} (m : M E A) (h : Thrown.t -> M E A) :
  TraceGrows E m -> (forall e, TraceGrows E (h e)) -> TraceGrows E (tryCatch m h).
Proof. apply steps_tryCatch, traceExtends_trans. Qed.

Lemma grows_ask {A} (f : World E -> A * World E) : TraceGrows E (ask f).
Proof.
  intros p. unfold ask. destruct (f (world p)). exists []. cbn. by rewrite app_nil_r.
Qed.

Lemma grows_record (ev : Event) : TraceGrows E (record ev).
Proof. intros p. by exists [ev]. Qed.

Lemma grows_getLedger : TraceGrows E getLedger.
Proof. intros p. apply traceExtends_refl. Qed.

Lemma grows_modifyLedger f : TraceGrows E (modifyLedger f).
Proof. intros p. exists []. cbn. by rewrite app_nil_r. Qed.

Lemma grows_getImageCache : TraceGrows E getImageCache.
Proof. intros p. apply traceExtends_refl. Qed.

Lemma grows_putImageCache c : TraceGrows E (putImageCache c).
Proof. intros p. exists []. cbn. by rewrite app_nil_r. Qed.

Lemma keeps_ret {A} (a : A) : KeepsLedger E (ret a).
Proof. by intros p. Qed.

Lemma keeps_throw {A} (e : Thrown.t) : KeepsLedger E (@throw E A e).
Proof. by intros p. Qed.

Lemma keeps_bind {A B} (m : M E A) (k : A -> M E B) :
  KeepsLedger E m -> (forall a, KeepsLedger E (k a)) -> KeepsLedger E (bind m k).
Proof. apply steps_bind, sameLedger_trans. Qed.

Lemma keeps_tryCatch {A} (m : M E A) (h : Thrown.t -> M E A) :
  KeepsLedger E m -> (forall e, KeepsLedger E (h e)) -> KeepsLedger E (tryCatch m h).
Proof. apply steps_tryCatch, sameLedger_trans. Qed.

Lemma keeps_ask {A} (f : World E -> A * World E) : KeepsLedger E (ask f).
Proof. intros p. unfold ask. by destruct (f (world p)). Qed.

Lemma keeps_record (ev : Event) : KeepsLedger E (record ev).
Proof. by intros p. Qed.

Lemma keeps_getLedger : KeepsLedger E getLedger.
Proof. by intros p. Qed.

Lemma keeps_getImageCache : KeepsLedger E getImageCache.
Proof. by intros p. Qed.

Lemma keeps_putImageCache c : KeepsLedger E (putImageCache c).
Proof. by intros p. Qed.

(** A computation blind to the ledger keeps it. *)
Lemma blind_keeps {A} (m : M E A) : LedgerBlind E m -> KeepsLedger E m.
Proof. intros Hm p. by apply ledger_kept. Qed.

(** *** Ending with a value or a thrown value *)

Lemma halts_ret {A} (a : A) : Halts E (ret a).
Proof. by intros p. Qed.

Lemma halts_throw {A} (e : Thrown.t) : Halts E (@throw E A e).
Proof. by intros p. Qed.

Lemma halts_bind {A B} (m : M E A) (k : A -> M E B) :
  Halts E m -> (forall a, Halts E (k a)) -> Halts E (bind m k).
Proof.
  intros Hm Hk p. unfold bind. specialize (Hm p).
  destruct (m p) as [[a|e|] p']; cbn in *; [apply Hk | done | done].
Qed.

Lemma halts_tryCatch {A} (m : M E A) (h : Thrown.t -> M E A) :
  Halts E m -> (forall e, Halts E (h e)) -> Halts E (tryCatch m h).
Proof.
  intros Hm Hh p. unfold tryCatch. specialize (Hm p).
  destruct (m p) as [[a|e|] p']; cbn in *; [done | apply Hh | done].
Qed.

Lemma halts_ask {A} (f : World E -> A * World E) : Halts E (ask f).
Proof. intros p. unfold ask. by destruct (f (world p)). Qed.

Lemma halts_record (ev : Event) : Halts E (record ev).
Proof. by intros p. Qed.

Lemma halts_getLedger : Halts E getLedger.
Proof. by intros p. Qed.

Lemma halts_modifyLedger f : Halts E (modifyLedger f).
Proof. by intros p. Qed.

Lemma halts_getImageCache : Halts E getImageCache.
Proof. by intros p. Qed.

Lemma halts_putImageCache c : Halts E (putImageCache c).
Proof. by intros p. Qed.

(** *** Ending with a value *)

Lemma returns_ret {A} (a : A) : Returns E (ret a).
Proof. intros p. by eexists _, _. Qed.

Lemma returns_bind {A B} (m : M E A) (k : A -> M E B) :
  Returns E m -> (forall a, Returns E (k a)) -> Returns E (bind m k).
Proof.
  intros Hm Hk p. unfold bind. destruct (Hm p) as (a & p' & ->). apply Hk.
Qed.

(** A handler that returns makes the whole [try] return, as long as the
    body is not cut short. *)
Lemma returns_tryCatch {A} (m : M E A) (h : Thrown.t -> M E A) :
  Halts E m -> (forall e, Returns E (h e)) -> Returns E (tryCatch m h).
Proof.
  intros Hm Hh p. unfold tryCatch. specialize (Hm p).
  destruct (m p) as [[a|e|] p']; cbn in *; [by eexists _, _ | apply Hh | done].
Qed.

Lemma returns_ask {A} (f : World E -> A * World E) : Returns E (ask f).
Proof. intros p. unfold ask. destruct (f (world p)). by eexists _, _. Qed.

Lemma returns_record (ev : Event) : Returns E (record ev).
Proof. intros p. by eexists _, _. Qed.

Lemma returns_getLedger : Returns E getLedger.
Proof. intros p. by eexists _, _. Qed.

Lemma returns_modifyLedger f : Returns E (modifyLedger f).
Proof. intros p. by eexists _, _. Qed.

Lemma returns_getImageCache : Returns E getImageCache.
Proof. intros p. by eexists _, _. Qed.

Lemma returns_putImageCache c : Returns E (putImageCache c).
Proof. intros p. by eexists _, _. Qed.

Lemma returns_halts {A} (m : M E A) : Returns E m -> Halts E m.
Proof. intros Hm p. by destruct (Hm p) as (a & p' & ->). Qed.

End WithEnv.

Create HintDb blind.
Create HintDb grows.
Create HintDb keeps.
Create HintDb halts.
Create HintDb returns.
#[export] Hint Resolve keeps_ret keeps_throw keeps_ask keeps_record keeps_getLedger
  keeps_getImageCache keeps_putImageCache : keeps.
#[export] Hint Resolve blind_ret blind_throw blind_out_of_fuel blind_ask blind_record
  blind_getImageCache blind_putImageCache : blind.
#[export] Hint Resolve grows_ret grows_throw grows_out_of_fuel grows_ask grows_record
  grows_getLedger grows_modifyLedger grows_getImageCache grows_putImageCache : grows.
#[export] Hint Resolve halts_ret halts_throw halts_ask halts_record halts_getLedger
  halts_modifyLedger halts_getImageCache halts_putImageCache : halts.
#[export] Hint Resolve returns_ret returns_ask returns_record returns_getLedger
  returns_modifyLedger returns_getImageCache returns_putImageCache : returns.

(** Walk down a computation built from the primitives. *)
Ltac frame db bindL tryL :=
  repeat first
    [ progress eauto with db
    | apply bindL; [|intros ?]
    | apply tryL; [|intros ?]
    | match goal with
      | |- context [match ?x with _ => _ end] => destruct x
      end ].

End Frame.

(** ** The assembler *)
Module AssemblerFacts.
Import Spec Frame MessageUtils.

Lemma get_entry {V} (key : string) (v : V) (m : list (string * V)) :
  JsMap.get key m = Some v -> (key, v) ∈ m.
Proof.
  induction m as [|[k v0] m IH]; cbn; [done|].
  destruct (String.eqb k key) eqn:Hk.
  - apply String.eqb_eq in Hk as ->. intros [= ->]. left.
  - intros H. right. by apply IH.
Qed.

Lemma Forall_set {V} (P : string * V -> Prop) (key : string) (v : V)
    (m : list (string * V)) :
  Forall P m -> P (key, v) -> Forall P (JsMap.set key v m).
Proof.
  intros Hm Hv. induction Hm as [|[k v0] m Hkv Hm IH]; cbn.
  - by constructor.
  - destruct (String.eqb k key) eqn:Hk.
    + apply String.eqb_eq in Hk as ->. by constructor.
    + by constructor.
Qed.

Lemma Forall_delete {V} (P : string * V -> Prop) (key : string) (m : list (string * V)) :
  Forall P m -> Forall P (JsMap.delete key m).
Proof.
  intros Hm. induction Hm as [|[k v0] m Hkv Hm IH]; cbn; [done|].
  destruct (String.eqb k key); [done | by constructor].
Qed.

Lemma wellFormed_evict (c : list (string * string)) :
  cacheWellFormed c -> cacheWellFormed (cacheEvictOldest c).
Proof.
  intros Hc. unfold cacheEvictOldest. destruct (JsMap.keys c) as [|k ks]; [done|].
  destruct (String.eqb k EmptyString); [done|]. by apply Forall_delete.
Qed.

Lemma pngTagged_dataUrl (base64 : string) : pngTagged (dataUrl "image/png" base64) = true.
Proof. reflexivity. Qed.

Lemma dataUrl_nonempty (mimeType base64 : string) :
  String.eqb (dataUrl mimeType base64) EmptyString = false.
Proof. reflexivity. Qed.

Section WithEnv.
Variable E : Env.

(** [convertImageToBase64] always returns: a data URL tagged with the type
    sniffed from the URL, or, when nothing is cached and the download fails,
    the URL itself.  The cache stays well formed and nothing else moves. *)
Lemma downloadAndCache_spec (url : string) (p : Proc E) :
  cacheWellFormed (imageCache p) ->
  exists src p',
    downloadAndCache E url p = (Ok src, p')
    /\ cacheWellFormed (imageCache p')
    /\ ledger p' = ledger p
    /\ trace p' = trace p
    /\ ((exists base64, src = dataUrl (sniffMimeType url) base64)
        \/ (src = url /\ (fetchBase64 E url (world p)).1 = None)).
Proof.
  intros Hc. unfold downloadAndCache, bind, ask.
  destruct (fetchBase64 E url (world p)) as [[base64|] w] eqn:Hf; cbn.
  - eexists _, _. split; [done|]. cbn. split; [|by eauto].
    apply Forall_set; [|by eexists].
    case_match; [by apply wellFormed_evict | done].
  - eexists _, _. split; [done|]. cbn. by eauto 10.
Qed.

Lemma convertImageToBase64_spec (url : string) (p : Proc E) :
  cacheWellFormed (imageCache p) ->
  exists src p',
    convertImageToBase64 E url p = (Ok src, p')
    /\ cacheWellFormed (imageCache p')
    /\ ledger p' = ledger p
    /\ trace p' = trace p
    /\ ((exists base64, src = dataUrl (sniffMimeType url) base64)
        \/ (src = url
            /\ JsMap.get url (imageCache p) = None
            /\ (fetchBase64 E url (world p)).1 = None)).
Proof.
  intros Hc. unfold convertImageToBase64, bind at 1, getImageCache.
  destruct (JsMap.get url (imageCache p)) as [cached|] eqn:Hget.
  - pose proof (get_entry _ _ _ Hget) as Hin.
    unfold cacheWellFormed in Hc. rewrite Forall_forall in Hc.
    destruct (Hc _ Hin) as [base64 Hv]. cbn in Hv. subst cached.
    rewrite dataUrl_nonempty. eexists _, _. split; [done|].
    rewrite <- Forall_forall in Hc. by eauto 10.
  - destruct (downloadAndCache_spec url p Hc) as (src & p' & Hrun & ? & ? & ? & Hsrc).
    exists src, p'. rewrite Hrun. repeat split; try done.
    destruct Hsrc as [?|[? ?]]; [by left | by right].
Qed.

(** C9, as amended.  An attachment whose declared content type begins with
    [image/] is assembled into a native image segment, never into text.
    When the type sniffed from the URL is PNG (the lower-cased URL names none
    of .jpg, .jpeg, .gif, .webp; a URL ending in .png with no such marker
    is the case in point), the source of the segment is a data URL tagged
    [image/png], unless nothing was cached for the URL and the download
    failed, in which case the source is the URL itself. *)
Theorem image_attachment_is_native (attachment : Attachment.t) (contentType : string)
    (p : Proc E) :
  Attachment.contentType attachment = Some contentType ->
  JS.startsWith contentType "image/" = true ->
  cacheWellFormed (imageCache p) ->
  exists src p',
    convertAttachmentToContentPart E attachment p = (Ok (ImagePart src), p')
    /\ cacheWellFormed (imageCache p')
    /\ (sniffMimeType (Attachment.url attachment) = "image/png" ->
        pngTagged src = true
        \/ (src = Attachment.url attachment
            /\ JsMap.get (Attachment.url attachment) (imageCache p) = None
            /\ (fetchBase64 E (Attachment.url attachment) (world p)).1 = None)).
Proof.
  intros Hct Himage Hc. unfold convertAttachmentToContentPart. rewrite Hct, Himage.
  assert (String.eqb contentType EmptyString = false) as ->.
  { destruct contentType; [discriminate Himage | done]. }
  destruct (convertImageToBase64_spec (Attachment.url attachment) p Hc)
    as (src & p' & Hrun & Hc' & _ & _ & Hsrc).
  exists src, p'. unfold bind. rewrite Hrun. split; [done|]. split; [done|].
  intros Hpng. rewrite Hpng in Hsrc. destruct Hsrc as [[base64 ->]|Hraw].
  - left. apply pngTagged_dataUrl.
  - by right.
Qed.

(** When the sniffed type is PNG. *)
Lemma sniffMimeType_png (url : string) :
  JS.includes (JS.toLowerCase url) ".jpg" = false ->
  JS.includes (JS.toLowerCase url) ".jpeg" = false ->
  JS.includes (JS.toLowerCase url) ".gif" = false ->
  JS.includes (JS.toLowerCase url) ".webp" = false ->
  sniffMimeType url = "image/png".
Proof. intros H1 H2 H3 H4. unfold sniffMimeType. by rewrite H1, H2, H3, H4. Qed.

(** *** The assembly always returns and leaves the ledger alone *)

Lemma returns_mapM {A B} (f : A -> M E B) (l : list A) :
  (forall x, Returns E (f x)) -> Returns E (mapM f l).
Proof.
  intros Hf. induction l as [|x l IH]; cbn [mapM];
    frame returns (@returns_bind E) (@returns_tryCatch E).
Qed.

Lemma keeps_mapM {A B} (f : A -> M E B) (l : list A) :
  (forall x, KeepsLedger E (f x)) -> KeepsLedger E (mapM f l).
Proof.
  intros Hf. induction l as [|x l IH]; cbn [mapM];
    frame keeps (@keeps_bind E) (@keeps_tryCatch E).
Qed.

Lemma returns_convertImageToBase64 url : Returns E (convertImageToBase64 E url).
Proof.
  unfold convertImageToBase64, downloadAndCache.
  frame returns (@returns_bind E) (@returns_tryCatch E).
Qed.

Lemma keeps_convertImageToBase64 url : KeepsLedger E (convertImageToBase64 E url).
Proof.
  unfold convertImageToBase64, downloadAndCache.
  frame keeps (@keeps_bind E) (@keeps_tryCatch E).
Qed.

Lemma returns_convertAttachment att : Returns E (convertAttachmentToContentPart E att).
Proof.
  pose proof returns_convertImageToBase64.
  unfold convertAttachmentToContentPart.
  frame returns (@returns_bind E) (@returns_tryCatch E).
Qed.

Lemma keeps_convertAttachment att : KeepsLedger E (convertAttachmentToContentPart E att).
Proof.
  pose proof keeps_convertImageToBase64.
  unfold convertAttachmentToContentPart.
  frame keeps (@keeps_bind E) (@keeps_tryCatch E).
Qed.

Lemma returns_convertUserMessage message : Returns E (convertUserMessage E message).
Proof.
  unfold convertUserMessage. apply returns_bind; [|intros; apply returns_ret].
  apply returns_mapM, returns_convertAttachment.
Qed.

Lemma keeps_convertUserMessage message : KeepsLedger E (convertUserMessage E message).
Proof.
  unfold convertUserMessage. apply keeps_bind; [|intros; apply keeps_ret].
  apply keeps_mapM, keeps_convertAttachment.
Qed.

Lemma returns_convertBotAttachment att : Returns E (convertBotAttachment E att).
Proof.
  pose proof returns_convertImageToBase64.
  unfold convertBotAttachment.
  frame returns (@returns_bind E) (@returns_tryCatch E).
Qed.

Lemma keeps_convertBotAttachment att : KeepsLedger E (convertBotAttachment E att).
Proof.
  pose proof keeps_convertImageToBase64.
  unfold convertBotAttachment.
  frame keeps (@keeps_bind E) (@keeps_tryCatch E).
Qed.

Lemma returns_convertBotContent message : Returns E (convertBotContent E message).
Proof.
  unfold convertBotContent. apply returns_bind; [|intros; apply returns_ret].
  apply returns_mapM, returns_convertBotAttachment.
Qed.

Lemma keeps_convertBotContent message : KeepsLedger E (convertBotContent E message).
Proof.
  unfold convertBotContent. apply keeps_bind; [|intros; apply keeps_ret].
  apply keeps_mapM, keeps_convertBotAttachment.
Qed.

Lemma returns_reinsertToolCalls message acc : Returns E (reinsertToolCalls E message acc).
Proof.
  unfold reinsertToolCalls. frame returns (@returns_bind E) (@returns_tryCatch E).
Qed.

Lemma keeps_reinsertToolCalls message acc : KeepsLedger E (reinsertToolCalls E message acc).
Proof.
  unfold reinsertToolCalls. frame keeps (@keeps_bind E) (@keeps_tryCatch E).
Qed.

Lemma returns_convertMessage acc message : Returns E (convertMessage E acc message).
Proof.
  pose proof returns_convertUserMessage. pose proof returns_convertBotContent.
  pose proof returns_reinsertToolCalls.
  unfold convertMessage. frame returns (@returns_bind E) (@returns_tryCatch E).
Qed.

Lemma keeps_convertMessage acc message : KeepsLedger E (convertMessage E acc message).
Proof.
  pose proof keeps_convertUserMessage. pose proof keeps_convertBotContent.
  pose proof keeps_reinsertToolCalls.
  unfold convertMessage. frame keeps (@keeps_bind E) (@keeps_tryCatch E).
Qed.

Lemma returns_convertMessages acc messages : Returns E (convertMessages E acc messages).
Proof.
  revert acc. induction messages as [|message rest IH]; intros acc; cbn [convertMessages].
  - apply returns_ret.
  - apply returns_bind; [apply returns_convertMessage | intros; apply IH].
Qed.

Lemma keeps_convertMessages acc messages : KeepsLedger E (convertMessages E acc messages).
Proof.
  revert acc. induction messages as [|message rest IH]; intros acc; cbn [convertMessages].
  - apply keeps_ret.
  - apply keeps_bind; [apply keeps_convertMessage | intros; apply IH].
Qed.

(** *** Re-inserting the stored tool calls *)

Lemma flat_map_fmap {A B C} (f : B -> list C) (g : A -> B) (l : list A) :
  flat_map f (g <$> l) = flat_map (fun x => f (g x)) l.
Proof. induction l as [|x l IH]; cbn; [done | by rewrite IH]. Qed.

Lemma toolMessages_cons (calls : list ToolCall) (r : ToolResult.t)
    (results : list ToolResult.t) :
  toolMessages calls (r :: results)
  = match calls with
    | c :: _ => [ToolMessage (ToolResult.content r) (call_id c)]
    | [] => []
    end ++ toolMessages (tail calls) results.
Proof.
  unfold toolMessages. cbn [length seq flat_map]. rewrite <- fmap_S_seq, flat_map_fmap.
  f_equal; [by destruct calls|].
  apply flat_map_ext. intros i. cbn. by destruct calls.
Qed.

(** The results are paired with the calls by position. *)
Lemma toolMessages_zip (calls : list ToolCall) (results : list ToolResult.t) :
  toolMessages calls results
  = zip_with (fun r c => ToolMessage (ToolResult.content r) (call_id c)) results calls.
Proof.
  revert calls. induction results as [|r results IH]; intros calls; [done|].
  rewrite toolMessages_cons, IH. by destruct calls; [destruct results|].
Qed.

Lemma toolMessages_length (calls : list ToolCall) (results : list ToolResult.t) :
  length (toolMessages calls results) = (length results `min` length calls)%nat.
Proof. rewrite toolMessages_zip. apply length_zip_with. Qed.

Lemma toolMessages_lookup (calls : list ToolCall) (results : list ToolResult.t)
    (i : nat) (m : AIMessage) :
  toolMessages calls results !! i = Some m ->
  exists r c,
    results !! i = Some r /\ calls !! i = Some c
    /\ m = ToolMessage (ToolResult.content r) (call_id c).
Proof.
  rewrite toolMessages_zip, lookup_zip_with_Some. intros (r & c & -> & Hr & Hc). eauto.
Qed.

Lemma no_request_with_id (id : string) (calls : list ToolCall) :
  id ∉ call_id <$> calls -> requestsWithId id calls = 0%nat.
Proof.
  unfold requestsWithId. induction calls as [|c calls IH]; [done|].
  cbn [fmap list_fmap]. rewrite not_elem_of_cons. intros [Hne Hid].
  rewrite filter_cons, decide_False by done. by apply IH.
Qed.

(** With pairwise distinct request ids, the id of the call at a position
    is the id of that one request only. *)
Lemma one_request_with_id (calls : list ToolCall) (i : nat) (c : ToolCall) :
  NoDup (call_id <$> calls) ->
  calls !! i = Some c ->
  requestsWithId (call_id c) calls = 1%nat.
Proof.
  revert i. induction calls as [|c0 calls IH]; intros i Hnd Hi; [done|].
  cbn [fmap list_fmap] in Hnd. apply NoDup_cons in Hnd as [Hc0 Hnd].
  unfold requestsWithId in *. rewrite filter_cons. destruct i as [|i]; cbn in Hi.
  - injection Hi as ->. rewrite decide_True by done. cbn. f_equal.
    by apply no_request_with_id.
  - rewrite decide_False; [by eapply IH|].
    intros Heq. apply Hc0. rewrite Heq. apply list_elem_of_fmap_2.
    by eapply list_elem_of_lookup_2.
Qed.

(** The assembly of a list of messages is the assembly of its front part
    followed by that of its back part. *)
Lemma convertMessages_app acc (l1 l2 : list Message.t) (p : Proc E) :
  convertMessages E acc (l1 ++ l2) p
  = bind (convertMessages E acc l1) (fun acc1 => convertMessages E acc1 l2) p.
Proof.
  revert acc p. induction l1 as [|message l1 IH]; intros acc p; [done|].
  cbn [app convertMessages]. rewrite bind_assoc. apply bind_ext. intros; apply IH.
Qed.

(** Each round only pushes. *)
Lemma convertMessage_extends acc message (p : Proc E) out p' :
  convertMessage E acc message p = (Ok out, p') -> exists chunk, out = acc ++ chunk.
Proof.
  unfold convertMessage.
  destruct (_ && _) eqn:Hskip.
  { intros [= <- <-]. exists []. by rewrite app_nil_r. }
  destruct (negb _).
  { unfold bind. destruct (returns_convertUserMessage message p) as (m & p1 & ->).
    intros [= <- <-]. by eexists. }
  unfold bind. destruct (returns_convertBotContent message p) as ([text|] & p1 & ->).
  2:{ intros [= <- <-]. exists []. by rewrite app_nil_r. }
  unfold reinsertToolCalls, bind, getLedger.
  destruct (ToolCallsStore.getToolCallsForMessage _ _) as [d|].
  2:{ intros [= <- <-]. by eexists. }
  destruct (ToolCallsStore.toolCalls d) as [|c cs].
  { intros [= <- <-]. by eexists. }
  rewrite last_snoc, removelast_last. intros [= <- <-]. by eexists.
Qed.

Lemma convertMessages_extends acc messages (p : Proc E) out p' :
  convertMessages E acc messages p = (Ok out, p') -> exists chunk, out = acc ++ chunk.
Proof.
  revert acc p. induction messages as [|message rest IH]; intros acc p; cbn [convertMessages].
  - intros [= <- <-]. exists []. by rewrite app_nil_r.
  - unfold bind. destruct (convertMessage E acc message p) as [[acc1|e|] p1] eqn:H1; [|done..].
    intros H2. apply convertMessage_extends in H1 as [c1 ->].
    apply IH in H2 as [c2 ->]. exists (c1 ++ c2). by rewrite app_assoc.
Qed.

Lemma append_nonempty (a b : string) :
  a <> EmptyString -> String.eqb (a +:+ b) EmptyString = false.
Proof. by destruct a. Qed.

(** A bot message with text is never skipped. *)
Lemma convertBotContent_text message (p : Proc E) :
  Message.content message <> EmptyString ->
  exists text p', convertBotContent E message p = (Ok (Some text), p').
Proof.
  intros Htext. unfold convertBotContent, bind.
  destruct (returns_mapM (convertBotAttachment E) (Message.attachments message)
              returns_convertBotAttachment p) as (parts & p' & ->).
  unfold whenNonEmpty. destruct (String.eqb_spec (Message.content message) EmptyString) as [|_];
    [done|].
  cbn [app]. unfold ret.
  destruct (parts ++ textParts (botEmbedText <$> Message.embeds message)) as [|part rest].
  - cbn. destruct (String.eqb_spec (Message.content message) EmptyString); [done|].
    by eexists _, _.
  - cbn [assistantContent fmap list_fmap JS.join]. rewrite append_nonempty by done.
    by eexists _, _.
Qed.

(** The turn that the assembler builds for a bot message with a ledger
    entry of at least one call: the assistant message without text that
    carries the calls of the entry, the results paired with the calls by
    position, the assistant text.  Only a message without text can be left
    out. *)
Lemma reinserted_turn (pre post : list Message.t) (message : Message.t)
    (query : string) (p : Proc E) (d : ToolCallsStore.ToolCallData) :
  Author.bot (Message.author message) = true ->
  ToolCallsStore.getToolCallsForMessage message (ledger p) = Some d ->
  ToolCallsStore.toolCalls d <> [] ->
  let calls := ToolCallsStore.toolCalls d in
  let results := ToolCallsStore.toolResults d in
  exists out p' before p1 after (turn : option string),
    convertToAIMessages E (pre ++ message :: post) query p = (Ok out, p')
    /\ convertMessages E [] pre p = (Ok before, p1)
    /\ out = before
             ++ match turn with
                | Some text =>
                    AssistantMessage None (Some calls)
                    :: toolMessages calls results
                    ++ [AssistantMessage (Some text) None]
                | None => []
                end
             ++ after
    /\ (Message.content message <> EmptyString -> turn <> None)
    /\ (turn <> None -> (convertBotContent E message p1).1 = Ok turn)
    /\ length (toolMessages calls results) = (length results `min` length calls)%nat
    /\ (forall i m,
          toolMessages calls results !! i = Some m ->
          exists r c,
            results !! i = Some r /\ calls !! i = Some c
            /\ m = ToolMessage (ToolResult.content r) (call_id c)
            /\ (NoDup (call_id <$> calls) -> requestsWithId (call_id c) calls = 1%nat)).
Proof.
  intros Hbot Hget Hcalls calls results.
  destruct (returns_convertMessages [] pre p) as (before & p1 & Hpre).
  pose proof (keeps_convertMessages [] pre p) as Hl1. rewrite Hpre in Hl1.
  unfold sameLedger in Hl1. cbn in Hl1.
  assert (exists acc2 p2 turn,
             convertMessage E before message p1 = (Ok acc2, p2)
             /\ acc2 = before
                        ++ match turn with
                           | Some text =>
                               AssistantMessage None (Some calls)
                               :: toolMessages calls results
                               ++ [AssistantMessage (Some text) None]
                           | None => []
                           end
             /\ (Message.content message <> EmptyString -> turn <> None)
             /\ (turn <> None -> (convertBotContent E message p1).1 = Ok turn))
    as (acc2 & p2 & turn & Hmsg & Hacc2 & Hturn & Hcontent).
  { unfold convertMessage. rewrite Hbot. cbn [negb andb].
    destruct (String.eqb_spec (Message.content message) EmptyString) as [Hempty|Htext].
    - destruct (_ && _).
      + exists before, p1, None. by rewrite app_nil_r.
      + destruct (returns_convertBotContent message p1) as (content & p2 & Hc).
        pose proof (keeps_convertBotContent message p1) as Hl2. rewrite Hc in Hl2.
        unfold sameLedger in Hl2. cbn in Hl2.
        rewrite (bind_ok _ _ _ _ _ _ Hc). destruct content as [text|].
        * exists (before ++ AssistantMessage None (Some calls)
                  :: toolMessages calls results ++ [AssistantMessage (Some text) None]),
            p2, (Some text).
          split; [|by rewrite Hc]. unfold reinsertToolCalls, bind, getLedger.
          rewrite Hl2, Hl1, Hget. fold calls. destruct calls as [|c cs] eqn:Hc0; [done|].
          by rewrite last_snoc, removelast_last.
        * exists before, p2, None. by rewrite app_nil_r.
    - cbn [andb]. destruct (convertBotContent_text message p1 Htext) as (text & p2 & Hc).
      pose proof (keeps_convertBotContent message p1) as Hl2. rewrite Hc in Hl2.
      unfold sameLedger in Hl2. cbn in Hl2.
      rewrite (bind_ok _ _ _ _ _ _ Hc).
      exists (before ++ AssistantMessage None (Some calls)
                :: toolMessages calls results ++ [AssistantMessage (Some text) None]),
        p2, (Some text).
      split; [|by rewrite Hc]. unfold reinsertToolCalls, bind, getLedger.
      rewrite Hl2, Hl1, Hget. fold calls. destruct calls as [|c cs] eqn:Hc0; [done|].
      by rewrite last_snoc, removelast_last. }
  destruct (returns_convertMessages acc2 post p2) as (out2 & p3 & Hpost).
  destruct (convertMessages_extends _ _ _ _ _ Hpost) as [chunk Hchunk].
  assert (convertMessages E [] (pre ++ message :: post) p = (Ok out2, p3)) as Hall.
  { rewrite convertMessages_app, (bind_ok _ _ _ _ _ _ Hpre). cbn [convertMessages].
    by rewrite (bind_ok _ _ _ _ _ _ Hmsg). }
  unfold convertToAIMessages. rewrite (bind_ok _ _ _ _ _ _ Hall).
  destruct (String.eqb (JS.trim query) EmptyString).
  - exists out2, p3, before, p1, chunk, turn.
    split; [done|]. split; [done|]. split; [by rewrite Hchunk, Hacc2, <- app_assoc|].
    split; [done|]. split; [done|]. split; [apply toolMessages_length|].
    intros i m Hm. destruct (toolMessages_lookup _ _ _ _ Hm) as (r & c & Hr & Hc & ->).
    exists r, c. repeat split; try done. intros Hnd. by eapply one_request_with_id.
  - exists (out2 ++ [UserMessage (UserText (JS.trim query)) None]), p3, before, p1,
      (chunk ++ [UserMessage (UserText (JS.trim query)) None]), turn.
    split; [done|]. split; [done|].
    split; [by rewrite Hchunk, Hacc2, <- !app_assoc|].
    split; [done|]. split; [done|]. split; [apply toolMessages_length|].
    intros i m Hm. destruct (toolMessages_lookup _ _ _ _ Hm) as (r & c & Hr & Hc & ->).
    exists r, c. repeat split; try done. intros Hnd. by eapply one_request_with_id.
Qed.

Lemma functionCallIds_length (calls : list ToolCall) :
  (length (functionCallIds calls) <= length calls)%nat.
Proof.
  unfold functionCallIds. induction calls as [|[id name args|id name input] calls IH];
    cbn; lia.
Qed.

Lemma functionCallIds_all (calls : list ToolCall) :
  Forall (fun c => call_function_name c <> None) calls ->
  functionCallIds calls = call_id <$> calls.
Proof.
  unfold functionCallIds. induction 1 as [|[id name args|id name input] calls Hc _ IH];
    cbn; [done|by rewrite IH|done].
Qed.

(** C2.  In every state whose ledger holds only entries as the program
    stores them, a bot-authored message with text that matches an entry
    with at least one recorded call is assembled into, one right after the
    other: the assistant message without text that carries the calls of the
    entry; one tool message for each recorded result, in order and with its
    content; the assistant text message, whose text is what the assembler
    makes of the message, its content when it has no attachment and no
    embed.  The id on each tool message is the id of exactly one call of
    that tool-request message, and it is the id recorded with the result
    when every call of the entry is a function call.  The ledger of the
    program is such a ledger: [PipelineFacts.handleMessage_keeps_wellFormed]
    shows that handling a message keeps it one; and the messages the bot
    sends have text. *)
Theorem ledger_matched_turn_order (pre post : list Message.t) (message : Message.t)
    (query : string) (p : Proc E) (d : ToolCallsStore.ToolCallData) :
  Stored.ledgerWellFormed (ledger p) ->
  Author.bot (Message.author message) = true ->
  Message.content message <> EmptyString ->
  ToolCallsStore.getToolCallsForMessage message (ledger p) = Some d ->
  ToolCallsStore.toolCalls d <> [] ->
  let calls := ToolCallsStore.toolCalls d in
  let results := ToolCallsStore.toolResults d in
  exists out p' before p1 after text,
    convertToAIMessages E (pre ++ message :: post) query p = (Ok out, p')
    /\ convertMessages E [] pre p = (Ok before, p1)
    /\ out = before
             ++ AssistantMessage None (Some calls)
                :: toolMessages calls results
                ++ AssistantMessage (Some text) None :: after
    /\ (convertBotContent E message p1).1 = Ok (Some text)
    /\ (Message.attachments message = [] ->
        Message.embeds message = [] ->
        text = Message.content message)
    /\ length (toolMessages calls results) = length results
    /\ (forall i r,
          results !! i = Some r ->
          exists id,
            toolMessages calls results !! i
            = Some (ToolMessage (ToolResult.content r) id)
            /\ requestsWithId id calls = 1%nat
            /\ (Forall (fun c => call_function_name c <> None) calls ->
                id = ToolResult.tool_call_id r)).
Proof.
  intros Hledger Hbot Htext Hget Hcalls calls results.
  destruct (Hledger _ _ Hget) as [Hanswered Hunique]. fold calls results in Hanswered, Hunique.
  destruct (reinserted_turn pre post message query p d Hbot Hget Hcalls)
    as (out & p' & before & p1 & after & turn & Hrun & Hpre & Hout & Hturn & Hcontent
        & Hlen & Hidx).
  fold calls results in Hout, Hlen, Hidx.
  destruct turn as [text|]; [|by destruct (Hturn Htext)].
  specialize (Hcontent ltac:(done)).
  assert (length results <= length calls)%nat as Hle.
  { rewrite <- (length_fmap ToolResult.tool_call_id), Hanswered.
    apply functionCallIds_length. }
  assert (length (toolMessages calls results) = length results) as Hlen1 by lia.
  exists out, p', before, p1, after, text. split; [done|]. split; [done|].
  split; [rewrite Hout; f_equal; cbn [app]; f_equal; by rewrite <- app_assoc|].
  split; [done|]. split.
  { intros Hattachments Hembeds. revert Hcontent.
    unfold convertBotContent, whenNonEmpty. rewrite Hattachments, Hembeds.
    destruct (String.eqb_spec (Message.content message) EmptyString) as [|_]; [done|].
    cbn. destruct (String.eqb_spec (Message.content message) EmptyString) as [|_]; [done|].
    by intros [= <-]. }
  split; [done|]. intros i r Hr.
  destruct (lookup_lt_is_Some_2 (toolMessages calls results) i) as [m Hm].
  { rewrite Hlen1. by eapply lookup_lt_Some. }
  destruct (Hidx i m Hm) as (r1 & c & Hr1 & Hc & -> & Hone).
  assert (r1 = r) as -> by congruence.
  exists (call_id c). split; [done|]. split; [by apply Hone|].
  intros Hfunctions. rewrite (functionCallIds_all _ Hfunctions) in Hanswered.
  apply (f_equal (fun l => l !! i)) in Hanswered.
  rewrite !list_lookup_fmap, Hr, Hc in Hanswered. by injection Hanswered.
Qed.

End WithEnv.
End AssemblerFacts.

(** ** The chat-completion client *)
Module ClientFacts.
Import Spec Frame.

Section WithEnv.
Variable E : Env.

(** [generateResponse] makes exactly one request; it returns the first
    choice, and throws the sorted failure when the endpoint throws or gives
    no choice. *)
Lemma generateResponse_spec (service : AIService.t) (messages : list AIMessage)
    (p : Proc E) :
  AIService.generateResponse service messages p
  = (match (chatCompletionsCreate E (AIService.request service messages) (world p)).1 with
     | ApiChoices (Some completion) => Ok completion
     | ApiChoices None =>
         Throw (AIService.categorize (AIService.maxTokens service)
                  (newError "No completion received from AI"))
     | ApiThrows e => Throw (AIService.categorize (AIService.maxTokens service) e)
     end,
     afterRequest E service messages p).
Proof.
  unfold AIService.generateResponse, afterRequest, tryCatch, bind, record, ask. cbn.
  destruct (chatCompletionsCreate E _ (world p)) as [[e|[c|]] w]; reflexivity.
Qed.

Lemma halts_generateResponse service messages :
  Halts E (AIService.generateResponse service messages).
Proof.
  intros p. rewrite generateResponse_spec. cbn.
  by destruct (chatCompletionsCreate E _ _).1 as [e|[c|]].
Qed.

Lemma blind_generateResponse service messages :
  LedgerBlind E (AIService.generateResponse service messages).
Proof. intros p l. by rewrite !generateResponse_spec. Qed.

Lemma grows_generateResponse service messages :
  TraceGrows E (AIService.generateResponse service messages).
Proof. intros p. rewrite generateResponse_spec. by eexists. Qed.

Lemma requestCount_afterRequest service messages (p : Proc E) :
  requestCount E (afterRequest E service messages p) = S (requestCount E p).
Proof.
  unfold requestCount, afterRequest. cbn.
  rewrite List.filter_app, length_app. cbn. lia.
Qed.

(** An endpoint that always asks for tools makes [generateResponse] return
    a completion with at least one call. *)
Lemma generateResponse_tools service messages (p : Proc E) :
  alwaysRequestsTools E ->
  exists text call others,
    AIService.generateResponse service messages p
    = (Ok {| Completion.content := text;
             Completion.tool_calls := Some (call :: others) |},
       afterRequest E service messages p).
Proof.
  intros Halways. rewrite generateResponse_spec.
  destruct (Halways (AIService.request service messages) (world p))
    as (text & call & others & w' & ->).
  by eexists _, _, _.
Qed.

(** A failing endpoint makes [generateResponse] throw the sorted failure. *)
Lemma generateResponse_fails service messages (p : Proc E) e w :
  chatCompletionsCreate E (AIService.request service messages) (world p) = (ApiThrows e, w) ->
  AIService.generateResponse service messages p
  = (Throw (AIService.categorize (AIService.maxTokens service) e),
     afterRequest E service messages p).
Proof. intros Hfail. rewrite generateResponse_spec. by rewrite Hfail. Qed.

End WithEnv.
End ClientFacts.

(** ** The nested agent *)
Module AgentFacts.
Import Spec Frame ClientFacts OpenProjectAgent.

Section WithEnv.
Variable E : Env.

(** *** Tools whose bodies are outside the process *)

Lemma halts_externalTool name body args :
  Halts E (tool_execute (@externalTool E name body) args).
Proof. cbn. frame halts (@halts_bind E) (@halts_tryCatch E). Qed.

Lemma blind_externalTool name body args :
  LedgerBlind E (tool_execute (@externalTool E name body) args).
Proof. cbn. frame blind (@blind_bind E) (@blind_tryCatch E). Qed.

Lemma grows_externalTool name body args :
  TraceGrows E (tool_execute (@externalTool E name body) args).
Proof. cbn. frame grows (@grows_bind E) (@grows_tryCatch E). Qed.

(** The nested registry, as its constructor leaves it. *)
Lemma nested_tools :
  OpenProjectToolsRegistry.new E
  = [("list_projects", externalTool "list_projects" (listProjectsTool E));
     ("create_work_package", externalTool "create_work_package" (createWorkPackageTool E));
     ("list_work_packages", externalTool "list_work_packages" (listWorkPackagesTool E));
     ("assign_user", externalTool "assign_user" (assignUserTool E));
     ("search_users", externalTool "search_users" (searchUsersTool E));
     ("get_metadata", externalTool "get_metadata" (getMetadataTool E))].
Proof. reflexivity. Qed.

(** Every tool of the nested registry is a tool whose body is outside the
    process. *)
Lemma nested_tools_external (name : string) (tool : Tool E) :
  JsMap.get name (OpenProjectToolsRegistry.new E) = Some tool ->
  exists body, tool = externalTool name body.
Proof.
  rewrite nested_tools. cbn [JsMap.get].
  repeat match goal with
         | |- context [String.eqb ?key name] =>
             destruct (String.eqb_spec key name) as [<-|_]; [intros [= <-]; by eexists|]
         end.
  done.
Qed.

Lemma halts_executeTool name args :
  Halts E (OpenProjectToolsRegistry.executeTool (OpenProjectToolsRegistry.new E) name args).
Proof.
  unfold OpenProjectToolsRegistry.executeTool, executeToolIn.
  destruct (JsMap.get _ _) as [tool|] eqn:Hget; [|apply halts_throw].
  apply nested_tools_external in Hget as [body ->].
  apply halts_bind; [apply halts_record | intros; apply halts_externalTool].
Qed.

Lemma blind_executeTool name args :
  LedgerBlind E
    (OpenProjectToolsRegistry.executeTool (OpenProjectToolsRegistry.new E) name args).
Proof.
  unfold OpenProjectToolsRegistry.executeTool, executeToolIn.
  destruct (JsMap.get _ _) as [tool|] eqn:Hget; [|apply blind_throw].
  apply nested_tools_external in Hget as [body ->].
  apply blind_bind; [apply blind_record | intros; apply blind_externalTool].
Qed.

Lemma grows_executeTool name args :
  TraceGrows E
    (OpenProjectToolsRegistry.executeTool (OpenProjectToolsRegistry.new E) name args).
Proof.
  unfold OpenProjectToolsRegistry.executeTool, executeToolIn.
  destruct (JsMap.get _ _) as [tool|] eqn:Hget; [|apply grows_throw].
  apply nested_tools_external in Hget as [body ->].
  apply grows_bind; [apply grows_record | intros; apply grows_externalTool].
Qed.

Lemma halts_parseJson argsString : Halts E (@parseJson E argsString).
Proof. unfold parseJson. destruct (JSON_parse E _); [apply halts_throw | apply halts_ret]. Qed.

Lemma blind_parseJson argsString : LedgerBlind E (@parseJson E argsString).
Proof. unfold parseJson. destruct (JSON_parse E _); [apply blind_throw | apply blind_ret]. Qed.

Lemma grows_parseJson argsString : TraceGrows E (@parseJson E argsString).
Proof. unfold parseJson. destruct (JSON_parse E _); [apply grows_throw | apply grows_ret]. Qed.

(** *** The tool-execution step *)

Abbreviation nested := (OpenProjectToolsRegistry.new E).

Lemma halts_attempt toolResults id name argsString :
  Halts E (attempt E toolResults id name argsString).
Proof.
  apply halts_bind; [apply halts_parseJson|]. intros toolArgs.
  apply halts_bind; [apply halts_executeTool | intros; apply halts_ret].
Qed.

(** One round always returns, with one more result carrying the id of the
    call when the call is a function call, and with the results as they
    were otherwise. *)
Lemma executeToolCall_returns toolResults toolCall (p : Proc E) :
  exists added p',
    executeToolCall E nested toolResults toolCall p = (Ok (toolResults ++ added), p')
    /\ match toolCall with
       | FunctionToolCall id _ _ => exists text, added = [{| tool_call_id := id; content := text |}]
       | CustomToolCall _ _ _ => added = []
       end.
Proof.
  destruct toolCall as [id name argsString|id name input]; cbn [executeToolCall].
  2:{ exists [], p. by rewrite app_nil_r. }
  fold (attempt E toolResults id name argsString). unfold tryCatch.
  pose proof (halts_attempt toolResults id name argsString p) as Hhalt.
  destruct (attempt E toolResults id name argsString p) as [[r|e|] p'] eqn:Hrun; [| |done].
  - unfold attempt, bind in Hrun.
    destruct (parseJson argsString p) as [[toolArgs|?|] p1]; [|done..].
    destruct (OpenProjectToolsRegistry.executeTool _ _ _ _) as [[text|?|] p2]; [|done..].
    injection Hrun as <- <-. by eexists _, _; eauto.
  - by eexists _, _; eauto.
Qed.

Lemma executeToolCalls_returns toolResults calls (p : Proc E) :
  exists added p',
    executeToolCalls E nested toolResults calls p = (Ok (toolResults ++ added), p').
Proof.
  revert toolResults p. induction calls as [|toolCall rest IH]; intros toolResults p;
    cbn [executeToolCalls].
  - exists [], p. by rewrite app_nil_r.
  - destruct (executeToolCall_returns toolResults toolCall p) as (a1 & p1 & H1 & _).
    rewrite (bind_ok _ _ _ _ _ _ H1).
    destruct (IH (toolResults ++ a1) p1) as (a2 & p2 & H2).
    exists (a1 ++ a2), p2. by rewrite H2, app_assoc.
Qed.

Lemma blind_executeToolCall toolResults toolCall :
  LedgerBlind E (executeToolCall E nested toolResults toolCall).
Proof.
  pose proof blind_parseJson. pose proof blind_executeTool.
  unfold executeToolCall. frame blind (@blind_bind E) (@blind_tryCatch E).
Qed.

Lemma blind_executeToolCalls toolResults calls :
  LedgerBlind E (executeToolCalls E nested toolResults calls).
Proof.
  revert toolResults. induction calls as [|toolCall rest IH]; intros toolResults;
    cbn [executeToolCalls]; [apply blind_ret|].
  apply blind_bind; [apply blind_executeToolCall | intros; apply IH].
Qed.

Lemma grows_executeToolCall toolResults toolCall :
  TraceGrows E (executeToolCall E nested toolResults toolCall).
Proof.
  pose proof grows_parseJson. pose proof grows_executeTool.
  unfold executeToolCall. frame grows (@grows_bind E) (@grows_tryCatch E).
Qed.

Lemma grows_executeToolCalls toolResults calls :
  TraceGrows E (executeToolCalls E nested toolResults calls).
Proof.
  revert toolResults. induction calls as [|toolCall rest IH]; intros toolResults;
    cbn [executeToolCalls]; [apply grows_ret|].
  apply grows_bind; [apply grows_executeToolCall | intros; apply IH].
Qed.

(** *** A tool turn *)

Lemma toolTurn_ok task max_iterations s response calls (p p' : Proc E) toolResults :
  executeToolCalls E nested [] calls p = (Ok toolResults, p') ->
  toolTurn E nested task max_iterations s response calls p
  = (Ok (afterToolTurn task max_iterations s response calls toolResults), p').
Proof. intros Hrun. unfold toolTurn. by rewrite (bind_ok _ _ _ _ _ _ Hrun). Qed.

(** A tool turn always returns: no failure of a tool leaves it. *)
Lemma toolTurn_returns task max_iterations s response calls (p : Proc E) :
  exists toolResults p',
    executeToolCalls E nested [] calls p = (Ok toolResults, p')
    /\ toolTurn E nested task max_iterations s response calls p
       = (Ok (afterToolTurn task max_iterations s response calls toolResults), p').
Proof.
  destruct (executeToolCalls_returns [] calls p) as (toolResults & p' & Hrun).
  cbn [app] in Hrun. exists toolResults, p'. split; [done|].
  unfold toolTurn. by rewrite (bind_ok _ _ _ _ _ _ Hrun).
Qed.

Lemma blind_toolTurn task max_iterations s response calls :
  LedgerBlind E (toolTurn E nested task max_iterations s response calls).
Proof.
  unfold toolTurn. apply blind_bind; [apply blind_executeToolCalls | intros; apply blind_ret].
Qed.

Lemma grows_toolTurn task max_iterations s response calls :
  TraceGrows E (toolTurn E nested task max_iterations s response calls).
Proof.
  unfold toolTurn. apply grows_bind; [apply grows_executeToolCalls | intros; apply grows_ret].
Qed.

(** *** The loop *)

Lemma agentLoop_stop fuel service task max_iterations s (p : Proc E) :
  loopCondition max_iterations s = false ->
  agentLoop E fuel service nested task max_iterations s p = (Ok s, p).
Proof. intros Hcond. destruct fuel; cbn [agentLoop]; by rewrite Hcond. Qed.

Lemma agentLoop_round fuel service task max_iterations s (p : Proc E) :
  loopCondition max_iterations s = true ->
  agentLoop E (S fuel) service nested task max_iterations s p
  = bind (AIService.generateResponse service (messages s))
      (fun response =>
         match Completion.tool_calls response with
         | Some (toolCall :: others) =>
             let* s1 := toolTurn E nested task max_iterations s response
                          (toolCall :: others) in
             agentLoop E fuel service nested task max_iterations s1
         | _ =>
             ret {| messages := messages s;
                    iterationCount := iterationCount s + 1;
                    finalResponse :=
                      default "OpenProject task completed with no specific results."
                        (Completion.content response);
                    foundUserIdButNeedsList := foundUserIdButNeedsList s |}
         end) p.
Proof. intros Hcond. cbn [agentLoop]. by rewrite Hcond. Qed.

Lemma loopCondition_bound max_iterations s :
  loopCondition max_iterations s = true -> iterationCount s < max_iterations + 2.
Proof. unfold loopCondition. destruct (foundUserIdButNeedsList s); cbn; lia. Qed.

Lemma blind_agentLoop fuel service task max_iterations s :
  LedgerBlind E (agentLoop E fuel service nested task max_iterations s).
Proof.
  revert s. induction fuel as [|fuel IH]; intros s; cbn [agentLoop];
    destruct (loopCondition _ _); try apply blind_ret; [apply blind_out_of_fuel|].
  apply blind_bind; [apply blind_generateResponse|]. intros response.
  destruct (Completion.tool_calls response) as [[|toolCall others]|]; try apply blind_ret.
  apply blind_bind; [apply blind_toolTurn | intros; apply IH].
Qed.

Lemma grows_agentLoop fuel service task max_iterations s :
  TraceGrows E (agentLoop E fuel service nested task max_iterations s).
Proof.
  revert s. induction fuel as [|fuel IH]; intros s; cbn [agentLoop];
    destruct (loopCondition _ _); try apply grows_ret; [apply grows_out_of_fuel|].
  apply grows_bind; [apply grows_generateResponse|]. intros response.
  destruct (Completion.tool_calls response) as [[|toolCall others]|]; try apply grows_ret.
  apply grows_bind; [apply grows_toolTurn | intros; apply IH].
Qed.

(** The loop ends, for every endpoint, once it is granted as many rounds as
    the counter is away from the budget plus two. *)
Lemma agentLoop_halts fuel service task max_iterations s (p : Proc E) :
  (Z.to_nat (max_iterations + 2 - iterationCount s) <= fuel)%nat ->
  (agentLoop E fuel service nested task max_iterations s p).1 <> OutOfFuel.
Proof.
  revert s p. induction fuel as [|fuel IH]; intros s p Hfuel.
  - destruct (loopCondition max_iterations s) eqn:Hcond.
    + apply loopCondition_bound in Hcond. lia.
    + by rewrite agentLoop_stop.
  - destruct (loopCondition max_iterations s) eqn:Hcond; [|by rewrite agentLoop_stop].
    rewrite agentLoop_round by done. unfold bind at 1.
    pose proof (halts_generateResponse E service (messages s) p) as Hgen.
    destruct (AIService.generateResponse service (messages s) p) as [[response|e|] p1];
      [|done..].
    destruct (Completion.tool_calls response) as [[|toolCall others]|]; [done| |done].
    destruct (toolTurn_returns task max_iterations s response (toolCall :: others) p1)
      as (toolResults & p2 & _ & Hturn).
    rewrite (bind_ok _ _ _ _ _ _ Hturn). apply IH. cbn. lia.
Qed.

(** Against an endpoint that always asks for tools the loop runs until its
    condition fails; the counter ends within the budget plus two and no text
    has been set. *)
Lemma agentLoop_always_tools fuel service task max_iterations s (p : Proc E) :
  alwaysRequestsTools E ->
  (Z.to_nat (max_iterations + 2 - iterationCount s) <= fuel)%nat ->
  exists s' p',
    agentLoop E fuel service nested task max_iterations s p = (Ok s', p')
    /\ loopCondition max_iterations s' = false
    /\ iterationCount s <= iterationCount s'
    /\ iterationCount s' <= Z.max (iterationCount s) (max_iterations + 2)
    /\ finalResponse s' = finalResponse s.
Proof.
  intros Halways. revert s p. induction fuel as [|fuel IH]; intros s p Hfuel.
  - destruct (loopCondition max_iterations s) eqn:Hcond.
    + apply loopCondition_bound in Hcond. lia.
    + exists s, p. rewrite agentLoop_stop by done. repeat split; try done; lia.
  - destruct (loopCondition max_iterations s) eqn:Hcond.
    2:{ exists s, p. rewrite agentLoop_stop by done. repeat split; try done; lia. }
    rewrite agentLoop_round by done.
    destruct (generateResponse_tools E service (messages s) p Halways)
      as (text & call & others & Hgen).
    rewrite (bind_ok _ _ _ _ _ _ Hgen). cbn [Completion.tool_calls].
    destruct (toolTurn_returns task max_iterations s
                {| Completion.content := text;
                   Completion.tool_calls := Some (call :: others) |}
                (call :: others) (afterRequest E service (messages s) p))
      as (toolResults & p2 & _ & Hturn).
    rewrite (bind_ok _ _ _ _ _ _ Hturn).
    apply loopCondition_bound in Hcond.
    edestruct IH as (s' & p' & Hrun & Hstop & Hle & Hmax & Hfinal); [|].
    2:{ exists s', p'. split; [exact Hrun|]. cbn in *. repeat split; try done; lia. }
    cbn. lia.
Qed.

(** The text that [execute] returns is never empty. *)
Lemma resultText_nonempty s : resultText E nested s <> EmptyString.
Proof. unfold resultText. discriminate. Qed.

(** C3.  For a budget N >= 0 and an endpoint that answers every request
    with at least one tool call, the nested agent ends: given N + 2 rounds
    the loop returns, its counter, which starts at 0 and only grows, is at
    most N + 2 at the end, and [execute] returns a non-empty text. *)
Theorem always_tools_budget_boundary (fuel : nat) (options : OpenProjectAgentOptions)
    (p : Proc E) :
  let N := default 5 (max_iterations options) in
  0 <= N ->
  alwaysRequestsTools E ->
  (Z.to_nat (N + 2) <= fuel)%nat ->
  exists s p',
    runAgent E fuel (agentService E (task options) (context options) N nested) nested
      (task options) (context options) N p = (Ok s, p')
    /\ 0 <= iterationCount s <= N + 2
    /\ execute E fuel options p = (Ok (resultText E nested s), p')
    /\ resultText E nested s <> EmptyString.
Proof.
  intros N HN Halways Hfuel.
  set (service := agentService E (task options) (context options) N nested).
  set (s0 := {| messages := initialMessages (task options) (context options);
                iterationCount := 0;
                finalResponse := EmptyString;
                foundUserIdButNeedsList := false |}).
  destruct (agentLoop_always_tools fuel service (task options) N s0 p Halways)
    as (s1 & p1 & Hloop & Hstop & Hle & Hmax & Hfinal); [cbn; lia|].
  cbn [iterationCount s0] in Hle, Hmax.
  assert (exists s p',
             runAgent E fuel service nested (task options) (context options) N p = (Ok s, p')
             /\ iterationCount s = iterationCount s1) as (s & p' & Hrun & Hcount).
  { unfold runAgent. fold s0. rewrite (bind_ok _ _ _ _ _ _ Hloop). unfold finalRequest.
    destruct (_ && _); [|by eexists _, _].
    destruct (generateResponse_tools E service (messages s1) p1 Halways)
      as (text & call & others & Hgen).
    rewrite (bind_ok _ _ _ _ _ _ Hgen). by eexists _, _. }
  exists s, p'. split; [done|]. split; [lia|]. split; [|apply resultText_nonempty].
  unfold execute, tryCatch. fold N. fold service. by rewrite (bind_ok _ _ _ _ _ _ Hrun).
Qed.

(** *** The end of the budget *)

(** The request after the loop, when it is due. *)
Lemma finalRequest_due service max_iterations s (p : Proc E) :
  finalResponse s = EmptyString ->
  max_iterations <= iterationCount s ->
  finalRequest E service max_iterations s p
  = bind (AIService.generateResponse service (messages s))
      (fun finalResponseResult =>
         ret {| messages := messages s;
                iterationCount := iterationCount s;
                finalResponse :=
                  default "OpenProject task completed after maximum iterations."
                    (Completion.content finalResponseResult);
                foundUserIdButNeedsList := foundUserIdButNeedsList s |}) p.
Proof.
  intros Hfinal Hcount. unfold finalRequest. rewrite Hfinal. cbn.
  by destruct (Z.leb_spec max_iterations (iterationCount s)); [|lia].
Qed.

(** C4, as amended.  When a tool turn brings the counter to the budget N
    with the identifier heuristic not fired, or to N + 2, the loop appends
    one user message asking for the final summary and runs no further
    iteration; after the loop exactly one more completion is requested, on
    the messages ending with that instruction, and its text, or the generic
    completion notice when it has none, becomes the final response. *)
Theorem summary_then_one_request (fuel : nat) (service : AIService.t) (task : string)
    (N : Z) (s : LoopState) (p p1 p2 : Proc E) (response : Completion.t)
    (toolCall : ToolCall) (others : list ToolCall)
    (toolResults : list AgentToolResult) :
  loopCondition N s = true ->
  finalResponse s = EmptyString ->
  AIService.generateResponse service (messages s) p = (Ok response, p1) ->
  Completion.tool_calls response = Some (toolCall :: others) ->
  executeToolCalls E nested [] (toolCall :: others) p1 = (Ok toolResults, p2) ->
  let s1 := afterToolTurn task N s response (toolCall :: others) toolResults in
  (iterationCount s1 = N /\ foundUserIdButNeedsList s1 = false)
  \/ iterationCount s1 = N + 2 ->
  messages s1
  = (messages s ++ [AssistantMessage (Completion.content response)
                      (Some (toolCall :: others))])
    ++ (asMessage <$> toolResults) ++ [summaryRequest]
  /\ agentLoop E (S fuel) service nested task N s p = (Ok s1, p2)
  /\ (let* s' := agentLoop E (S fuel) service nested task N s in
      finalRequest E service N s') p
     = (let* finalResponseResult := AIService.generateResponse service (messages s1) in
        ret {| messages := messages s1;
               iterationCount := iterationCount s1;
               finalResponse :=
                 default "OpenProject task completed after maximum iterations."
                   (Completion.content finalResponseResult);
               foundUserIdButNeedsList := foundUserIdButNeedsList s1 |}) p2
  /\ requestCount E
       ((let* s' := agentLoop E (S fuel) service nested task N s in
         finalRequest E service N s') p).2
     = S (requestCount E p2).
Proof.
  intros Hcond Hfinal Hgen Hcalls Hexec s1 Hdue.
  assert (loopCondition N s1 = false) as Hstop.
  { unfold loopCondition. destruct Hdue as [[-> ->]| ->]; cbn.
    - apply orb_false_iff. split; [lia | done].
    - apply orb_false_iff. split; [lia|]. apply andb_false_iff. right. lia. }
  assert (agentLoop E (S fuel) service nested task N s p = (Ok s1, p2)) as Hloop.
  { rewrite agentLoop_round by done. rewrite (bind_ok _ _ _ _ _ _ Hgen), Hcalls.
    rewrite (bind_ok _ _ _ _ _ _ (toolTurn_ok task N s response _ _ _ _ Hexec)).
    by apply agentLoop_stop. }
  assert (N <= iterationCount s1) as Hreached by (destruct Hdue as [[-> _]| ->]; lia).
  split.
  { subst s1. unfold afterToolTurn, summaryIfDue. cbn [messages iterationCount].
    cbn [iterationCount foundUserIdButNeedsList afterToolTurn] in Hdue.
    destruct Hdue as [[-> ->]| ->].
    - by rewrite Z.eqb_refl.
    - rewrite Z.eqb_refl. by destruct (_ && _). }
  split; [done|].
  assert ((let* s' := agentLoop E (S fuel) service nested task N s in
           finalRequest E service N s') p
          = bind (AIService.generateResponse service (messages s1))
              (fun finalResponseResult =>
                 ret {| messages := messages s1;
                        iterationCount := iterationCount s1;
                        finalResponse :=
                          default "OpenProject task completed after maximum iterations."
                            (Completion.content finalResponseResult);
                        foundUserIdButNeedsList := foundUserIdButNeedsList s1 |}) p2)
    as Hrest.
  { rewrite (bind_ok _ _ _ _ _ _ Hloop). by apply finalRequest_due. }
  split; [done|].
  rewrite Hrest. unfold bind. rewrite generateResponse_spec.
  destruct (chatCompletionsCreate E _ _).1 as [e|[c|]]; cbn [snd];
    apply requestCount_afterRequest.
Qed.

(** *** Failures of tools *)

Lemma parseJson_ok argsString v (p : Proc E) :
  JSON_parse E argsString = inr v -> parseJson argsString p = (Ok v, p).
Proof. intros Hparse. unfold parseJson. by rewrite Hparse. Qed.

Lemma parseJson_fails argsString msg (p : Proc E) :
  JSON_parse E argsString = inl msg -> parseJson argsString p = (Throw (newError msg), p).
Proof. intros Hparse. unfold parseJson. by rewrite Hparse. Qed.

Lemma executeToolCall_catches toolResults id name argsString e (p p' : Proc E) :
  attempt E toolResults id name argsString p = (Throw e, p') ->
  executeToolCall E nested toolResults (FunctionToolCall id name argsString) p
  = (Ok (toolResults ++ [errorResult id name e]), p').
Proof.
  intros Hthrow. cbn [executeToolCall]. fold (attempt E toolResults id name argsString).
  by rewrite (tryCatch_throw _ _ _ _ _ _ Hthrow).
Qed.

Lemma executeToolCall_parse_failure toolResults id name argsString msg (p : Proc E) :
  JSON_parse E argsString = inl msg ->
  executeToolCall E nested toolResults (FunctionToolCall id name argsString) p
  = (Ok (toolResults ++ [errorResult id name (newError msg)]), p).
Proof.
  intros Hparse. apply executeToolCall_catches. unfold attempt.
  by rewrite (bind_throw _ _ _ _ _ _ (parseJson_fails _ _ _ Hparse)).
Qed.

Lemma executeToolCall_missing_tool toolResults id name argsString v (p : Proc E) :
  JSON_parse E argsString = inr v ->
  JsMap.get name nested = None ->
  executeToolCall E nested toolResults (FunctionToolCall id name argsString) p
  = (Ok (toolResults
         ++ [errorResult id name (newError ("OpenProject tool not found: " +:+ name))]),
     p).
Proof.
  intros Hparse Hget. apply executeToolCall_catches. unfold attempt.
  rewrite (bind_ok _ _ _ _ _ _ (parseJson_ok _ _ _ Hparse)).
  apply bind_throw. unfold OpenProjectToolsRegistry.executeTool, executeToolIn.
  by rewrite Hget.
Qed.

Lemma executeToolCall_tool_throws toolResults id name argsString v tool e
    (p p' : Proc E) :
  JSON_parse E argsString = inr v ->
  JsMap.get name nested = Some tool ->
  tool_execute tool v (set_trace (trace p ++ [Executed name]) p) = (Throw e, p') ->
  executeToolCall E nested toolResults (FunctionToolCall id name argsString) p
  = (Ok (toolResults ++ [errorResult id name e]), p').
Proof.
  intros Hparse Hget Hthrow. apply executeToolCall_catches. unfold attempt.
  rewrite (bind_ok _ _ _ _ _ _ (parseJson_ok _ _ _ Hparse)).
  apply bind_throw. unfold OpenProjectToolsRegistry.executeTool, executeToolIn.
  rewrite Hget. unfold bind, record. by rewrite Hthrow.
Qed.

(** The results of a tool-execution step answer the function calls of the
    turn, one for one and in order. *)
Lemma executeToolCalls_ids toolResults calls (p : Proc E) :
  exists added p',
    executeToolCalls E nested toolResults calls p = (Ok (toolResults ++ added), p')
    /\ tool_call_id <$> added = functionCallIds calls.
Proof.
  revert toolResults p. induction calls as [|toolCall rest IH]; intros toolResults p;
    cbn [executeToolCalls].
  - exists [], p. by rewrite app_nil_r.
  - destruct (executeToolCall_returns toolResults toolCall p) as (a1 & p1 & H1 & Ha1).
    rewrite (bind_ok _ _ _ _ _ _ H1).
    destruct (IH (toolResults ++ a1) p1) as (a2 & p2 & H2 & Ha2).
    exists (a1 ++ a2), p2. rewrite H2, app_assoc. split; [done|].
    rewrite fmap_app, Ha2. unfold functionCallIds. cbn [omap list_omap].
    destruct toolCall; [destruct Ha1 as [text ->] | subst a1]; done.
Qed.

(** After a tool turn the next thing the agent does is to request a
    completion on the messages that now hold the results. *)
Lemma request_follows_tool_turn fuel service task max_iterations s1 (p2 : Proc E) :
  finalResponse s1 = EmptyString ->
  (Z.to_nat (max_iterations + 2 - iterationCount s1) <= fuel)%nat ->
  exists t,
    trace ((let* s' := agentLoop E fuel service nested task max_iterations s1 in
            finalRequest E service max_iterations s') p2).2
    = trace p2 ++ Requested (AIService.request service (messages s1)) :: t.
Proof.
  intros Hfinal Hfuel.
  assert (forall (k : Completion.t -> M E LoopState),
             (forall r, TraceGrows E (k r)) ->
             exists t,
               trace (bind (AIService.generateResponse service (messages s1)) k p2).2
               = trace p2 ++ Requested (AIService.request service (messages s1)) :: t)
    as Hnext.
  { intros k Hk. unfold bind. rewrite generateResponse_spec.
    destruct (chatCompletionsCreate E _ _).1 as [e|[c|]]; cbn [fst snd].
    - by exists [].
    - destruct (Hk c (afterRequest E service (messages s1) p2)) as [t ->].
      exists t. cbn. by rewrite <- app_assoc.
    - by exists []. }
  destruct (loopCondition max_iterations s1) eqn:Hcond.
  - pose proof (loopCondition_bound _ _ Hcond).
    destruct fuel as [|fuel]; [lia|].
    assert (forall p, (let* s' := agentLoop E (S fuel) service nested task max_iterations s1 in
                       finalRequest E service max_iterations s') p
                      = bind (AIService.generateResponse service (messages s1))
                          (fun response =>
                             let* s' :=
                               match Completion.tool_calls response with
                               | Some (toolCall :: others) =>
                                   let* s2 := toolTurn E nested task max_iterations s1
                                                response (toolCall :: others) in
                                   agentLoop E fuel service nested task max_iterations s2
                               | _ =>
                                   ret {| messages := messages s1;
                                          iterationCount := iterationCount s1 + 1;
                                          finalResponse :=
                                            default
                                              "OpenProject task completed with no specific results."
                                              (Completion.content response);
                                          foundUserIdButNeedsList :=
                                            foundUserIdButNeedsList s1 |}
                               end in
                             finalRequest E service max_iterations s') p) as ->.
    { intros p. rewrite <- bind_assoc. unfold bind at 1 3.
      by rewrite agentLoop_round. }
    apply Hnext. intros r.
    assert (forall s', TraceGrows E (finalRequest E service max_iterations s')) as Hfinish.
    { intros s'. unfold finalRequest. destruct (_ && _); [|apply grows_ret].
      apply grows_bind; [apply grows_generateResponse | intros; apply grows_ret]. }
    apply grows_bind; [|done].
    destruct (Completion.tool_calls r) as [[|toolCall others]|]; try apply grows_ret.
    apply grows_bind; [apply grows_toolTurn | intros; apply grows_agentLoop].
  - rewrite (bind_ok _ _ _ _ _ _ (agentLoop_stop fuel service task _ _ p2 Hcond)).
    rewrite finalRequest_due; [|done|].
    + apply Hnext. intros; apply grows_ret.
    + unfold loopCondition in Hcond. apply orb_false_iff in Hcond as [Hlt _]. lia.
Qed.

(** *** Failures of the endpoint *)

(** A failing request ends the loop on the spot: the sorted failure is
    thrown and nothing happens after the request. *)
Lemma agentLoop_aborts fuel service task max_iterations s (p : Proc E) e w :
  loopCondition max_iterations s = true ->
  chatCompletionsCreate E (AIService.request service (messages s)) (world p)
  = (ApiThrows e, w) ->
  agentLoop E (S fuel) service nested task max_iterations s p
  = (Throw (AIService.categorize (AIService.maxTokens service) e),
     afterRequest E service (messages s) p).
Proof.
  intros Hcond Hfail. rewrite agentLoop_round by done.
  apply bind_throw. by eapply generateResponse_fails.
Qed.

(** Whatever the run throws, [execute] turns it into its error text. *)
Lemma execute_reports fuel options (p p' : Proc E) err :
  runAgent E fuel
    (agentService E (task options) (context options)
       (default 5 (max_iterations options)) nested)
    nested (task options) (context options) (default 5 (max_iterations options)) p
  = (Throw err, p') ->
  execute E fuel options p
  = (Ok ("OpenProject Agent encountered an error: " +:+ errorText err), p').
Proof.
  intros Hrun. unfold execute.
  erewrite tryCatch_throw; [done|]. by apply bind_throw.
Qed.

(** *** The frame of a run of the nested agent *)

Lemma blind_finalRequest service max_iterations s :
  LedgerBlind E (finalRequest E service max_iterations s).
Proof.
  unfold finalRequest. destruct (_ && _); [|apply blind_ret].
  apply blind_bind; [apply blind_generateResponse | intros; apply blind_ret].
Qed.

Lemma grows_finalRequest service max_iterations s :
  TraceGrows E (finalRequest E service max_iterations s).
Proof.
  unfold finalRequest. destruct (_ && _); [|apply grows_ret].
  apply grows_bind; [apply grows_generateResponse | intros; apply grows_ret].
Qed.

Lemma halts_finalRequest service max_iterations s :
  Halts E (finalRequest E service max_iterations s).
Proof.
  unfold finalRequest. destruct (_ && _); [|apply halts_ret].
  apply halts_bind; [apply halts_generateResponse | intros; apply halts_ret].
Qed.

(** A run of the nested agent neither reads nor writes the ledger. *)
Lemma blind_execute fuel options : LedgerBlind E (execute E fuel options).
Proof.
  unfold execute, runAgent.
  apply blind_tryCatch; [|intros; apply blind_ret].
  apply blind_bind; [|intros; apply blind_ret].
  apply blind_bind; [apply blind_agentLoop | intros; apply blind_finalRequest].
Qed.

Lemma grows_execute fuel options : TraceGrows E (execute E fuel options).
Proof.
  unfold execute, runAgent.
  apply grows_tryCatch; [|intros; apply grows_ret].
  apply grows_bind; [|intros; apply grows_ret].
  apply grows_bind; [apply grows_agentLoop | intros; apply grows_finalRequest].
Qed.

(** Given the budget plus two rounds, [execute] returns a text whatever the
    endpoint and the tools do. *)
Lemma execute_returns fuel options (p : Proc E) :
  (Z.to_nat (default 5 (max_iterations options) + 2)%Z <= fuel)%nat ->
  exists text p', execute E fuel options p = (Ok text, p').
Proof.
  intros Hfuel. unfold execute.
  set (N := default 5 (max_iterations options)) in *.
  set (service := agentService E (task options) (context options) N nested).
  assert ((runAgent E fuel service nested (task options) (context options) N p).1
          <> OutOfFuel) as Hhalt.
  { unfold runAgent, bind.
    match goal with
    | |- context [agentLoop E fuel service nested ?t N ?s0 p] =>
        pose proof (agentLoop_halts fuel service t N s0 p) as Hloop;
        destruct (agentLoop E fuel service nested t N s0 p) as [[s1|e|] p1]
    end; cbn in *; [apply halts_finalRequest | done | apply Hloop; lia]. }
  unfold tryCatch, bind at 1.
  destruct (runAgent E fuel service nested (task options) (context options) N p)
    as [[s|e|] p']; cbn in *; [by eexists _, _ | by eexists _, _ | done].
Qed.

End WithEnv.
End AgentFacts.

(** ** The outer pipeline *)
Module PipelineFacts.
Import Spec Frame ClientFacts AgentFacts MessageHandler.

(** *** The sentences for the user *)

Lemma append_cons (c : ascii) (a b : string) : String c a +:+ b = String c (a +:+ b).
Proof. reflexivity. Qed.

Lemma prefix_app (pat a b : string) :
  String.prefix pat a = true -> String.prefix pat (a +:+ b) = true.
Proof.
  revert pat. induction a as [|c' a IH]; intros pat Hpre.
  - destruct pat; [by destruct b | done].
  - destruct pat as [|c pat]; [done|]. rewrite append_cons. cbn in *.
    destruct (Ascii.ascii_dec c c'); [by apply IH | done].
Qed.

Lemma includes_app (a b pat : string) :
  JS.includes a pat = true -> JS.includes (a +:+ b) pat = true.
Proof.
  induction a as [|c a IH]; cbn [JS.includes].
  - rewrite orb_false_r. intros Hpre. destruct pat; [by destruct b | done].
  - rewrite append_cons. cbn [JS.includes]. rewrite <- append_cons.
    intros [Hpre|Hrest]%orb_true_iff; apply orb_true_iff.
    + left. by apply (prefix_app pat (String c a) b).
    + right. by apply IH.
Qed.

Lemma toLowerCase_app (a b : string) :
  JS.toLowerCase (a +:+ b) = JS.toLowerCase a +:+ JS.toLowerCase b.
Proof.
  induction a as [|c a IH]; [done|]. rewrite append_cons. cbn [JS.toLowerCase].
  by rewrite IH.
Qed.

(** The failure sorted by [generateResponse] is answered with the sentence
    of its category. *)
Lemma category_sentences (maxTokens status : Z) (e : Thrown.t) :
  Thrown.status e = Some status ->
  (status = 402 ->
   getErrorMessage (AIService.categorize maxTokens e)
   = "Sorry, I'm currently experiencing credit limitations. Please try again later.")
  /\ (status = 429 ->
      getErrorMessage (AIService.categorize maxTokens e)
      = "Sorry, I'm being rate limited. Please wait a moment and try again.")
  /\ (status = 401 ->
      getErrorMessage (AIService.categorize maxTokens e)
      = "Sorry, there's a configuration issue with my AI service. Please contact the administrator.")
  /\ (500 <= status ->
      getErrorMessage (AIService.categorize maxTokens e)
      = "Sorry, the AI service is temporarily unavailable. Please try again later.").
Proof.
  intros Hstatus. unfold AIService.categorize. rewrite Hstatus.
  repeat split.
  - intros ->. cbn [Z.eqb Pos.eqb]. unfold getErrorMessage, newError. cbn [Thrown.message].
    rewrite toLowerCase_app, includes_app; [done | reflexivity].
  - by intros ->.
  - by intros ->.
  - intros Hge.
    destruct (Z.eqb_spec status 402); [lia|]. destruct (Z.eqb_spec status 429); [lia|].
    destruct (Z.eqb_spec status 401); [lia|]. destruct (Z.leb_spec 500 status); [done | lia].
Qed.

(** The text that the nested agent reports for a sorted failure is the
    sentence [generateResponse] chose. *)
Lemma errorText_categorize (maxTokens : Z) (e : Thrown.t) :
  OpenProjectAgent.errorText (AIService.categorize maxTokens e)
  = Thrown.message (AIService.categorize maxTokens e).
Proof.
  unfold AIService.categorize.
  destruct (Thrown.status e) as [status|]; [|done].
  by repeat case_match.
Qed.

Section WithEnv.
Variable E : Env.
Variable fuel : nat.

Abbreviation outer := (ToolsRegistry.new E fuel).
Abbreviation nested := (OpenProjectToolsRegistry.new E).

(** *** Tool execution in the outer turn *)

(** The global registry, as its constructor leaves it. *)
Lemma outer_tools :
  outer = [("get_date_time", externalTool "get_date_time" (dateTimeTool E));
           ("openproject_agent", OpenProjectAgent.openProjectAgentTool E fuel)].
Proof. reflexivity. Qed.

Lemma blind_outer_executeTool name args :
  LedgerBlind E (ToolsRegistry.executeTool outer name args).
Proof.
  unfold ToolsRegistry.executeTool, executeToolIn. rewrite outer_tools. cbn [JsMap.get].
  destruct (String.eqb _ name).
  { apply blind_bind; [apply blind_record | intros; apply blind_externalTool]. }
  destruct (String.eqb _ name); [|apply blind_throw].
  apply blind_bind; [apply blind_record | intros; apply blind_execute].
Qed.

Lemma grows_outer_executeTool name args :
  TraceGrows E (ToolsRegistry.executeTool outer name args).
Proof.
  unfold ToolsRegistry.executeTool, executeToolIn. rewrite outer_tools. cbn [JsMap.get].
  destruct (String.eqb _ name).
  { apply grows_bind; [apply grows_record | intros; apply grows_externalTool]. }
  destruct (String.eqb _ name); [|apply grows_throw].
  apply grows_bind; [apply grows_record | intros; apply grows_execute].
Qed.

Lemma processToolCall_catches executeTool results id name argsString e (p p' : Proc E) :
  outerAttempt E executeTool results id name argsString p = (Throw e, p') ->
  AIService.processToolCall executeTool results (FunctionToolCall id name argsString) p
  = (Ok (results ++ [outerErrorResult id name]), p').
Proof.
  intros Hthrow. cbn [AIService.processToolCall].
  fold (outerAttempt E executeTool results id name argsString).
  by rewrite (tryCatch_throw _ _ _ _ _ _ Hthrow).
Qed.

Lemma processToolCall_parse_failure results id name argsString msg (p : Proc E) :
  JSON_parse E argsString = inl msg ->
  AIService.processToolCall (ToolsRegistry.executeTool outer) results
    (FunctionToolCall id name argsString) p
  = (Ok (results ++ [outerErrorResult id name]), p).
Proof.
  intros Hparse. eapply processToolCall_catches. unfold outerAttempt.
  by rewrite (bind_throw _ _ _ _ _ _ (parseJson_fails E _ _ _ Hparse)).
Qed.

Lemma processToolCall_missing_tool results id name argsString v (p : Proc E) :
  JSON_parse E argsString = inr v ->
  JsMap.get name outer = None ->
  AIService.processToolCall (ToolsRegistry.executeTool outer) results
    (FunctionToolCall id name argsString) p
  = (Ok (results ++ [outerErrorResult id name]), p).
Proof.
  intros Hparse Hget. eapply processToolCall_catches. unfold outerAttempt.
  rewrite (bind_ok _ _ _ _ _ _ (parseJson_ok E _ _ _ Hparse)).
  apply bind_throw. unfold ToolsRegistry.executeTool, executeToolIn.
  by rewrite Hget.
Qed.

Lemma processToolCall_tool_throws results id name argsString v tool e (p p' : Proc E) :
  JSON_parse E argsString = inr v ->
  JsMap.get name outer = Some tool ->
  tool_execute tool v (set_trace (trace p ++ [Executed name]) p) = (Throw e, p') ->
  AIService.processToolCall (ToolsRegistry.executeTool outer) results
    (FunctionToolCall id name argsString) p
  = (Ok (results ++ [outerErrorResult id name]), p').
Proof.
  intros Hparse Hget Hthrow. eapply processToolCall_catches. unfold outerAttempt.
  rewrite (bind_ok _ _ _ _ _ _ (parseJson_ok E _ _ _ Hparse)).
  apply bind_throw. unfold ToolsRegistry.executeTool, executeToolIn.
  rewrite Hget. unfold bind, record. by rewrite Hthrow.
Qed.

(** No thrown value leaves [processToolCalls], and what it returns answers
    the function calls one for one and in order. *)
Lemma processToolCall_result executeTool results call (p : Proc E) :
  match AIService.processToolCall executeTool results call p with
  | (Ok out, _) =>
      exists added,
        out = results ++ added
        /\ ToolResult.tool_call_id <$> added = functionCallIds [call]
  | (Throw _, _) => False
  | (OutOfFuel, _) => True
  end.
Proof.
  destruct call as [id name argsString|id name input]; cbn [AIService.processToolCall].
  2:{ exists []. by rewrite app_nil_r. }
  fold (outerAttempt E executeTool results id name argsString). unfold tryCatch.
  destruct (outerAttempt E executeTool results id name argsString p) as [[r|e|] p'] eqn:Hrun;
    [|by eexists|done].
  unfold outerAttempt, bind in Hrun.
  destruct (parseJson argsString p) as [[args|?|] p1]; [|done..].
  destruct (executeTool name args p1) as [[text|?|] p2]; [|done..].
  injection Hrun as <- <-. by eexists.
Qed.

Lemma processToolCallsFrom_result executeTool results calls (p : Proc E) :
  match AIService.processToolCallsFrom executeTool results calls p with
  | (Ok out, _) =>
      exists added,
        out = results ++ added
        /\ ToolResult.tool_call_id <$> added = functionCallIds calls
  | (Throw _, _) => False
  | (OutOfFuel, _) => True
  end.
Proof.
  revert results p. induction calls as [|call rest IH]; intros results p;
    cbn [AIService.processToolCallsFrom].
  - exists []. by rewrite app_nil_r.
  - unfold bind. pose proof (processToolCall_result executeTool results call p) as H1.
    destruct (AIService.processToolCall executeTool results call p) as [[r1|e|] p1];
      [|done..].
    destruct H1 as (a1 & -> & Ha1). specialize (IH (results ++ a1) p1).
    destruct (AIService.processToolCallsFrom executeTool (results ++ a1) rest p1)
      as [[out|e|] p2]; [|done..].
    destruct IH as (a2 & -> & Ha2). exists (a1 ++ a2). split; [by rewrite app_assoc|].
    rewrite fmap_app, Ha1, Ha2. unfold functionCallIds. cbn [omap list_omap].
    by destruct call.
Qed.

Lemma blind_processToolCalls calls :
  LedgerBlind E (AIService.processToolCalls (ToolsRegistry.executeTool outer) calls).
Proof.
  destruct calls as [calls|]; [|apply blind_ret]. cbn [AIService.processToolCalls].
  generalize (@nil ToolResult.t). induction calls as [|call rest IH]; intros results;
    cbn [AIService.processToolCallsFrom]; [apply blind_ret|].
  apply blind_bind; [|intros; apply IH].
  pose proof blind_outer_executeTool. pose proof (blind_parseJson E).
  unfold AIService.processToolCall. frame blind (@blind_bind E) (@blind_tryCatch E).
Qed.

Lemma grows_processToolCalls calls :
  TraceGrows E (AIService.processToolCalls (ToolsRegistry.executeTool outer) calls).
Proof.
  destruct calls as [calls|]; [|apply grows_ret]. cbn [AIService.processToolCalls].
  generalize (@nil ToolResult.t). induction calls as [|call rest IH]; intros results;
    cbn [AIService.processToolCallsFrom]; [apply grows_ret|].
  apply grows_bind; [|intros; apply IH].
  pose proof grows_outer_executeTool. pose proof (grows_parseJson E).
  unfold AIService.processToolCall. frame grows (@grows_bind E) (@grows_tryCatch E).
Qed.

Lemma blind_handleToolCalls aiService aiMessages response calls :
  LedgerBlind E (handleToolCalls E fuel aiService aiMessages response calls).
Proof.
  unfold handleToolCalls. apply blind_bind; [apply blind_processToolCalls|]. intros results.
  apply blind_bind; [apply blind_generateResponse | intros; apply blind_ret].
Qed.

(** What [handleToolCalls] hands on: the calls of the outer turn, as they
    came, with results that answer them. *)
Lemma handleToolCalls_result aiService aiMessages response calls (p : Proc E) r :
  (handleToolCalls E fuel aiService aiMessages response calls p).1 = Ok r ->
  exists text results,
    r = ToolResponse text calls results
    /\ ToolResult.tool_call_id <$> results = functionCallIds calls.
Proof.
  unfold handleToolCalls, bind at 1. cbn [AIService.processToolCalls].
  pose proof (processToolCallsFrom_result (ToolsRegistry.executeTool outer) [] calls p) as H1.
  destruct (AIService.processToolCallsFrom _ [] calls p) as [[results|e|] p1]; [|done..].
  destruct H1 as (added & -> & Hids). cbn [app]. unfold bind.
  destruct (AIService.generateResponse _ _ p1) as [[followUp|e|] p2]; [|done..].
  cbn. intros [= <-]. by eexists _, _.
Qed.

(** A delivered tool response is stored under the message that was sent. *)
Lemma sendResponse_stores message text calls results (p : Proc E) sent w :
  sendSplitMessage E text message (world p) = (inr (Some sent), w) ->
  sendResponse E message (ToolResponse text calls results) p
  = (Ok tt,
     set_ledger (ToolCallsStore.storeToolCallsForMessage sent calls results (ledger p))
       (set_world w p)).
Proof.
  intros Hsent. unfold sendResponse, sendSplit, bind, ask. cbn [responseContent].
  by rewrite Hsent.
Qed.

(** *** The pipeline around the first request *)

Lemma processUserMessage_split message clientId (p : Proc E) :
  processUserMessage E fuel message clientId p
  = (let* aiMessages := assembleHistory E message clientId in
     let* response := AIService.generateResponse (outerService E fuel message) aiMessages in
     match Completion.tool_calls response with
     | Some (call :: others) =>
         handleToolCalls E fuel (outerService E fuel message) aiMessages response
           (call :: others)
     | _ => ret (PlainResponse (JS.orElse (Completion.content response) noResponse))
     end) p.
Proof.
  unfold processUserMessage, assembleHistory. rewrite bind_assoc. apply bind_ext.
  intros recent p1. by rewrite bind_assoc.
Qed.

Lemma keeps_convertToAIMessages messages query :
  KeepsLedger E (MessageUtils.convertToAIMessages E messages query).
Proof.
  unfold MessageUtils.convertToAIMessages.
  apply keeps_bind; [apply AssemblerFacts.keeps_convertMessages|].
  intros; destruct (String.eqb _ _); apply keeps_ret.
Qed.

(** After the cleanup nothing in [processUserMessage] touches the ledger. *)
Lemma keeps_after_assembly message aiMessages :
  KeepsLedger E
    (let* response := AIService.generateResponse (outerService E fuel message) aiMessages in
     match Completion.tool_calls response with
     | Some (call :: others) =>
         handleToolCalls E fuel (outerService E fuel message) aiMessages response
           (call :: others)
     | _ => ret (PlainResponse (JS.orElse (Completion.content response) noResponse))
     end).
Proof.
  apply keeps_bind; [apply blind_keeps, blind_generateResponse|]. intros response.
  destruct (Completion.tool_calls response) as [[|call others]|]; try apply keeps_ret.
  apply blind_keeps, blind_handleToolCalls.
Qed.

(** A fetch that throws gives the empty window. *)
Lemma fetchRecentMessages_failure limit (p : Proc E) w1 unknown e w2 :
  getAnchorMessageId E (world p) = (None, w1) ->
  channelFetch E limit None w1 = (FetchThrows unknown e, w2) ->
  MessageUtils.fetchRecentMessages E limit p = (Ok [], set_world w2 p).
Proof.
  intros Hanchor Hfetch. unfold MessageUtils.fetchRecentMessages, tryCatch, bind, ask.
  rewrite Hanchor. cbn. by rewrite Hfetch.
Qed.

(** Whatever [processUserMessage] throws is answered with the sentence of
    its category. *)
Lemma handleMessage_catches message clientId (p p' : Proc E) err :
  processUserMessage E fuel message clientId p = (Throw err, p') ->
  handleMessage E fuel message clientId p
  = (sendSplit E (getErrorMessage err) message ;;; ret tt) p'.
Proof.
  intros Hthrow. unfold handleMessage.
  erewrite tryCatch_throw; [done|]. by apply bind_throw.
Qed.

(** *** The entries of the ledger *)

Lemma keepsWellFormed_refl (p : Proc E) : Stored.keepsWellFormed p p.
Proof. by intros H. Qed.

Lemma keepsWellFormed_trans (p1 p2 p3 : Proc E) :
  Stored.keepsWellFormed p1 p2 -> Stored.keepsWellFormed p2 p3 ->
  Stored.keepsWellFormed p1 p3.
Proof. unfold Stored.keepsWellFormed. tauto. Qed.

Lemma kept_wellFormed {A} (m : M E A) :
  KeepsLedger E m -> Steps E Stored.keepsWellFormed m.
Proof. intros Hm p Hwf. by rewrite (Hm p). Qed.

(** The cleanup only deletes. *)
Lemma wellFormed_cleanup (window : list Message.t) store :
  Stored.ledgerWellFormed store ->
  Stored.ledgerWellFormed (ToolCallsStore.cleanupOldToolCalls window store).
Proof.
  intros Hwf key d Hd. apply (Hwf key). by eapply LedgerFacts.evict_subset.
Qed.

Lemma wellFormed_store (sent : Message.t) calls results store :
  ToolResult.tool_call_id <$> results = functionCallIds calls ->
  Stored.uniqueIds calls ->
  Stored.ledgerWellFormed store ->
  Stored.ledgerWellFormed (ToolCallsStore.storeToolCallsForMessage sent calls results store).
Proof.
  intros Hids Hunique Hwf. unfold ToolCallsStore.storeToolCallsForMessage.
  by apply map_Forall_insert_2.
Qed.

Lemma fetch_keeps_ledger limit : KeepsLedger E (MessageUtils.fetchRecentMessages E limit).
Proof.
  unfold MessageUtils.fetchRecentMessages. frame keeps (@keeps_bind E) (@keeps_tryCatch E).
Qed.

Lemma sendSplit_keeps_ledger content message : KeepsLedger E (sendSplit E content message).
Proof. unfold sendSplit. frame keeps (@keeps_bind E) (@keeps_tryCatch E). Qed.

Lemma processUserMessage_keeps_wellFormed message clientId :
  Steps E Stored.keepsWellFormed (processUserMessage E fuel message clientId).
Proof.
  unfold processUserMessage.
  apply steps_bind;
    [apply keepsWellFormed_trans|apply kept_wellFormed, fetch_keeps_ledger|].
  intros window.
  apply steps_bind; [apply keepsWellFormed_trans| |].
  { intros p Hwf. by apply wellFormed_cleanup. }
  intros _.
  apply steps_bind;
    [apply keepsWellFormed_trans|apply kept_wellFormed, keeps_convertToAIMessages|].
  intros aiMessages. apply kept_wellFormed, keeps_after_assembly.
Qed.

(** What [processUserMessage] hands to the delivery with a tool turn: the
    calls of the first reply of the endpoint, and the results
    [processToolCalls] returned for them. *)
Lemma processUserMessage_response message clientId (p p' : Proc E) text calls results :
  Stored.endpointIdsUnique E ->
  processUserMessage E fuel message clientId p = (Ok (ToolResponse text calls results), p') ->
  ToolResult.tool_call_id <$> results = functionCallIds calls
  /\ Stored.uniqueIds calls.
Proof.
  intros Hendpoint. rewrite processUserMessage_split. unfold bind at 1.
  destruct (assembleHistory E message clientId p) as [[aiMessages|e|] p1]; [|done..].
  unfold bind at 1.
  destruct (AIService.generateResponse (outerService E fuel message) aiMessages p1)
    as [[response|e|] p2] eqn:Hresponse; [|done..].
  assert (Stored.uniqueIds (default [] (Completion.tool_calls response))) as Hunique.
  { rewrite generateResponse_spec in Hresponse.
    destruct (chatCompletionsCreate E _ (world p1)) as [[e|[completion|]] w] eqn:Hreply;
      cbn in Hresponse; [done| |done].
    injection Hresponse as -> _. by eapply Hendpoint. }
  destruct (Completion.tool_calls response) as [[|call others]|]; [done| |done].
  intros Hrun.
  destruct (handleToolCalls_result (outerService E fuel message) aiMessages response
              (call :: others) p2 (ToolResponse text calls results))
    as (text1 & results1 & [= -> -> ->] & Hids).
  { by rewrite Hrun. }
  done.
Qed.

(** Handling a message leaves a ledger of stored entries a ledger of
    stored entries: the empty ledger the process starts with is one, the
    cleanup only deletes, and the one store of [sendResponse] adds the calls
    of a turn with the results that answer them. *)
Lemma handleMessage_keeps_wellFormed message clientId (p : Proc E) :
  Stored.endpointIdsUnique E ->
  Stored.ledgerWellFormed (ledger p) ->
  Stored.ledgerWellFormed (ledger (handleMessage E fuel message clientId p).2).
Proof.
  intros Hendpoint Hwf.
  assert (forall e, Steps E Stored.keepsWellFormed
                      (sendSplit E (getErrorMessage e) message ;;; ret tt)) as Hhandler.
  { intros e. apply kept_wellFormed, keeps_bind;
      [apply sendSplit_keeps_ledger|intros; apply keeps_ret]. }
  pose proof (processUserMessage_keeps_wellFormed message clientId p Hwf) as Hwf1.
  unfold handleMessage, tryCatch. unfold bind at 1.
  destruct (processUserMessage E fuel message clientId p) as [[response|e|] p1] eqn:Hrun;
    cbn [snd] in Hwf1; [|by apply Hhandler|done].
  unfold sendResponse, bind at 1.
  pose proof (sendSplit_keeps_ledger (responseContent response) message p1) as Hsame.
  destruct (sendSplit E (responseContent response) message p1) as [[sent|e|] p2];
    cbn in Hsame; unfold sameLedger in Hsame; rewrite <- Hsame in Hwf1;
    [|by apply Hhandler|done].
  destruct sent as [sent|], response as [text|text calls results]; cbn; try done.
  destruct (processUserMessage_response _ _ _ _ _ _ _ Hendpoint Hrun) as [Hids Hunique].
  by apply wellFormed_store.
Qed.

(** *** Failures, isolation and the empty window *)

(** The first loop of a tool turn, over a list of calls in two parts. *)
Lemma executeToolCalls_app toolResults (l1 l2 : list ToolCall) (p : Proc E) :
  OpenProjectAgent.executeToolCalls E nested toolResults (l1 ++ l2) p
  = bind (OpenProjectAgent.executeToolCalls E nested toolResults l1)
      (fun toolResults1 => OpenProjectAgent.executeToolCalls E nested toolResults1 l2) p.
Proof.
  revert toolResults p. induction l1 as [|call l1 IH]; intros toolResults p; [done|].
  cbn [app OpenProjectAgent.executeToolCalls]. rewrite bind_assoc. apply bind_ext.
  intros; apply IH.
Qed.

(** The tool-execution step of the nested agent, as a whole: whatever the
    calls before and after it do, a function call gets its result at its
    place, and a call that fails gets the error text. *)
Lemma executeToolCalls_records before id name argsString after (p : Proc E) :
  exists earlier p1 result later p2,
    OpenProjectAgent.executeToolCalls E nested [] before p = (Ok earlier, p1)
    /\ OpenProjectAgent.executeToolCalls E nested []
         (before ++ FunctionToolCall id name argsString :: after) p
       = (Ok (earlier ++ result :: later), p2)
    /\ OpenProjectAgent.tool_call_id <$> (earlier ++ result :: later)
       = functionCallIds (before ++ FunctionToolCall id name argsString :: after)
    /\ OpenProjectAgent.tool_call_id result = id
    /\ (forall msg,
          JSON_parse E argsString = inl msg ->
          result = errorResult id name (newError msg))
    /\ (forall v,
          JSON_parse E argsString = inr v ->
          JsMap.get name nested = None ->
          result = errorResult id name (newError ("OpenProject tool not found: " +:+ name)))
    /\ (forall v tool e p',
          JSON_parse E argsString = inr v ->
          JsMap.get name nested = Some tool ->
          tool_execute tool v (set_trace (trace p1 ++ [Executed name]) p1) = (Throw e, p') ->
          result = errorResult id name e).
Proof.
  destruct (executeToolCalls_ids E [] before p) as (earlier & p1 & Hbefore & Hids1).
  cbn [app] in Hbefore.
  destruct (executeToolCall_returns E earlier (FunctionToolCall id name argsString) p1)
    as (added & p1' & Hcall & [text ->]).
  destruct (executeToolCalls_ids E
              (earlier ++ [{| OpenProjectAgent.tool_call_id := id;
                              OpenProjectAgent.content := text |}]) after p1')
    as (later & p2 & Hafter & Hids2).
  exists earlier, p1,
    {| OpenProjectAgent.tool_call_id := id; OpenProjectAgent.content := text |}, later, p2.
  split; [done|]. split; [|split; [|split; [done|]]].
  - rewrite executeToolCalls_app, (bind_ok _ _ _ _ _ _ Hbefore).
    cbn [OpenProjectAgent.executeToolCalls]. rewrite (bind_ok _ _ _ _ _ _ Hcall), Hafter.
    by rewrite <- app_assoc.
  - unfold functionCallIds in *. rewrite omap_app, fmap_app. cbn. by rewrite Hids1, Hids2.
  - assert (forall r p',
               OpenProjectAgent.executeToolCall E nested earlier
                 (FunctionToolCall id name argsString) p1
               = (Ok (earlier ++ [r]), p') ->
               {| OpenProjectAgent.tool_call_id := id; OpenProjectAgent.content := text |} = r)
      as Hsame.
    { intros r p' Hr. rewrite Hcall in Hr. injection Hr as Hr _.
      apply app_inv_head in Hr. by injection Hr. }
    split; [|split].
    + intros msg Hparse. eapply Hsame. by apply executeToolCall_parse_failure.
    + intros v Hparse Hget. eapply Hsame. by eapply executeToolCall_missing_tool.
    + intros v tool e p' Hparse Hget Hthrow. eapply Hsame.
      by eapply executeToolCall_tool_throws.
Qed.

(** A round of the loop in which the model asks for tools: the calls are
    executed, and the loop goes on from the messages that hold the
    results. *)
Lemma agentLoop_tool_round rounds service task N s response call others w
    (p : Proc E) :
  OpenProjectAgent.loopCondition N s = true ->
  chatCompletionsCreate E (AIService.request service (OpenProjectAgent.messages s)) (world p)
  = (ApiChoices (Some response), w) ->
  Completion.tool_calls response = Some (call :: others) ->
  exists toolResults p1,
    OpenProjectAgent.executeToolCalls E nested [] (call :: others)
      (afterRequest E service (OpenProjectAgent.messages s) p)
    = (Ok toolResults, p1)
    /\ OpenProjectAgent.agentLoop E (S rounds) service nested task N s p
       = OpenProjectAgent.agentLoop E rounds service nested task N
           (afterToolTurn task N s response (call :: others) toolResults) p1.
Proof.
  intros Hcond Hreply Hcalls.
  destruct (toolTurn_returns E task N s response (call :: others)
              (afterRequest E service (OpenProjectAgent.messages s) p))
    as (toolResults & p1 & Hrun & Hturn).
  exists toolResults, p1. split; [done|].
  rewrite agentLoop_round by done. unfold bind at 1.
  rewrite generateResponse_spec, Hreply. cbn [fst]. rewrite Hcalls.
  by rewrite (bind_ok _ _ _ _ _ _ Hturn).
Qed.

(** With fuel for the budget of the nested agent, the tools of the global
    registry end. *)
Lemma halts_outer_executeTool name args :
  (forall args,
      (Z.to_nat (default 5 (max_iterations (asOpenProjectAgentOptions E args)) + 2)%Z
       <= fuel)%nat) ->
  Halts E (ToolsRegistry.executeTool outer name args).
Proof.
  intros Hfuel. unfold ToolsRegistry.executeTool, executeToolIn. rewrite outer_tools.
  cbn [JsMap.get].
  destruct (String.eqb _ name).
  { apply halts_bind; [apply halts_record | intros; apply halts_externalTool]. }
  destruct (String.eqb _ name); [|apply halts_throw].
  apply halts_bind; [apply halts_record|]. intros _ p.
  cbn [tool_execute OpenProjectAgent.openProjectAgentTool].
  destruct (execute_returns E fuel (asOpenProjectAgentOptions E args) p (Hfuel args))
    as (text & p' & ->). done.
Qed.

Lemma processToolCall_returns executeTool results call (p : Proc E) :
  (forall name args, Halts E (executeTool name args)) ->
  exists added p',
    AIService.processToolCall executeTool results call p = (Ok (results ++ added), p')
    /\ ToolResult.tool_call_id <$> added = functionCallIds [call].
Proof.
  intros Hhalts.
  pose proof (processToolCall_result executeTool results call p) as Hresult.
  destruct (AIService.processToolCall executeTool results call p) as [[out|e|] p'] eqn:Hrun;
    [|done|].
  - destruct Hresult as (added & -> & Hids). by exists added, p'.
  - exfalso. destruct call as [id name argsString|id name input];
      cbn [AIService.processToolCall] in Hrun; [|done].
    unfold tryCatch in Hrun.
    assert (Halts E (let* args := parseJson argsString in
                     let* resultString := executeTool name args in
                     ret (results ++ [{| ToolResult.tool_call_id := id;
                                         ToolResult.name := name;
                                         ToolResult.content := resultString |}])))
      as Hattempt.
    { apply halts_bind; [apply halts_parseJson|]. intros args.
      apply halts_bind; [apply Hhalts | intros; apply halts_ret]. }
    specialize (Hattempt p).
    destruct ((let* args := parseJson argsString in _) p) as [[r|e|] p1]; done.
Qed.

Lemma processToolCallsFrom_returns executeTool results calls (p : Proc E) :
  (forall name args, Halts E (executeTool name args)) ->
  exists added p',
    AIService.processToolCallsFrom executeTool results calls p = (Ok (results ++ added), p')
    /\ ToolResult.tool_call_id <$> added = functionCallIds calls.
Proof.
  intros Hhalts. revert results p.
  induction calls as [|call rest IH]; intros results p;
    cbn [AIService.processToolCallsFrom].
  - exists [], p. by rewrite app_nil_r.
  - destruct (processToolCall_returns executeTool results call p Hhalts)
      as (a1 & p1 & H1 & Ha1).
    rewrite (bind_ok _ _ _ _ _ _ H1).
    destruct (IH (results ++ a1) p1) as (a2 & p2 & H2 & Ha2).
    exists (a1 ++ a2), p2. rewrite H2, app_assoc. split; [done|].
    rewrite fmap_app, Ha1, Ha2. unfold functionCallIds. cbn [omap list_omap].
    by destruct call.
Qed.

Lemma processToolCallsFrom_app executeTool results (l1 l2 : list ToolCall) (p : Proc E) :
  AIService.processToolCallsFrom executeTool results (l1 ++ l2) p
  = bind (AIService.processToolCallsFrom executeTool results l1)
      (fun results1 => AIService.processToolCallsFrom executeTool results1 l2) p.
Proof.
  revert results p. induction l1 as [|call l1 IH]; intros results p; [done|].
  cbn [app AIService.processToolCallsFrom]. rewrite bind_assoc. apply bind_ext.
  intros; apply IH.
Qed.

(** [processToolCalls] as a whole: a function call gets its result at its
    place, and a call that fails gets the error text. *)
Lemma processToolCalls_records before id name argsString after (p : Proc E) :
  (forall args,
      (Z.to_nat (default 5 (max_iterations (asOpenProjectAgentOptions E args)) + 2)%Z
       <= fuel)%nat) ->
  exists earlier p1 result later p2,
    AIService.processToolCalls (ToolsRegistry.executeTool outer) (Some before) p
    = (Ok earlier, p1)
    /\ AIService.processToolCalls (ToolsRegistry.executeTool outer)
         (Some (before ++ FunctionToolCall id name argsString :: after)) p
       = (Ok (earlier ++ result :: later), p2)
    /\ ToolResult.tool_call_id <$> (earlier ++ result :: later)
       = functionCallIds (before ++ FunctionToolCall id name argsString :: after)
    /\ ToolResult.tool_call_id result = id
    /\ (forall msg,
          JSON_parse E argsString = inl msg -> result = outerErrorResult id name)
    /\ (forall v,
          JSON_parse E argsString = inr v ->
          JsMap.get name outer = None ->
          result = outerErrorResult id name)
    /\ (forall v tool e p',
          JSON_parse E argsString = inr v ->
          JsMap.get name outer = Some tool ->
          tool_execute tool v (set_trace (trace p1 ++ [Executed name]) p1) = (Throw e, p') ->
          result = outerErrorResult id name).
Proof.
  intros Hfuel.
  assert (forall name args, Halts E (ToolsRegistry.executeTool outer name args)) as Hhalts.
  { intros; by apply halts_outer_executeTool. }
  cbn [AIService.processToolCalls].
  destruct (processToolCallsFrom_returns _ [] before p Hhalts)
    as (earlier & p1 & Hbefore & Hids1).
  cbn [app] in Hbefore.
  destruct (processToolCall_returns _ earlier (FunctionToolCall id name argsString) p1 Hhalts)
    as (added & p1' & Hcall & Hid).
  destruct added as [|result [|]]; try done. cbn in Hid. injection Hid as Hid.
  destruct (processToolCallsFrom_returns _ (earlier ++ [result]) after p1' Hhalts)
    as (later & p2 & Hafter & Hids2).
  exists earlier, p1, result, later, p2. split; [done|]. split; [|split; [|split; [done|]]].
  - rewrite processToolCallsFrom_app, (bind_ok _ _ _ _ _ _ Hbefore).
    cbn [AIService.processToolCallsFrom]. rewrite (bind_ok _ _ _ _ _ _ Hcall), Hafter.
    by rewrite <- app_assoc.
  - unfold functionCallIds in *. rewrite omap_app, fmap_app. cbn. by rewrite Hids1, Hid, Hids2.
  - assert (forall r p',
               AIService.processToolCall (ToolsRegistry.executeTool outer) earlier
                 (FunctionToolCall id name argsString) p1
               = (Ok (earlier ++ [r]), p') ->
               result = r) as Hsame.
    { intros r p' Hr. rewrite Hcall in Hr. injection Hr as Hr _.
      apply app_inv_head in Hr. by injection Hr. }
    split; [|split].
    + intros msg Hparse. eapply Hsame. by eapply processToolCall_parse_failure.
    + intros v Hparse Hget. eapply Hsame. by eapply processToolCall_missing_tool.
    + intros v tool e p' Hparse Hget Hthrow. eapply Hsame.
      by eapply processToolCall_tool_throws.
Qed.

(** After the tools the outer pipeline asks for the follow-up completion,
    on the messages that hold the results. *)
Lemma handleToolCalls_requests aiService aiMessages response calls (p : Proc E) :
  (forall args,
      (Z.to_nat (default 5 (max_iterations (asOpenProjectAgentOptions E args)) + 2)%Z
       <= fuel)%nat) ->
  exists results p1,
    AIService.processToolCalls (ToolsRegistry.executeTool outer) (Some calls) p
    = (Ok results, p1)
    /\ trace (handleToolCalls E fuel aiService aiMessages response calls p).2
       = trace p1
         ++ [Requested
               (AIService.request aiService
                  (aiMessages
                   ++ [AssistantMessage (Completion.content response)
                         (Completion.tool_calls response)]
                   ++ AIService.createToolResultMessages results))].
Proof.
  intros Hfuel.
  assert (forall name args, Halts E (ToolsRegistry.executeTool outer name args)) as Hhalts.
  { intros; by apply halts_outer_executeTool. }
  cbn [AIService.processToolCalls].
  destruct (processToolCallsFrom_returns _ [] calls p Hhalts) as (results & p1 & Hrun & _).
  cbn [app] in Hrun. exists results, p1. split; [done|].
  unfold handleToolCalls. cbn [AIService.processToolCalls].
  rewrite (bind_ok _ _ _ _ _ _ Hrun). unfold bind. rewrite generateResponse_spec.
  by destruct (chatCompletionsCreate E _ _).1 as [e|[c|]].
Qed.

(** C5.  In a tool turn of the nested agent the tool-execution step always
    returns, with one result for each function call, in the order of the
    calls; the result of a call whose arguments do not parse, whose tool is
    not in the registry, or whose tool throws is the error text with the id
    of that call, whatever the other calls of the turn do.  When the model
    asks for tools in a round of the loop, the calls are executed and the
    next thing the agent does is to request a completion on the messages
    that now hold the results.  The outer [processToolCalls] records the
    same three failures in the same way, for every list of calls, provided
    the nested agent is given the rounds of its budget; and the outer
    pipeline then requests the follow-up completion on the messages that
    hold the results. *)
Theorem tool_failures_are_recorded :
  (forall before id name argsString after (p : Proc E),
      exists earlier p1 result later p2,
        OpenProjectAgent.executeToolCalls E nested [] before p = (Ok earlier, p1)
        /\ OpenProjectAgent.executeToolCalls E nested []
             (before ++ FunctionToolCall id name argsString :: after) p
           = (Ok (earlier ++ result :: later), p2)
        /\ OpenProjectAgent.tool_call_id <$> (earlier ++ result :: later)
           = functionCallIds (before ++ FunctionToolCall id name argsString :: after)
        /\ OpenProjectAgent.tool_call_id result = id
        /\ (forall msg,
              JSON_parse E argsString = inl msg ->
              result = errorResult id name (newError msg))
        /\ (forall v,
              JSON_parse E argsString = inr v ->
              JsMap.get name nested = None ->
              result = errorResult id name
                         (newError ("OpenProject tool not found: " +:+ name)))
        /\ (forall v tool e p',
              JSON_parse E argsString = inr v ->
              JsMap.get name nested = Some tool ->
              tool_execute tool v (set_trace (trace p1 ++ [Executed name]) p1)
              = (Throw e, p') ->
              result = errorResult id name e))
  /\ (forall rounds service task N s response call others w (p : Proc E),
         OpenProjectAgent.loopCondition N s = true ->
         OpenProjectAgent.finalResponse s = EmptyString ->
         (Z.to_nat (N + 2 - (OpenProjectAgent.iterationCount s + 1)) <= rounds)%nat ->
         chatCompletionsCreate E
           (AIService.request service (OpenProjectAgent.messages s)) (world p)
         = (ApiChoices (Some response), w) ->
         Completion.tool_calls response = Some (call :: others) ->
         exists toolResults p1 t,
           OpenProjectAgent.executeToolCalls E nested [] (call :: others)
             (afterRequest E service (OpenProjectAgent.messages s) p)
           = (Ok toolResults, p1)
           /\ trace ((let* s' := OpenProjectAgent.agentLoop E (S rounds) service nested
                                   task N s in
                      OpenProjectAgent.finalRequest E service N s') p).2
              = trace p1
                ++ Requested
                     (AIService.request service
                        ((OpenProjectAgent.messages s
                          ++ [AssistantMessage (Completion.content response)
                                (Some (call :: others))])
                         ++ (OpenProjectAgent.asMessage <$> toolResults)
                         ++ OpenProjectAgent.summaryIfDue N
                              (OpenProjectAgent.iterationCount s + 1)
                              (OpenProjectAgent.foundUserIdButNeedsList s
                               || OpenProjectAgent.foundUserId task (call :: others)
                                    toolResults)))
                   :: t)
  /\ ((forall args,
          (Z.to_nat (default 5 (max_iterations (asOpenProjectAgentOptions E args)) + 2)%Z
           <= fuel)%nat) ->
      (forall before id name argsString after (p : Proc E),
          exists earlier p1 result later p2,
            AIService.processToolCalls (ToolsRegistry.executeTool outer) (Some before) p
            = (Ok earlier, p1)
            /\ AIService.processToolCalls (ToolsRegistry.executeTool outer)
                 (Some (before ++ FunctionToolCall id name argsString :: after)) p
               = (Ok (earlier ++ result :: later), p2)
            /\ ToolResult.tool_call_id <$> (earlier ++ result :: later)
               = functionCallIds (before ++ FunctionToolCall id name argsString :: after)
            /\ ToolResult.tool_call_id result = id
            /\ (forall msg,
                  JSON_parse E argsString = inl msg -> result = outerErrorResult id name)
            /\ (forall v,
                  JSON_parse E argsString = inr v ->
                  JsMap.get name outer = None ->
                  result = outerErrorResult id name)
            /\ (forall v tool e p',
                  JSON_parse E argsString = inr v ->
                  JsMap.get name outer = Some tool ->
                  tool_execute tool v (set_trace (trace p1 ++ [Executed name]) p1)
                  = (Throw e, p') ->
                  result = outerErrorResult id name))
      /\ (forall aiService aiMessages response calls (p : Proc E),
             exists results p1,
               AIService.processToolCalls (ToolsRegistry.executeTool outer) (Some calls) p
               = (Ok results, p1)
               /\ trace (handleToolCalls E fuel aiService aiMessages response calls p).2
                  = trace p1
                    ++ [Requested
                          (AIService.request aiService
                             (aiMessages
                              ++ [AssistantMessage (Completion.content response)
                                    (Completion.tool_calls response)]
                              ++ AIService.createToolResultMessages results))]))
  /\ (forall calls (p p' : Proc E) e,
         AIService.processToolCalls (ToolsRegistry.executeTool outer) (Some calls) p
         <> (Throw e, p')).
Proof.
  split; [|split; [|split]].
  - intros. apply executeToolCalls_records.
  - intros rounds service task N s response call others w p Hcond Hfinal Hrounds Hreply
      Hcalls.
    destruct (agentLoop_tool_round rounds service task N s response call others w p
                Hcond Hreply Hcalls) as (toolResults & p1 & Hrun & Hloop).
    destruct (request_follows_tool_turn E rounds service task N
                (afterToolTurn task N s response (call :: others) toolResults) p1)
      as [t Ht]; [done|cbn [afterToolTurn OpenProjectAgent.iterationCount]; lia|].
    exists toolResults, p1, t. split; [done|].
    unfold bind at 1. rewrite Hloop. exact Ht.
  - intros Hfuel. split.
    + intros. by apply processToolCalls_records.
    + intros. by apply handleToolCalls_requests.
  - intros calls p p' e Hthrow. cbn [AIService.processToolCalls] in Hthrow.
    pose proof (processToolCallsFrom_result (ToolsRegistry.executeTool outer) [] calls p) as H.
    by rewrite Hthrow in H.
Qed.

(** C6.  The registry of the nested agent holds its six domain tools and
    nothing else; no name of the global registry, [openproject_agent]
    included, resolves in it.  A run of the nested agent is blind to the
    ledger: with another ledger in place it does the same and leaves that
    ledger as it is.  The outer tool turn leaves the ledger alone as well,
    hands on the calls of the outer model unchanged, with results that
    answer those calls only, and these are what the delivery step stores. *)
Theorem nested_agent_is_isolated :
  getToolNames (OpenProjectToolsRegistry.new E)
  = ["list_projects"; "create_work_package"; "list_work_packages";
     "assign_user"; "search_users"; "get_metadata"]
  /\ getToolNames outer = ["get_date_time"; "openproject_agent"]
  /\ Forall (fun name => JsMap.get name (OpenProjectToolsRegistry.new E) = None)
       (getToolNames outer)
  /\ (forall options, LedgerBlind E (OpenProjectAgent.execute E fuel options))
  /\ (forall args (p : Proc E),
         ledger (ToolsRegistry.executeTool outer "openproject_agent" args p).2 = ledger p)
  /\ (forall aiService aiMessages response calls (p : Proc E),
         ledger (handleToolCalls E fuel aiService aiMessages response calls p).2 = ledger p
         /\ (forall r,
                (handleToolCalls E fuel aiService aiMessages response calls p).1 = Ok r ->
                exists text results,
                  r = ToolResponse text calls results
                  /\ ToolResult.tool_call_id <$> results = functionCallIds calls))
  /\ (forall message text calls results (p : Proc E) sent w,
         sendSplitMessage E text message (world p) = (inr (Some sent), w) ->
         ledger (sendResponse E message (ToolResponse text calls results) p).2
         = ToolCallsStore.storeToolCallsForMessage sent calls results (ledger p)).
Proof.
  split; [reflexivity|]. split; [reflexivity|]. split; [by repeat constructor|].
  split; [intros; apply blind_execute|].
  split; [intros; apply ledger_kept, blind_outer_executeTool|].
  split.
  - intros aiService aiMessages response calls p. split.
    + apply ledger_kept, blind_handleToolCalls.
    + intros r. apply handleToolCalls_result.
  - intros message text calls results p sent w Hsent.
    by rewrite (sendResponse_stores _ _ _ _ _ _ _ Hsent).
Qed.

(** C8.  When the endpoint fails on a request of the nested loop, the loop
    ends with that request: it throws the failure sorted by category and
    does nothing more.  The caller of the loop, [execute], answers with a
    text made from the sorted failure.  In the outer pipeline a failing
    request makes [handleMessage] send the sentence of the category, and
    the categories are: 402 credit, 429 rate limit, 401 authentication,
    500 and above unavailable. *)
Theorem endpoint_failure_aborts :
  (forall rounds service task N s (p : Proc E) e w,
      OpenProjectAgent.loopCondition N s = true ->
      chatCompletionsCreate E (AIService.request service (OpenProjectAgent.messages s))
        (world p) = (ApiThrows e, w) ->
      OpenProjectAgent.agentLoop E (S rounds) service nested task N s p
      = (Throw (AIService.categorize (AIService.maxTokens service) e),
         afterRequest E service (OpenProjectAgent.messages s) p))
  /\ (forall options (p p' : Proc E) err,
         OpenProjectAgent.runAgent E fuel
           (OpenProjectAgent.agentService E (task options) (context options)
              (default 5 (max_iterations options)) nested)
           nested (task options) (context options) (default 5 (max_iterations options)) p
         = (Throw err, p') ->
         OpenProjectAgent.execute E fuel options p
         = (Ok ("OpenProject Agent encountered an error: "
                +:+ OpenProjectAgent.errorText err), p'))
  /\ (forall maxTokens e,
         OpenProjectAgent.errorText (AIService.categorize maxTokens e)
         = Thrown.message (AIService.categorize maxTokens e))
  /\ (forall message clientId (p p1 : Proc E) aiMessages e w,
         assembleHistory E message clientId p = (Ok aiMessages, p1) ->
         chatCompletionsCreate E
           (AIService.request (outerService E fuel message) aiMessages) (world p1)
         = (ApiThrows e, w) ->
         handleMessage E fuel message clientId p
         = (sendSplit E
              (getErrorMessage
                 (AIService.categorize (AIService.maxTokens (outerService E fuel message)) e))
              message ;;; ret tt)
             (afterRequest E (outerService E fuel message) aiMessages p1))
  /\ (forall maxTokens status e,
         Thrown.status e = Some status ->
         (status = 402 ->
          getErrorMessage (AIService.categorize maxTokens e)
          = "Sorry, I'm currently experiencing credit limitations. Please try again later.")
         /\ (status = 429 ->
             getErrorMessage (AIService.categorize maxTokens e)
             = "Sorry, I'm being rate limited. Please wait a moment and try again.")
         /\ (status = 401 ->
             getErrorMessage (AIService.categorize maxTokens e)
             = "Sorry, there's a configuration issue with my AI service. Please contact the administrator.")
         /\ (500 <= status ->
             getErrorMessage (AIService.categorize maxTokens e)
             = "Sorry, the AI service is temporarily unavailable. Please try again later.")).
Proof.
  split; [|split; [|split; [|split]]].
  - intros. by eapply agentLoop_aborts.
  - intros. by apply execute_reports.
  - apply errorText_categorize.
  - intros message clientId p p1 aiMessages e w Hassembled Hfail.
    apply handleMessage_catches. rewrite processUserMessage_split.
    rewrite (bind_ok _ _ _ _ _ _ Hassembled). apply bind_throw.
    by eapply generateResponse_fails.
  - apply category_sentences.
Qed.

(** C10.  Cleaning the ledger up against an empty window removes every
    entry.  A fetch of the window that throws yields the empty window, so
    in [processUserMessage] one failed fetch leaves the ledger empty. *)
Theorem empty_window_wipes_ledger :
  (forall store : gmap string ToolCallsStore.ToolCallData,
      ToolCallsStore.cleanupOldToolCalls [] store = ∅)
  /\ (forall message clientId (p : Proc E) w1 unknown e w2,
         getAnchorMessageId E (world p) = (None, w1) ->
         channelFetch E (config_messageHistoryLimit E) None w1
         = (FetchThrows unknown e, w2) ->
         MessageUtils.fetchRecentMessages E (config_messageHistoryLimit E) p
         = (Ok [], set_world w2 p)
         /\ ledger (processUserMessage E fuel message clientId p).2 = ∅).
Proof.
  split; [apply LedgerFacts.evict_empty_window|].
  intros message clientId p w1 unknown e w2 Hanchor Hfetch.
  pose proof (fetchRecentMessages_failure _ _ _ _ _ _ Hanchor Hfetch) as Hempty.
  split; [done|].
  rewrite processUserMessage_split. unfold assembleHistory.
  rewrite bind_assoc, (bind_ok _ _ _ _ _ _ Hempty), bind_assoc.
  unfold bind at 1, modifyLedger. rewrite LedgerFacts.evict_empty_window.
  match goal with
  | |- ledger (bind ?m ?k ?q).2 = _ =>
      assert (KeepsLedger E (bind m k)) as Hkeep
  end.
  { apply keeps_bind; [apply keeps_convertToAIMessages|].
    intros aiMessages. apply keeps_after_assembly. }
  by rewrite Hkeep.
Qed.

End WithEnv.
End PipelineFacts.

(** ** More on the ledger *)
Module LedgerLaws.
Import ToolCallsStore LedgerFacts.

(** X1.  Deleting while running over the keys does what a filter does: the
    cleanup keeps exactly the entries whose composite key or whose message
    identity is in the window, each as it was, and adds nothing. *)
Theorem cleanup_is_filter (recentMessages : list Message.t)
    (store : gmap string ToolCallData) :
  cleanupOldToolCalls recentMessages store
  = filter (fun entry => entry.1 ∈ recentMessageKeys recentMessages
                         \/ messageId entry.2 ∈ recentMessageIds recentMessages)
      store.
Proof.
  apply map_eq. intros k. rewrite cleanup_lookup, map_lookup_filter.
  destruct (store !! k) as [d|]; [|done]. cbn.
  unfold stale. cbn [fmap option_fmap option_map default].
  case_guard as Hlive; do 2 case_bool_decide; cbn in *; try done; tauto.
Qed.

(** X2.  A second cleanup with the same window changes nothing, and
    cleanups with two windows can be done in either order. *)
Theorem cleanup_idempotent_commutes (window1 window2 : list Message.t)
    (store : gmap string ToolCallData) :
  cleanupOldToolCalls window1 (cleanupOldToolCalls window1 store)
  = cleanupOldToolCalls window1 store
  /\ cleanupOldToolCalls window1 (cleanupOldToolCalls window2 store)
     = cleanupOldToolCalls window2 (cleanupOldToolCalls window1 store).
Proof.
  split; apply map_eq; intros k; rewrite !cleanup_lookup;
    destruct (store !! k) as [d|]; try done.
  - destruct (stale (recentMessageKeys window1) _ k (Some d)) eqn:H1; [done|].
    by rewrite H1.
  - destruct (stale (recentMessageKeys window1) _ k (Some d)) eqn:H1;
      destruct (stale (recentMessageKeys window2) _ k (Some d)) eqn:H2;
      by rewrite ?H1, ?H2.
Qed.

(** X3.  What was stored for a sent message is found again after any
    cleanup whose window holds a message with the same identity and creation
    time, under that message. *)
Theorem stored_entry_survives_cleanup (store : gmap string ToolCallData)
    (sent later : Message.t) (calls : list ToolCall) (results : list ToolResult.t)
    (window : list Message.t) :
  later ∈ window ->
  Message.id later = Message.id sent ->
  Message.createdTimestamp later = Message.createdTimestamp sent ->
  getToolCallsForMessage later
    (cleanupOldToolCalls window (storeToolCallsForMessage sent calls results store))
  = Some {| messageId := Message.id sent;
            messageContent := Message.content sent;
            timestamp := Message.createdTimestamp sent;
            toolCalls := calls;
            toolResults := results |}.
Proof.
  intros Hin Hid Hts. unfold getToolCallsForMessage.
  assert (generateMessageKey later = generateMessageKey sent) as Hkey.
  { unfold generateMessageKey. by rewrite Hid, Hts. }
  rewrite cleanup_lookup, Hkey. unfold storeToolCallsForMessage.
  rewrite lookup_insert_eq. unfold stale. cbn [fmap option_fmap option_map default messageId].
  rewrite (bool_decide_eq_false_2 (generateMessageKey sent ∉ _)); [done|].
  intros Hnot. apply Hnot. unfold recentMessageKeys. apply elem_of_list_to_set.
  apply list_elem_of_fmap. exists later. by rewrite Hkey.
Qed.

End LedgerLaws.

(** ** Delivery *)
Module DeliveryFacts.
Import Spec Frame Delivery.
Local Open Scope js_scope.

Lemma append_nil_l (b : string) : EmptyString +:+ b = b.
Proof. reflexivity. Qed.

Ltac string_cbn :=
  cbn; rewrite ?PipelineFacts.append_cons, ?append_nil_l; cbn.

Lemma length_substring0 (n : nat) (s : string) :
  String.length (JS.substring0 n s) = (n `min` String.length s)%nat.
Proof.
  unfold JS.substring0. revert s. induction n as [|n IH]; intros [|c s]; cbn; try done.
  by rewrite IH.
Qed.

Lemma length_substringFrom (n : nat) (s : string) :
  String.length (substringFrom n s) = (String.length s - n)%nat.
Proof.
  revert s. induction n as [|n IH]; intros [|c s]; cbn; done.
Qed.

Lemma substring0_substringFrom (n : nat) (s : string) :
  JS.substring0 n s +:+ substringFrom n s = s.
Proof.
  unfold JS.substring0. revert s. induction n as [|n IH]; intros [|c s]; string_cbn; try done.
  by rewrite IH.
Qed.

Lemma length_append (a b : string) :
  String.length (a +:+ b) = (String.length a + String.length b)%nat.
Proof. induction a as [|c a IH]; string_cbn; [done|by rewrite IH]. Qed.

Lemma append_empty_r (a : string) : a +:+ EmptyString = a.
Proof. induction a as [|c a IH]; string_cbn; [done|by rewrite IH]. Qed.

Lemma append_assoc (a b c : string) : (a +:+ b) +:+ c = a +:+ (b +:+ c).
Proof. induction a as [|x a IH]; string_cbn; [done|by rewrite IH]. Qed.

Lemma joined_app (l1 l2 : list string) : joined (l1 ++ l2) = joined l1 +:+ joined l2.
Proof.
  unfold joined. induction l1 as [|x l1 IH]; cbn; [done|]. by rewrite IH, append_assoc.
Qed.

Lemma withoutNewlines_app (a b : string) :
  withoutNewlines (a +:+ b) = withoutNewlines a +:+ withoutNewlines b.
Proof.
  induction a as [|c a IH]; string_cbn; [done|].
  destruct (Ascii.eqb c "010"); string_cbn; by rewrite IH.
Qed.

Lemma withoutNewlines_lines (s : string) :
  withoutNewlines (joined (splitLines s)) = withoutNewlines s.
Proof.
  induction s as [|c s IH]; cbn; [done|].
  destruct (Ascii.eqb c "010") eqn:Hc; cbn; [done|].
  destruct (splitLines s) as [|line lines] eqn:Hl; string_cbn; cbn in IH.
  - rewrite Hc. by rewrite <- IH.
  - rewrite Hc. by rewrite IH.
Qed.

Lemma withoutNewlines_substring0 (n : nat) (s : string) :
  withoutNewlines s = EmptyString -> withoutNewlines (JS.substring0 n s) = EmptyString.
Proof.
  unfold JS.substring0. revert s. induction n as [|n IH]; intros [|c s]; cbn; try done.
  destruct (Ascii.eqb c "010"); [apply IH|done].
Qed.

Lemma cutLongLine_text rounds maxLength parts currentPart state :
  cutLongLine rounds maxLength parts currentPart = Some state ->
  textOf state = textOf (parts, currentPart).
Proof.
  revert parts currentPart. induction rounds as [|rounds IH]; intros parts currentPart; cbn.
  - case_match; [done|]. by intros [= <-].
  - case_match; [|by intros [= <-]].
    intros Hcut. rewrite (IH _ _ Hcut). unfold textOf. cbn.
    rewrite joined_app. cbn. rewrite append_empty_r, append_assoc.
    by rewrite substring0_substringFrom.
Qed.

Lemma cutLongLine_fits rounds maxLength parts currentPart :
  (1 <= maxLength)%nat ->
  (String.length currentPart <= rounds)%nat ->
  Forall (fun part => (1 <= String.length part <= maxLength)%nat) parts ->
  exists state,
    cutLongLine rounds maxLength parts currentPart = Some state
    /\ fits maxLength state.
Proof.
  intros Hmax. revert parts currentPart.
  induction rounds as [|rounds IH]; intros parts currentPart Hlen Hparts; cbn.
  - case_match eqn:Hlt.
    + apply Nat.ltb_lt in Hlt. lia.
    + apply Nat.ltb_ge in Hlt. eexists. split; [done|]. by split.
  - case_match eqn:Hlt.
    + apply Nat.ltb_lt in Hlt. apply IH.
      * rewrite length_substringFrom. lia.
      * apply Forall_app. split; [done|]. apply Forall_singleton.
        rewrite length_substring0. lia.
    + apply Nat.ltb_ge in Hlt. eexists. split; [done|]. by split.
Qed.

Lemma pushNonEmpty_fits maxLength state :
  fits maxLength state ->
  Forall (fun part => (1 <= String.length part <= maxLength)%nat)
    (pushNonEmpty state.1 state.2).
Proof.
  intros [Hparts Hcur]. unfold pushNonEmpty.
  destruct (Nat.ltb_spec 0 (String.length state.2)) as [Hpos|Hpos]; [|done].
  apply Forall_app. split; [done|]. apply Forall_singleton. lia.
Qed.

Lemma pushNonEmpty_text parts currentPart :
  withoutNewlines (joined (pushNonEmpty parts currentPart))
  = textOf (parts, currentPart).
Proof.
  unfold pushNonEmpty, textOf. cbn [fst snd].
  destruct (Nat.ltb_spec 0 (String.length currentPart)) as [Hpos|Hpos].
  - rewrite joined_app. unfold joined at 2. cbn [foldr]. by rewrite append_empty_r.
  - destruct currentPart; cbn in Hpos; [|lia]. by rewrite append_empty_r.
Qed.

Lemma splitStep_text maxLength state line state1 :
  splitStep maxLength state line = Some state1 ->
  textOf state1 = textOf state +:+ withoutNewlines line.
Proof.
  destruct state as [parts currentPart]. unfold splitStep. case_match.
  - intros Hcut. rewrite (cutLongLine_text _ _ _ _ _ Hcut). unfold textOf at 1. cbn.
    rewrite withoutNewlines_app, pushNonEmpty_text. done.
  - intros [= <-]. unfold textOf. cbn.
    rewrite !withoutNewlines_app. rewrite <- append_assoc. f_equal.
    case_match; [|done]. rewrite withoutNewlines_app. cbn. by rewrite append_empty_r.
Qed.

Lemma splitStep_fits maxLength state line :
  (1 <= maxLength)%nat ->
  fits maxLength state ->
  exists state1, splitStep maxLength state line = Some state1 /\ fits maxLength state1.
Proof.
  intros Hmax Hfits. pose proof (pushNonEmpty_fits _ _ Hfits) as Hpush.
  destruct state as [parts currentPart]. unfold splitStep. case_match eqn:Hlt.
  - by apply cutLongLine_fits.
  - apply Nat.ltb_ge in Hlt. eexists. split; [done|]. destruct Hfits as [Hparts Hcur].
    split; [done|]. cbn in *. rewrite length_append. case_match eqn:Hpos.
    + rewrite length_append. cbn. lia.
    + lia.
Qed.

Lemma splitLoop_text maxLength state lines state1 :
  splitLoop maxLength state lines = Some state1 ->
  textOf state1 = textOf state +:+ withoutNewlines (joined lines).
Proof.
  revert state. induction lines as [|line rest IH]; intros state; cbn.
  - intros [= <-]. by rewrite append_empty_r.
  - destruct (splitStep maxLength state line) as [state'|] eqn:Hstep; [|done].
    intros Hloop. rewrite (IH _ Hloop), (splitStep_text _ _ _ _ Hstep).
    by rewrite withoutNewlines_app, append_assoc.
Qed.

Lemma splitLoop_fits maxLength state lines :
  (1 <= maxLength)%nat ->
  fits maxLength state ->
  exists state1, splitLoop maxLength state lines = Some state1 /\ fits maxLength state1.
Proof.
  intros Hmax. revert state. induction lines as [|line rest IH]; intros state Hfits; cbn.
  - by eexists.
  - destruct (splitStep_fits maxLength state line Hmax Hfits) as (state' & -> & Hfits').
    by apply IH.
Qed.

Lemma splitContent_spec (content : string) (maxLength : nat) :
  (1 <= maxLength)%nat ->
  exists parts,
    splitContent content maxLength = Some parts
    /\ parts <> []
    /\ Forall (fun part => (String.length part <= maxLength)%nat) parts
    /\ (content <> EmptyString -> Forall (fun part => part <> EmptyString) parts).
Proof.
  intros Hmax. unfold splitContent.
  destruct (splitLoop_fits maxLength ([], EmptyString) (splitLines content) Hmax)
    as ([parts currentPart] & -> & Hfits).
  { split; [constructor|cbn; lia]. }
  pose proof (pushNonEmpty_fits _ _ Hfits) as Hpush. cbn in Hpush.
  eexists. split; [done|].
  destruct (pushNonEmpty parts currentPart) as [|part parts1].
  - split; [done|]. split.
    + apply Forall_singleton. rewrite length_substring0. lia.
    + intros Hcontent. apply Forall_singleton. destruct content; [done|].
      destruct maxLength; [lia|]. done.
  - split; [done|]. split.
    + eapply Forall_impl; [exact Hpush|]. cbn. lia.
    + intros _. eapply Forall_impl; [exact Hpush|]. cbn. intros [|] ?; cbn in *; [lia|done].
Qed.

(** X4.  With a limit of at least one character, [splitContent] ends and
    gives at least one part; no part is longer than the limit, and unless the
    content is the empty string no part is empty. *)
Theorem splitContent_parts_fit (content : string) (maxLength : nat) :
  (1 <= maxLength)%nat ->
  exists parts,
    splitContent content maxLength = Some parts
    /\ parts <> []
    /\ Forall (fun part => (String.length part <= maxLength)%nat) parts
    /\ (content <> EmptyString -> Forall (fun part => part <> EmptyString) parts).
Proof. apply splitContent_spec. Qed.

(** X5.  Whatever [splitContent] returns carries the characters of the
    content, in order, apart from line breaks: nothing is lost, repeated or
    moved by the split. *)
Theorem splitContent_keeps_text (content : string) (maxLength : nat) (parts : list string) :
  splitContent content maxLength = Some parts ->
  withoutNewlines (joined parts) = withoutNewlines content.
Proof.
  unfold splitContent.
  destruct (splitLoop maxLength ([], EmptyString) (splitLines content))
    as [[parts0 currentPart]|] eqn:Hloop; [|done].
  intros [= <-]. apply splitLoop_text in Hloop.
  rewrite withoutNewlines_lines in Hloop.
  change (textOf ([], EmptyString)) with EmptyString in Hloop.
  rewrite append_nil_l, <- pushNonEmpty_text in Hloop.
  destruct (pushNonEmpty parts0 currentPart) as [|part parts1]; [|done].
  unfold joined. cbn [foldr]. rewrite append_empty_r.
  rewrite <- Hloop. by apply withoutNewlines_substring0.
Qed.

Lemma MAX_LENGTH_pos : (1 <= MAX_LENGTH)%nat.
Proof. apply Nat.leb_le. vm_compute. reflexivity. Qed.

Lemma deliverable_nothingToSay : deliverable nothingToSay = true.
Proof. vm_compute. reflexivity. Qed.

Section WithEnv.
Variable E : Env.
Variable reply : string -> Message.t -> World E -> (Thrown.t + Message.t) * World E.
Variable send : string -> World E -> (Thrown.t + Message.t) * World E.

Lemma halts_replyTo replyMessage text : Halts E (replyTo E reply replyMessage text).
Proof. unfold replyTo. frame halts (@halts_bind E) (@halts_tryCatch E). Qed.

Lemma halts_channelSend text : Halts E (channelSend E send text).
Proof. unfold channelSend. frame halts (@halts_bind E) (@halts_tryCatch E). Qed.

Lemma halts_sendRemaining parts : Halts E (sendRemaining E send parts).
Proof.
  induction parts as [|part rest IH]; cbn [sendRemaining]; [apply halts_ret|].
  apply halts_bind; [|done]. destruct (blank part); [apply halts_ret|apply halts_channelSend].
Qed.

Lemma replyTo_strict replyMessage text (p : Proc E) :
  deliverable text = true ->
  replyTo E (strictReply reply) replyMessage text p = replyTo E reply replyMessage text p.
Proof. intros Hok. unfold replyTo, strictReply, bind, ask. by rewrite Hok. Qed.

Lemma channelSend_strict text (p : Proc E) :
  deliverable text = true ->
  channelSend E (strictSend send) text p = channelSend E send text p.
Proof. intros Hok. unfold channelSend, strictSend, bind, ask. by rewrite Hok. Qed.

Lemma sendRemaining_strict parts (p : Proc E) :
  Forall (fun part => (String.length part <= MAX_LENGTH)%nat) parts ->
  sendRemaining E (strictSend send) parts p = sendRemaining E send parts p.
Proof.
  intros Hparts. revert p. induction Hparts as [|part rest Hpart Hrest IH]; intros p; [done|].
  cbn [sendRemaining]. destruct (blank part) eqn:Hblank.
  - unfold bind, ret. apply IH.
  - transitivity (bind (channelSend E send part)
                    (fun _ => sendRemaining E (strictSend send) rest) p).
    + unfold bind. rewrite channelSend_strict; [done|].
      unfold deliverable. rewrite Hblank. cbn. by apply Nat.leb_le.
    + by apply bind_ext.
Qed.

(** X6.  [sendSplitMessage] ends, and it never hands Discord a text that is
    blank or longer than 1990 characters: against a channel that refuses
    such texts it does exactly what it does against one that takes
    everything. *)
Theorem sendSplitMessage_within_limit (content : string) (replyMessage : Message.t)
    (p : Proc E) :
  (sendSplitMessage E reply send content replyMessage p).1 <> OutOfFuel
  /\ sendSplitMessage E (strictReply reply) (strictSend send) content replyMessage p
     = sendSplitMessage E reply send content replyMessage p.
Proof.
  unfold sendSplitMessage. destruct (blank content) eqn:Hblank.
  { split.
    - apply halts_bind; [apply halts_replyTo|intros ?; apply halts_ret].
    - unfold bind. by rewrite replyTo_strict by apply deliverable_nothingToSay. }
  destruct (Nat.leb_spec (String.length content) MAX_LENGTH) as [Hshort|Hlong].
  { split.
    - apply halts_bind; [apply halts_replyTo|intros ?; apply halts_ret].
    - unfold bind. rewrite replyTo_strict; [done|].
      unfold deliverable. rewrite Hblank. cbn. by apply Nat.leb_le. }
  destruct (splitContent_spec content MAX_LENGTH MAX_LENGTH_pos)
    as (parts & -> & _ & Hfit & _).
  assert (Forall (fun part => (String.length part <= MAX_LENGTH)%nat) (tail parts)) as Hrest.
  { destruct Hfit; [constructor|done]. }
  split.
  - apply halts_bind.
    + destruct (head parts) as [firstPart|]; [|apply halts_ret].
      destruct (blank firstPart); [apply halts_ret|].
      apply halts_bind; [apply halts_replyTo|intros ?; apply halts_ret].
    + intros ?. apply halts_bind; [apply halts_sendRemaining|intros ?; apply halts_ret].
  - destruct Hfit as [|firstPart rest Hfirst Hfit]; cbn [head tail] in *.
    + done.
    + destruct (blank firstPart) eqn:HblankFirst.
      * unfold bind at 1 3. cbn [ret]. unfold bind. by rewrite sendRemaining_strict.
      * unfold bind. rewrite replyTo_strict.
        2:{ unfold deliverable. rewrite HblankFirst. cbn. by apply Nat.leb_le. }
        destruct (replyTo E reply replyMessage firstPart p) as [[sent| |] p1]; try done.
        cbn [ret]. by rewrite sendRemaining_strict.
Qed.

End WithEnv.
End DeliveryFacts.
(** ** More on the assembler *)
Module AssemblerLaws.
Import Spec Frame MessageUtils AssemblerFacts Text Shape.
Local Open Scope js_scope.

Lemma nameChar_allowed (c : ascii) : nameCharAllowed (nameChar c) = true.
Proof.
  change (nameChar c) with (if nameCharAllowed c then c else "_"%char).
  by destruct (nameCharAllowed c) eqn:Hc.
Qed.

Lemma nameChar_keeps (c : ascii) : nameCharAllowed c = true -> nameChar c = c.
Proof.
  intros Hc. change (nameChar c) with (if nameCharAllowed c then c else "_"%char).
  by rewrite Hc.
Qed.

Lemma allChars_substring0 (P : ascii -> bool) (n : nat) (s : string) :
  allChars P s = true -> allChars P (JS.substring0 n s) = true.
Proof.
  unfold JS.substring0. revert s. induction n as [|n IH]; intros [|c s]; cbn; try done.
  intros [Hc Hs]%andb_prop. rewrite Hc. cbn. by apply IH.
Qed.

Lemma substring0_whole (n : nat) (s : string) :
  (String.length s <= n)%nat -> JS.substring0 n s = s.
Proof.
  unfold JS.substring0. revert s. induction n as [|n IH]; intros [|c s]; cbn; try done.
  - lia.
  - intros Hlen. rewrite IH; [done|lia].
Qed.

Lemma prefix_refl (s : string) : String.prefix s s = true.
Proof. induction s as [|c s IH]; cbn; [done|]. destruct (ascii_dec c c); done. Qed.

Lemma includes_here (a b : string) : JS.includes (a +:+ b) a = true.
Proof.
  destruct a as [|c a]; [by destruct b|].
  cbn. rewrite PipelineFacts.append_cons. cbn [JS.includes].
  rewrite <- PipelineFacts.append_cons.
  rewrite (PipelineFacts.prefix_app _ _ _ (prefix_refl (String c a))). done.
Qed.

Lemma includes_later (a b pat : string) :
  JS.includes b pat = true -> JS.includes (a +:+ b) pat = true.
Proof.
  intros Hb. induction a as [|c a IH]; [done|].
  rewrite PipelineFacts.append_cons. cbn [JS.includes]. rewrite IH. apply orb_true_r.
Qed.

Ltac find_in_text :=
  repeat first [apply includes_here | apply includes_later].

(** X7.  The [name] given to a user turn is always one the endpoint takes:
    at most 64 characters, each a letter, a digit, an underscore or a hyphen;
    and a username that is already of that form is passed on unchanged. *)
Theorem cleanName_valid (username : string) :
  validName (cleanName username)
  /\ (validName username -> cleanName username = username).
Proof.
  unfold cleanName, validName. split; [split|].
  - rewrite DeliveryFacts.length_substring0. lia.
  - apply allChars_substring0. induction username as [|c s IH]; cbn; [done|].
    by rewrite nameChar_allowed, IH.
  - intros [Hlen Hall].
    assert (mapChars nameChar username = username) as ->; [|by apply substring0_whole].
    clear Hlen. induction username as [|c s IH]; cbn in *; [done|].
    apply andb_prop in Hall as [Hc Hs]. by rewrite nameChar_keeps, IH.
Qed.

(** *** The image cache *)

Lemma get_set_eq {V} (key : string) (v : V) (m : list (string * V)) :
  JsMap.get key (JsMap.set key v m) = Some v.
Proof.
  induction m as [|[k v0] m IH]; cbn.
  - by rewrite String.eqb_refl.
  - destruct (String.eqb k key) eqn:Hk; cbn; by rewrite Hk.
Qed.

Lemma length_set {V} (key : string) (v : V) (m : list (string * V)) :
  (length (JsMap.set key v m) <= S (length m))%nat.
Proof.
  induction m as [|[k v0] m IH]; cbn; [done|].
  destruct (String.eqb k key); cbn; lia.
Qed.

Lemma bounded_evict (c : list (string * string)) :
  Forall (fun entry => entry.1 <> EmptyString) c ->
  (100 <= length c)%nat ->
  (S (length (cacheEvictOldest c)) = length c)%nat
  /\ Forall (fun entry => entry.1 <> EmptyString) (cacheEvictOldest c).
Proof.
  intros Hkeys Hlen. destruct Hkeys as [|[k v] c Hk Hc]; [cbn in Hlen; lia|].
  unfold cacheEvictOldest. cbn [JsMap.keys fmap list_fmap fst].
  cbn in Hk. apply String.eqb_neq in Hk as ->.
  cbn [JsMap.delete]. by rewrite String.eqb_refl.
Qed.

Abbreviation Bounded E := (Steps E (keepsCacheBounded E)).

Section WithEnv.
Variable E : Env.

Lemma downloadAndCache_bounded (url : string) (p : Proc E) :
  url <> EmptyString ->
  cacheBounded (imageCache p) ->
  cacheBounded (imageCache (downloadAndCache E url p).2).
Proof.
  intros Hurl [Hlen Hkeys]. unfold downloadAndCache, bind, ask.
  destruct (fetchBase64 E url (world p)) as [[base64|] w]; cbn -[Nat.leb]; [|done].
  destruct (Nat.leb_spec 100 (length (imageCache p))) as [Hfull|Hroom].
  - destruct (bounded_evict _ Hkeys Hfull) as [Hone Hkeys1]. split.
    + etrans; [apply length_set|]. lia.
    + by apply Forall_set.
  - split.
    + etrans; [apply length_set|]. lia.
    + by apply Forall_set.
Qed.

Lemma convertImageToBase64_bounded (url : string) (p : Proc E) :
  url <> EmptyString ->
  cacheBounded (imageCache p) ->
  cacheBounded (imageCache (convertImageToBase64 E url p).2).
Proof.
  intros Hurl Hc. unfold convertImageToBase64, bind at 1, getImageCache.
  destruct (JsMap.get url (imageCache p)) as [cached|].
  - destruct (String.eqb cached EmptyString); [by apply downloadAndCache_bounded|done].
  - by apply downloadAndCache_bounded.
Qed.

(** X8.  Unless a call fell back to the bare URL, the same call made again
    is answered from the cache: it gives the same source, downloads
    nothing, and leaves the process as it is. *)
Theorem image_is_converted_once (url src : string) (p p1 : Proc E) :
  convertImageToBase64 E url p = (Ok src, p1) ->
  src <> url ->
  convertImageToBase64 E url p1 = (Ok src, p1).
Proof.
  assert (forall q q1, downloadAndCache E url q = (Ok src, q1) -> src <> url ->
                       convertImageToBase64 E url q1 = (Ok src, q1)) as Hdownload.
  { intros q q1. unfold downloadAndCache, bind, ask.
    destruct (fetchBase64 E url (world q)) as [[base64|] w]; cbn.
    - intros [= <- <-] _. unfold convertImageToBase64, bind, getImageCache. cbn.
      by rewrite get_set_eq, dataUrl_nonempty.
    - intros [= <- <-] Hne. done. }
  unfold convertImageToBase64 at 1, bind at 1, getImageCache.
  destruct (JsMap.get url (imageCache p)) as [cached|] eqn:Hget.
  - destruct (String.eqb cached EmptyString) eqn:Hcached; [apply Hdownload|].
    intros [= <- <-] _. unfold convertImageToBase64, bind, getImageCache.
    by rewrite Hget, Hcached.
  - apply Hdownload.
Qed.

(** *** Two more frames: the image cache within its bound, the trace untouched *)

Lemma keepsCacheBounded_refl (p : Proc E) : keepsCacheBounded E p p.
Proof. by intros ?. Qed.

Lemma keepsCacheBounded_trans (p1 p2 p3 : Proc E) :
  keepsCacheBounded E p1 p2 -> keepsCacheBounded E p2 p3 -> keepsCacheBounded E p1 p3.
Proof. unfold keepsCacheBounded. auto. Qed.

Lemma sameTrace_refl (p : Proc E) : sameTrace E p p.
Proof. done. Qed.

Lemma sameTrace_trans (p1 p2 p3 : Proc E) :
  sameTrace E p1 p2 -> sameTrace E p2 p3 -> sameTrace E p1 p3.
Proof. unfold sameTrace. congruence. Qed.

Lemma bounded_ret {A} (a : A) : Bounded E (ret a).
Proof. apply steps_ret, keepsCacheBounded_refl. Qed.

Lemma bounded_bind {A B} (m : M E A) (k : A -> M E B) :
  Bounded E m -> (forall a, Bounded E (k a)) -> Bounded E (bind m k).
Proof. apply steps_bind, keepsCacheBounded_trans. Qed.

Lemma bounded_getLedger : Bounded E getLedger.
Proof. intros p. apply keepsCacheBounded_refl. Qed.

Lemma quiet_ret {A} (a : A) : Quiet E (ret a).
Proof. by intros p. Qed.

Lemma quiet_throw {A} (e : Thrown.t) : Quiet E (@throw E A e).
Proof. by intros p. Qed.

Lemma quiet_bind {A B} (m : M E A) (k : A -> M E B) :
  Quiet E m -> (forall a, Quiet E (k a)) -> Quiet E (bind m k).
Proof. apply steps_bind, sameTrace_trans. Qed.

Lemma quiet_tryCatch {A} (m : M E A) (h : Thrown.t -> M E A) :
  Quiet E m -> (forall e, Quiet E (h e)) -> Quiet E (tryCatch m h).
Proof. apply steps_tryCatch, sameTrace_trans. Qed.

Lemma quiet_ask {A} (f : World E -> A * World E) : Quiet E (ask f).
Proof. intros p. unfold ask, sameTrace. by destruct (f (world p)). Qed.

Lemma quiet_getLedger : Quiet E getLedger.
Proof. by intros p. Qed.

Lemma quiet_modifyLedger f : Quiet E (modifyLedger f).
Proof. by intros p. Qed.

Lemma quiet_getImageCache : Quiet E getImageCache.
Proof. by intros p. Qed.

Lemma quiet_putImageCache c : Quiet E (putImageCache c).
Proof. by intros p. Qed.

Lemma quiet_mapM {A B} (f : A -> M E B) (l : list A) :
  (forall x, Quiet E (f x)) -> Quiet E (mapM f l).
Proof.
  intros Hf. induction l as [|x l IH]; cbn [mapM]; [apply quiet_ret|].
  apply quiet_bind; [done|]. intros y. apply quiet_bind; [done|]. intros ys. apply quiet_ret.
Qed.

Lemma bounded_mapM {A B} (f : A -> M E B) (l : list A) :
  Forall (fun x => Bounded E (f x)) l -> Bounded E (mapM f l).
Proof.
  intros Hf. induction Hf as [|x l Hx Hl IH]; cbn [mapM]; [apply bounded_ret|].
  apply bounded_bind; [done|]. intros y. apply bounded_bind; [done|]. intros ys.
  apply bounded_ret.
Qed.

End WithEnv.

Create HintDb quiet.
#[export] Hint Resolve quiet_ret quiet_throw quiet_ask quiet_getLedger quiet_modifyLedger
  quiet_getImageCache quiet_putImageCache : quiet.

Section WithEnv.
Variable E : Env.

Lemma quiet_convertImageToBase64 url : Quiet E (convertImageToBase64 E url).
Proof.
  unfold convertImageToBase64, downloadAndCache.
  frame quiet (@quiet_bind E) (@quiet_tryCatch E).
Qed.

Lemma quiet_convertAttachment att : Quiet E (convertAttachmentToContentPart E att).
Proof.
  pose proof quiet_convertImageToBase64.
  unfold convertAttachmentToContentPart. frame quiet (@quiet_bind E) (@quiet_tryCatch E).
Qed.

Lemma quiet_convertUserMessage message : Quiet E (convertUserMessage E message).
Proof.
  unfold convertUserMessage. apply quiet_bind; [|intros; apply quiet_ret].
  apply quiet_mapM, quiet_convertAttachment.
Qed.

Lemma quiet_convertBotAttachment att : Quiet E (convertBotAttachment E att).
Proof.
  pose proof quiet_convertImageToBase64.
  unfold convertBotAttachment. frame quiet (@quiet_bind E) (@quiet_tryCatch E).
Qed.

Lemma quiet_convertBotContent message : Quiet E (convertBotContent E message).
Proof.
  unfold convertBotContent. apply quiet_bind; [|intros; apply quiet_ret].
  apply quiet_mapM, quiet_convertBotAttachment.
Qed.

Lemma quiet_reinsertToolCalls message acc : Quiet E (reinsertToolCalls E message acc).
Proof. unfold reinsertToolCalls. frame quiet (@quiet_bind E) (@quiet_tryCatch E). Qed.

Lemma quiet_convertMessage acc message : Quiet E (convertMessage E acc message).
Proof.
  pose proof quiet_convertUserMessage. pose proof quiet_convertBotContent.
  pose proof quiet_reinsertToolCalls.
  unfold convertMessage. frame quiet (@quiet_bind E) (@quiet_tryCatch E).
Qed.

Lemma quiet_convertMessages acc messages : Quiet E (convertMessages E acc messages).
Proof.
  revert acc. induction messages as [|message rest IH]; intros acc; cbn [convertMessages].
  - apply quiet_ret.
  - apply quiet_bind; [apply quiet_convertMessage | intros; apply IH].
Qed.

Lemma quiet_fetchRecentMessages limit : Quiet E (fetchRecentMessages E limit).
Proof. unfold fetchRecentMessages. frame quiet (@quiet_bind E) (@quiet_tryCatch E). Qed.

Lemma returns_fetchRecentMessages limit : Returns E (fetchRecentMessages E limit).
Proof.
  unfold fetchRecentMessages. apply returns_tryCatch; [|intros; apply returns_ret].
  frame halts (@halts_bind E) (@halts_tryCatch E).
Qed.

Lemma keeps_fetchRecentMessages limit : KeepsLedger E (fetchRecentMessages E limit).
Proof. unfold fetchRecentMessages. frame keeps (@keeps_bind E) (@keeps_tryCatch E). Qed.

(** X9.  [fetchRecentMessages] always returns a window and never throws,
    whatever the anchor file and the channel do; only the world outside
    moves: the ledger, the image cache and the record of requests are as
    before. *)
Theorem fetchRecentMessages_total (limit : Z) (p : Proc E) :
  exists window p',
    fetchRecentMessages E limit p = (Ok window, p')
    /\ ledger p' = ledger p
    /\ trace p' = trace p
    /\ imageCache p' = imageCache p.
Proof.
  destruct (returns_fetchRecentMessages limit p) as (window & p' & Hrun).
  exists window, p'. split; [done|].
  pose proof (keeps_fetchRecentMessages limit p) as Hledger.
  pose proof (quiet_fetchRecentMessages limit p) as Htrace.
  rewrite Hrun in Hledger, Htrace. cbn in *. split; [done|]. split; [done|].
  revert Hrun. unfold fetchRecentMessages, tryCatch, bind, ask, ret, throw.
  repeat (case_match; cbn); intros; simplify_eq; try done.
Qed.

(** With the unknown-message error on the anchored fetch, the anchor is
    cleared and the window is fetched again without it. *)
Lemma stale_anchor_refetch limit (p : Proc E) anchorId w1 e w2 window w3 :
  getAnchorMessageId E (world p) = (Some anchorId, w1) ->
  anchorId <> EmptyString ->
  channelFetch E limit (Some anchorId) w1 = (FetchThrows true e, w2) ->
  channelFetch E limit None (clearAnchorMessageId E w2) = (Fetched window, w3) ->
  fetchRecentMessages E limit p = (Ok (rev window), set_world w3 p).
Proof.
  intros Hanchor Hne Hfirst Hsecond.
  unfold fetchRecentMessages, tryCatch, bind, ask. rewrite Hanchor. cbn.
  apply String.eqb_neq in Hne as ->. cbn. rewrite Hfirst. cbn. by rewrite Hsecond.
Qed.

(** X10.  An anchor that Discord no longer knows does not cost the window:
    when the anchored fetch fails with the unknown-message error, the anchor
    is cleared and the window is fetched again without an anchor, oldest
    message first; any other failure of the anchored fetch gives the empty
    window and leaves the anchor alone. *)
Theorem stale_anchor_is_cleared limit (p : Proc E) anchorId w1 e w2 :
  getAnchorMessageId E (world p) = (Some anchorId, w1) ->
  anchorId <> EmptyString ->
  (channelFetch E limit (Some anchorId) w1 = (FetchThrows true e, w2) ->
   forall window w3,
     channelFetch E limit None (clearAnchorMessageId E w2) = (Fetched window, w3) ->
     fetchRecentMessages E limit p = (Ok (rev window), set_world w3 p))
  /\ (channelFetch E limit (Some anchorId) w1 = (FetchThrows false e, w2) ->
      fetchRecentMessages E limit p = (Ok [], set_world w2 p)).
Proof.
  intros Hanchor Hne. split.
  - intros Hfirst window w3 Hsecond. by eapply stale_anchor_refetch.
  - intros Hfirst. unfold fetchRecentMessages, tryCatch, bind, ask. rewrite Hanchor. cbn.
    apply String.eqb_neq in Hne as ->. cbn. by rewrite Hfirst.
Qed.

(** *** What the assembly does to the cache and to the trace *)

Lemma bounded_convertImageToBase64 url :
  url <> EmptyString -> Bounded E (convertImageToBase64 E url).
Proof. intros Hurl p Hc. by apply convertImageToBase64_bounded. Qed.

Lemma bounded_convertAttachment att :
  Attachment.url att <> EmptyString -> Bounded E (convertAttachmentToContentPart E att).
Proof.
  intros Hurl. unfold convertAttachmentToContentPart.
  repeat case_match; try apply bounded_ret.
  apply bounded_bind; [by apply bounded_convertImageToBase64|intros; apply bounded_ret].
Qed.

Lemma bounded_convertBotAttachment att :
  Attachment.url att <> EmptyString -> Bounded E (convertBotAttachment E att).
Proof.
  intros Hurl. unfold convertBotAttachment.
  repeat case_match; try apply bounded_ret.
  apply bounded_bind; [by apply bounded_convertImageToBase64|intros; apply bounded_ret].
Qed.

Lemma bounded_convertMessage acc message :
  Forall (fun a => Attachment.url a <> EmptyString) (Message.attachments message) ->
  Bounded E (convertMessage E acc message).
Proof.
  intros Hurls. unfold convertMessage. repeat case_match; try apply bounded_ret.
  - unfold convertUserMessage. apply bounded_bind; [|intros; apply bounded_ret].
    apply bounded_bind; [|intros; apply bounded_ret].
    apply bounded_mapM. eapply Forall_impl; [exact Hurls|]. apply bounded_convertAttachment.
  - apply bounded_bind.
    + unfold convertBotContent. apply bounded_bind; [|intros; apply bounded_ret].
      apply bounded_mapM. eapply Forall_impl; [exact Hurls|].
      apply bounded_convertBotAttachment.
    + intros [text|]; [|apply bounded_ret]. unfold reinsertToolCalls.
      apply bounded_bind; [apply bounded_getLedger|]. intros store.
      repeat case_match; apply bounded_ret.
Qed.

Lemma bounded_convertMessages acc messages :
  Forall (fun m => Forall (fun a => Attachment.url a <> EmptyString) (Message.attachments m))
    messages ->
  Bounded E (convertMessages E acc messages).
Proof.
  intros Hurls. revert acc.
  induction Hurls as [|message rest Hm Hrest IH]; intros acc; cbn [convertMessages].
  - apply bounded_ret.
  - apply bounded_bind; [by apply bounded_convertMessage | intros; apply IH].
Qed.

(** X11.  The image cache never outgrows its bound: started with at most
    100 entries, none under the empty URL, the assembly of any window whose
    attachments have non-empty URLs ends with at most 100 entries, none
    under the empty URL. *)
Theorem image_cache_stays_bounded (messages : list Message.t) (query : string)
    (p : Proc E) :
  Forall (fun m => Forall (fun a => Attachment.url a <> EmptyString) (Message.attachments m))
    messages ->
  cacheBounded (imageCache p) ->
  cacheBounded (imageCache (convertToAIMessages E messages query p).2).
Proof.
  intros Hurls. revert p. change (Bounded E (convertToAIMessages E messages query)).
  unfold convertToAIMessages. apply bounded_bind; [by apply bounded_convertMessages|].
  intros history. case_match; apply bounded_ret.
Qed.

(** X12.  Assembling the history asks nothing of the endpoint and runs no
    tool.  It always returns; what it returns is the conversion of the window
    followed by the trimmed query as a plain user turn, or by nothing when
    the query is blank; the ledger and the trace are as before. *)
Theorem assembly_is_quiet (messages : list Message.t) (query : string) (p : Proc E) :
  exists history p',
    convertMessages E [] messages p = (Ok history, p')
    /\ convertToAIMessages E messages query p = (Ok (history ++ queryTurn query), p')
    /\ ledger p' = ledger p
    /\ trace p' = trace p.
Proof.
  destruct (returns_convertMessages E [] messages p) as (history & p' & Hrun).
  exists history, p'. split; [done|].
  pose proof (keeps_convertMessages E [] messages p) as Hledger.
  pose proof (quiet_convertMessages [] messages p) as Htrace.
  rewrite Hrun in Hledger, Htrace. cbn in *. split; [|done].
  unfold convertToAIMessages, bind. rewrite Hrun. unfold queryTurn.
  destruct (String.eqb (JS.trim query) EmptyString); [|done]. by rewrite app_nil_r.
Qed.

(** *** The turns of the users *)

Lemma no_userName_toolMessages calls results :
  omap userName (toolMessages calls results) = [].
Proof.
  rewrite toolMessages_zip. revert calls.
  induction results as [|r results IH]; intros [|c calls]; cbn; done.
Qed.

Lemma convertMessage_userNames acc message (p p1 : Proc E) out :
  convertMessage E acc message p = (Ok out, p1) ->
  omap userName out
  = omap userName acc
    ++ (if Author.bot (Message.author message) then []
        else [cleanName (speaker message)]).
Proof.
  unfold convertMessage. destruct (Author.bot (Message.author message)); cbn [negb andb].
  - case_match.
    { intros [= <- <-]. by rewrite app_nil_r. }
    unfold bind at 1. destruct (convertBotContent E message p) as [[[text|]|e|] p2];
      try done.
    + unfold reinsertToolCalls, bind, getLedger.
      destruct (ToolCallsStore.getToolCallsForMessage message (ledger p2)) as [d|].
      * destruct (ToolCallsStore.toolCalls d) as [|c calls].
        { intros [= <- <-]. rewrite omap_app. cbn. done. }
        rewrite last_snoc, removelast_last. intros [= <- <-].
        rewrite omap_app. f_equal.
        change (omap userName (toolMessages (c :: calls) (ToolCallsStore.toolResults d)
                               ++ [AssistantMessage (Some text) None]) = []).
        by rewrite omap_app, no_userName_toolMessages.
      * intros [= <- <-]. rewrite omap_app. cbn. done.
    + intros [= <- <-]. by rewrite app_nil_r.
  - unfold convertUserMessage, bind.
    destruct (mapM _ _ p) as [[parts|e|] p2]; try done.
    intros [= <- <-]. rewrite omap_app. cbn. done.
Qed.

Lemma convertMessages_userNames acc messages (p p1 : Proc E) out :
  convertMessages E acc messages p = (Ok out, p1) ->
  omap userName out
  = omap userName acc
    ++ ((fun m => cleanName (speaker m))
          <$> filter (fun m => Author.bot (Message.author m) = false) messages).
Proof.
  revert acc p. induction messages as [|message rest IH]; intros acc p; cbn [convertMessages].
  - intros [= <- <-]. by rewrite app_nil_r.
  - unfold bind. destruct (convertMessage E acc message p) as [[acc1|e|] p2] eqn:Hm; try done.
    intros Hrest. rewrite (IH _ _ Hrest), (convertMessage_userNames _ _ _ _ _ Hm).
    rewrite filter_cons. rewrite <- app_assoc. f_equal.
    destruct (Author.bot (Message.author message)); by case_decide.
Qed.

(** X13.  No user is dropped from the history and none is put twice: the
    named user turns of the assembled history are, in order, the messages of
    the window that no bot wrote, each under the cleaned name of its
    speaker; the turn of the query carries no name. *)
Theorem user_turns_follow_window (messages : list Message.t) (query : string)
    (p p' : Proc E) (out : list AIMessage) :
  convertToAIMessages E messages query p = (Ok out, p') ->
  omap userName out
  = (fun m => cleanName (speaker m))
      <$> filter (fun m => Author.bot (Message.author m) = false) messages.
Proof.
  unfold convertToAIMessages, bind.
  destruct (convertMessages E [] messages p) as [[history|e|] p1] eqn:Hrun; try done.
  apply convertMessages_userNames in Hrun. cbn in Hrun.
  case_match; intros [= <- <-]; [done|].
  rewrite omap_app. cbn. by rewrite app_nil_r.
Qed.

(** *** Attachments that are not images *)

(** X14.  Only attachments declared as images are downloaded.  An
    attachment of any other declared type, or of none, becomes a text
    segment that names its URL, and the conversion changes nothing in the
    process: no fetch, no cache entry. *)
Theorem only_images_are_downloaded (attachment : Attachment.t) (p : Proc E) :
  (forall contentType,
      Attachment.contentType attachment = Some contentType ->
      JS.startsWith contentType "image/" = false) ->
  exists text,
    convertAttachmentToContentPart E attachment p = (Ok (TextPart text), p)
    /\ JS.includes text (Attachment.url attachment) = true.
Proof.
  intros Hnot. unfold convertAttachmentToContentPart.
  assert (JS.includes (attachmentText attachment) (Attachment.url attachment) = true)
    as Htext.
  { unfold attachmentText. find_in_text. }
  destruct (Attachment.contentType attachment) as [contentType|] eqn:Hct;
    [|by eexists].
  rewrite (Hnot _ eq_refl).
  destruct (String.eqb contentType EmptyString); [by eexists|].
  destruct (JS.startsWith contentType "audio/"); [|by eexists].
  eexists. split; [done|]. find_in_text.
Qed.

End WithEnv.
End AssemblerLaws.
(** ** More on the client *)
Module ClientLaws.
Import Spec Frame ClientFacts AssemblerFacts Shape.
Local Open Scope js_scope.

Lemma categorize_shape (maxTokens : Z) (error : Thrown.t) :
  exists sentence,
    AIService.categorize maxTokens error = newError ("AI service" +:+ sentence).
Proof.
  unfold AIService.categorize.
  destruct (Thrown.status error) as [status|]; repeat case_match; by eexists.
Qed.

Section WithEnv.
Variable E : Env.

(** X15.  Whatever [generateResponse] throws is an [Error] made by the
    client itself: its message opens with the words AI service, and it
    carries no status, so a second client would not sort it again. *)
Theorem errors_are_categorized (service : AIService.t) (messages : list AIMessage)
    (p p' : Proc E) (e : Thrown.t) :
  AIService.generateResponse service messages p = (Throw e, p') ->
  Thrown.instanceofError e = true
  /\ Thrown.status e = None
  /\ JS.startsWith (Thrown.message e) "AI service" = true
  /\ Thrown.toString e = "Error: " +:+ Thrown.message e.
Proof.
  rewrite generateResponse_spec. intros [= Hthrow _].
  assert (exists error, e = AIService.categorize (AIService.maxTokens service) error)
    as [error ->].
  { repeat case_match; simplify_eq; by eexists. }
  destruct (categorize_shape (AIService.maxTokens service) error) as [sentence ->].
  repeat split; try done. cbn [Thrown.message newError]. unfold JS.startsWith.
  by apply (PipelineFacts.prefix_app "AI service" "AI service" sentence).
Qed.

(** X16.  What the assembler later rebuilds from the ledger is what went to
    the endpoint the first time: when every call of a turn is a function
    call, the tool messages re-created from the stored calls and results are
    the tool messages of the follow-up request. *)
Theorem ledger_replays_tool_messages (executeTool : string -> Json E -> M E string)
    (calls : list ToolCall) (results : list ToolResult.t) (p p' : Proc E) :
  Forall (fun call => call_function_name call <> None) calls ->
  AIService.processToolCalls executeTool (Some calls) p = (Ok results, p') ->
  MessageUtils.toolMessages calls results = AIService.createToolResultMessages results.
Proof.
  intros Hfun Hrun. cbn [AIService.processToolCalls] in Hrun.
  pose proof (PipelineFacts.processToolCallsFrom_result E executeTool [] calls p) as Hids.
  rewrite Hrun in Hids. destruct Hids as (added & -> & Hids).
  assert (functionCallIds calls = call_id <$> calls) as Hall.
  { clear -Hfun. induction Hfun as [|[id name args|id name input] calls Hcall Hcalls IH];
      cbn in *; [done| |done]. by rewrite <- IH. }
  rewrite Hall in Hids. cbn [app]. rewrite toolMessages_zip.
  unfold AIService.createToolResultMessages. clear -Hids. revert calls Hids.
  induction added as [|r results IH]; intros [|c calls]; cbn; try done.
  intros [= Hid Hrest]. rewrite Hid. f_equal. by apply IH.
Qed.

End WithEnv.
End ClientLaws.

(** ** More on the nested agent *)
Module AgentLaws.
Import Spec Frame ClientFacts AssemblerFacts AgentFacts OpenProjectAgent Shape.
Local Open Scope js_scope.

Lemma sameRequests_refl E (p : Proc E) : sameRequests E p p.
Proof. done. Qed.

Lemma sameRequests_trans E (p1 p2 p3 : Proc E) :
  sameRequests E p1 p2 -> sameRequests E p2 p3 -> sameRequests E p1 p3.
Proof. unfold sameRequests. congruence. Qed.

Lemma onlyNestedEvents_refl E (p : Proc E) : onlyNestedEvents E p p.
Proof. exists []. by rewrite app_nil_r. Qed.

Lemma onlyNestedEvents_trans E (p1 p2 p3 : Proc E) :
  onlyNestedEvents E p1 p2 -> onlyNestedEvents E p2 p3 -> onlyNestedEvents E p1 p3.
Proof.
  intros (t1 & H1 & Hall1) (t2 & H2 & Hall2). exists (t1 ++ t2).
  split; [by rewrite H2, H1, app_assoc|]. by apply Forall_app.
Qed.

Abbreviation Calm E := (Steps E (sameRequests E)).
Abbreviation Confined E := (Steps E (onlyNestedEvents E)).

Section WithEnv.
Variable E : Env.

Abbreviation nested := (OpenProjectToolsRegistry.new E).

Lemma calm_ret {A} (a : A) : Calm E (ret a).
Proof. by intros p. Qed.

Lemma calm_throw {A} (e : Thrown.t) : Calm E (@throw E A e).
Proof. by intros p. Qed.

Lemma calm_bind {A B} (m : M E A) (k : A -> M E B) :
  Calm E m -> (forall a, Calm E (k a)) -> Calm E (bind m k).
Proof. apply steps_bind, sameRequests_trans. Qed.

Lemma calm_tryCatch {A} (m : M E A) (h : Thrown.t -> M E A) :
  Calm E m -> (forall e, Calm E (h e)) -> Calm E (tryCatch m h).
Proof. apply steps_tryCatch, sameRequests_trans. Qed.

Lemma calm_ask {A} (f : World E -> A * World E) : Calm E (ask f).
Proof. intros p. unfold ask, sameRequests, requestCount. by destruct (f (world p)). Qed.

Lemma calm_executed name : Calm E (record (Executed name)).
Proof.
  intros p. unfold sameRequests, requestCount. cbn.
  rewrite List.filter_app. cbn. by rewrite app_nil_r.
Qed.

Lemma confined_ret {A} (a : A) : Confined E (ret a).
Proof. intros p. apply onlyNestedEvents_refl. Qed.

Lemma confined_throw {A} (e : Thrown.t) : Confined E (@throw E A e).
Proof. intros p. apply onlyNestedEvents_refl. Qed.

Lemma confined_out_of_fuel {A} : Confined E (fun p => (@OutOfFuel A, p)).
Proof. intros p. apply onlyNestedEvents_refl. Qed.

Lemma confined_bind {A B} (m : M E A) (k : A -> M E B) :
  Confined E m -> (forall a, Confined E (k a)) -> Confined E (bind m k).
Proof. apply steps_bind, onlyNestedEvents_trans. Qed.

Lemma confined_tryCatch {A} (m : M E A) (h : Thrown.t -> M E A) :
  Confined E m -> (forall e, Confined E (h e)) -> Confined E (tryCatch m h).
Proof. apply steps_tryCatch, onlyNestedEvents_trans. Qed.

Lemma confined_ask {A} (f : World E -> A * World E) : Confined E (ask f).
Proof.
  intros p. exists []. unfold ask. destruct (f (world p)). cbn. by rewrite app_nil_r.
Qed.

Lemma confined_executed name :
  name ∈ getToolNames nested -> Confined E (record (Executed name)).
Proof. intros Hname p. exists [Executed name]. split; [done|]. by apply Forall_singleton. Qed.

Lemma calm_parseJson argsString : Calm E (@parseJson E argsString).
Proof. unfold parseJson. destruct (JSON_parse E _); [apply calm_throw | apply calm_ret]. Qed.

Lemma confined_parseJson argsString : Confined E (@parseJson E argsString).
Proof.
  unfold parseJson. destruct (JSON_parse E _); [apply confined_throw | apply confined_ret].
Qed.

Lemma calm_executeTool name args :
  Calm E (OpenProjectToolsRegistry.executeTool nested name args).
Proof.
  unfold OpenProjectToolsRegistry.executeTool, executeToolIn.
  destruct (JsMap.get _ _) as [tool|] eqn:Hget; [|apply calm_throw].
  apply nested_tools_external in Hget as [body ->].
  apply calm_bind; [apply calm_executed|]. intros _. cbn.
  apply calm_bind; [apply calm_ask|]. intros [text|e]; [apply calm_ret|apply calm_throw].
Qed.

Lemma confined_executeTool name args :
  Confined E (OpenProjectToolsRegistry.executeTool nested name args).
Proof.
  unfold OpenProjectToolsRegistry.executeTool, executeToolIn.
  destruct (JsMap.get _ _) as [tool|] eqn:Hget; [|apply confined_throw].
  assert (name ∈ getToolNames nested) as Hname.
  { apply get_entry in Hget. unfold getToolNames, JsMap.keys.
    apply list_elem_of_fmap. by exists (name, tool). }
  apply nested_tools_external in Hget as [body ->].
  apply confined_bind; [by apply confined_executed|]. intros _. cbn.
  apply confined_bind; [apply confined_ask|].
  intros [text|e]; [apply confined_ret|apply confined_throw].
Qed.

Lemma calm_executeToolCalls toolResults calls :
  Calm E (executeToolCalls E nested toolResults calls).
Proof.
  revert toolResults. induction calls as [|toolCall rest IH]; intros toolResults;
    cbn [executeToolCalls]; [apply calm_ret|].
  apply calm_bind; [|intros; apply IH].
  destruct toolCall; cbn [executeToolCall]; [|apply calm_ret].
  apply calm_tryCatch; [|intros; apply calm_ret].
  apply calm_bind; [apply calm_parseJson|]. intros toolArgs.
  apply calm_bind; [apply calm_executeTool|intros; apply calm_ret].
Qed.

Lemma confined_executeToolCalls toolResults calls :
  Confined E (executeToolCalls E nested toolResults calls).
Proof.
  revert toolResults. induction calls as [|toolCall rest IH]; intros toolResults;
    cbn [executeToolCalls]; [apply confined_ret|].
  apply confined_bind; [|intros; apply IH].
  destruct toolCall; cbn [executeToolCall]; [|apply confined_ret].
  apply confined_tryCatch; [|intros; apply confined_ret].
  apply confined_bind; [apply confined_parseJson|]. intros toolArgs.
  apply confined_bind; [apply confined_executeTool|intros; apply confined_ret].
Qed.

Lemma calm_toolTurn task max_iterations s response calls :
  Calm E (toolTurn E nested task max_iterations s response calls).
Proof.
  unfold toolTurn. apply calm_bind; [apply calm_executeToolCalls | intros; apply calm_ret].
Qed.

Lemma foundUserId_needs_listing task calls toolResults :
  taskAsksForListing task = false -> foundUserId task calls toolResults = false.
Proof.
  intros Htask. unfold foundUserId. induction calls as [|call calls IH]; cbn; [done|].
  rewrite IH, orb_false_r. destruct (call_function_name call); [|done].
  rewrite Htask. case_match; by rewrite ?andb_false_r.
Qed.

(** The requests of the loop, counted against the distance of the counter
    from the ceiling in force: the budget when the heuristic cannot fire,
    the budget plus two otherwise. *)
Lemma agentLoop_requests fuel service task max_iterations ceiling s (p : Proc E) :
  (taskAsksForListing task = false /\ foundUserIdButNeedsList s = false
   /\ ceiling = max_iterations)
  \/ ceiling = max_iterations + 2 ->
  (requestCount E (agentLoop E fuel service nested task max_iterations s p).2
   <= requestCount E p + Z.to_nat (ceiling - iterationCount s))%nat.
Proof.
  revert s p. induction fuel as [|fuel IH]; intros s p Hceiling.
  { cbn [agentLoop]. destruct (loopCondition _ _); cbn; lia. }
  destruct (loopCondition max_iterations s) eqn:Hcond.
  2:{ rewrite agentLoop_stop by done. cbn. lia. }
  assert (iterationCount s < ceiling) as Hroom.
  { destruct Hceiling as [(_ & Hfound & ->)| ->]; [|by apply loopCondition_bound].
    unfold loopCondition in Hcond. rewrite Hfound in Hcond. cbn in Hcond. lia. }
  rewrite agentLoop_round by done. unfold bind at 1. rewrite generateResponse_spec.
  pose proof (requestCount_afterRequest E service (messages s) p) as Hone.
  destruct ((chatCompletionsCreate E _ _).1) as [e|[response|]]; cbn [fst snd]; try lia.
  destruct (Completion.tool_calls response) as [[|toolCall others]|]; cbn [ret snd]; try lia.
  destruct (toolTurn_returns E task max_iterations s response (toolCall :: others)
              (afterRequest E service (messages s) p))
    as (toolResults & p2 & _ & Hturn).
  pose proof (calm_toolTurn task max_iterations s response (toolCall :: others)
                (afterRequest E service (messages s) p)) as Hcalm.
  rewrite Hturn in Hcalm. rewrite (bind_ok _ _ _ _ _ _ Hturn). cbn in Hcalm.
  unfold sameRequests in Hcalm.
  etrans; [apply IH|].
  - destruct Hceiling as [(Htask & Hfound & ->)| ->]; [left|by right].
    split; [done|]. split; [|done]. cbn [afterToolTurn foundUserIdButNeedsList].
    by rewrite Hfound, foundUserId_needs_listing.
  - cbn [iterationCount afterToolTurn]. lia.
Qed.

Lemma finalRequest_requests service max_iterations s (p : Proc E) :
  (requestCount E (finalRequest E service max_iterations s p).2
   <= requestCount E p + 1)%nat.
Proof.
  unfold finalRequest. case_match; [|cbn; lia].
  unfold bind. rewrite generateResponse_spec.
  pose proof (requestCount_afterRequest E service (messages s) p) as Hone.
  destruct ((chatCompletionsCreate E _ _).1) as [e|[response|]]; cbn [fst snd ret]; lia.
Qed.

Lemma execute_requests fuel options ceiling (p : Proc E) :
  (taskAsksForListing (task options) = false
   /\ ceiling = default 5 (max_iterations options))
  \/ ceiling = default 5 (max_iterations options) + 2 ->
  (requestCount E (execute E fuel options p).2
   <= requestCount E p + Z.to_nat ceiling + 1)%nat.
Proof.
  intros Hceiling. unfold execute, tryCatch, runAgent. rewrite bind_assoc. unfold bind at 1.
  match goal with
  | |- context [agentLoop E fuel ?service nested ?task ?N ?s p] =>
      pose proof (agentLoop_requests fuel service task N ceiling s p) as Hloop;
      destruct (agentLoop E fuel service nested task N s p) as [[s1|e|] p1]
  end; cbn [snd iterationCount] in Hloop.
  - unfold bind.
    match goal with
    | |- context [finalRequest E ?service ?N s1 p1] =>
        pose proof (finalRequest_requests service N s1 p1) as Hfinal;
        destruct (finalRequest E service N s1 p1) as [[s2|e|] p2]
    end; cbn [snd ret] in *; rewrite Z.sub_0_r in Hloop; (etrans; [apply Hfinal|]);
      (etrans; [apply Nat.add_le_mono_r, Hloop|]); try lia; tauto.
  - cbn [snd ret]. rewrite Z.sub_0_r in Hloop. etrans; [apply Hloop; tauto|]. lia.
  - cbn [snd]. rewrite Z.sub_0_r in Hloop. etrans; [apply Hloop; tauto|]. lia.
Qed.

(** X17.  One call of the nested agent makes at most the budget plus three
    completion requests, whatever the endpoint and the tools do and however
    the call ends. *)
Theorem nested_agent_request_bound (fuel : nat) (options : OpenProjectAgentOptions)
    (p : Proc E) :
  (requestCount E (execute E fuel options p).2
   <= requestCount E p + Z.to_nat (default 5 (max_iterations options) + 2)%Z + 1)%nat.
Proof. apply execute_requests. by right. Qed.

(** X18.  The two extra rounds are for listing tasks only: when the task
    names neither a list, nor an issue, nor a work package, one call of the
    nested agent makes at most the budget plus one completion requests. *)
Theorem no_extension_without_listing_task (fuel : nat) (options : OpenProjectAgentOptions)
    (p : Proc E) :
  taskAsksForListing (task options) = false ->
  (requestCount E (execute E fuel options p).2
   <= requestCount E p + Z.to_nat (default 5%Z (max_iterations options)) + 1)%nat.
Proof. intros Htask. apply execute_requests. by left. Qed.

Lemma confined_generateResponse service messages :
  AIService.tools service = getToolDefinitions nested ->
  Confined E (AIService.generateResponse service messages).
Proof.
  intros Htools p. rewrite generateResponse_spec. cbn [snd].
  exists [Requested (AIService.request service messages)]. split; [done|].
  apply Forall_singleton. unfold nestedEvent, AIService.request.
  cbn [ChatRequest.tools]. by rewrite Htools, nested_tools.
Qed.

Lemma confined_agentLoop fuel service task max_iterations s :
  AIService.tools service = getToolDefinitions nested ->
  Confined E (agentLoop E fuel service nested task max_iterations s).
Proof.
  intros Htools. revert s. induction fuel as [|fuel IH]; intros s; cbn [agentLoop];
    destruct (loopCondition _ _); try apply confined_ret; [apply confined_out_of_fuel|].
  apply confined_bind; [by apply confined_generateResponse|]. intros response.
  destruct (Completion.tool_calls response) as [[|toolCall others]|];
    try apply confined_ret.
  apply confined_bind; [|intros; apply IH].
  unfold toolTurn.
  apply confined_bind; [apply confined_executeToolCalls | intros; apply confined_ret].
Qed.

(** X19.  The nested agent asks nothing of the world but completion
    requests that offer the tools of its own registry, and executions of
    those tools: every event one call of it adds to the record is of one of
    these two kinds. *)
Theorem nested_agent_events_confined (fuel : nat) (options : OpenProjectAgentOptions)
    (p : Proc E) :
  exists t,
    trace (execute E fuel options p).2 = trace p ++ t
    /\ Forall (nestedEvent E) t.
Proof.
  revert p. change (Confined E (execute E fuel options)).
  unfold execute. apply confined_tryCatch; [|intros; apply confined_ret].
  apply confined_bind; [|intros; apply confined_ret].
  unfold runAgent. apply confined_bind; [by apply confined_agentLoop|]. intros s.
  unfold finalRequest. case_match; [|apply confined_ret].
  apply confined_bind; [by apply confined_generateResponse|intros; apply confined_ret].
Qed.

(** X20.  An answer without tool calls ends the call at once: when the
    first reply of the endpoint carries a text and asks for no tool, the
    nested agent returns that text in its frame after this one request, with
    the counter at one and nothing executed. *)
Theorem direct_answer_costs_one_request (fuel : nat) (options : OpenProjectAgentOptions)
    (p : Proc E) (text : string) (toolCalls : option (list ToolCall)) (w : World E) :
  let N := default 5 (max_iterations options) in
  let service := agentService E (task options) (context options) N nested in
  let opening := initialMessages (task options) (context options) in
  0 < N ->
  text <> EmptyString ->
  toolCalls = None \/ toolCalls = Some [] ->
  chatCompletionsCreate E (AIService.request service opening) (world p)
  = (ApiChoices (Some {| Completion.content := Some text;
                         Completion.tool_calls := toolCalls |}), w) ->
  execute E (S fuel) options p
  = (Ok (resultText E nested {| messages := opening;
                                iterationCount := 1;
                                finalResponse := text;
                                foundUserIdButNeedsList := false |}),
     afterRequest E service opening p).
Proof.
  intros N service opening HN Htext Hcalls Hreply.
  assert (agentLoop E (S fuel) service nested (task options) N
            {| messages := opening; iterationCount := 0; finalResponse := EmptyString;
               foundUserIdButNeedsList := false |} p
          = (Ok {| messages := opening; iterationCount := 1; finalResponse := text;
                   foundUserIdButNeedsList := false |},
             afterRequest E service opening p)) as Hloop.
  { rewrite agentLoop_round.
    2:{ unfold loopCondition. cbn. apply orb_true_iff. left. by apply Z.ltb_lt. }
    unfold bind. rewrite generateResponse_spec. cbn [messages]. rewrite Hreply.
    by destruct Hcalls as [-> | ->]. }
  unfold execute, tryCatch, runAgent. fold N. fold service. fold opening.
  unfold bind. rewrite Hloop. unfold finalRequest. cbn [finalResponse].
  apply String.eqb_neq in Htext as ->. done.
Qed.

End WithEnv.
End AgentLaws.
(** ** Permissions and the entry of the handler *)
Module AccessFacts.
Import Spec Frame Permissions Entry Shape.
Local Open Scope js_scope.

Lemma includes_elem_of (l : list string) (x : string) :
  includes l x = true <-> x ∈ l.
Proof.
  unfold includes. rewrite existsb_exists. split.
  - intros (y & Hin & Heq). apply String.eqb_eq in Heq as ->. by apply list_elem_of_In.
  - intros Hin. exists x. split; [by apply list_elem_of_In|apply String.eqb_refl].
Qed.

(** X21.  Access is denied by default.  A message is allowed exactly when
    it comes from a member of a guild that has an entry in the permission
    file, and the member's id is among the entry's users or one of the
    member's roles is among the entry's roles. *)
Theorem isUserAllowed_iff (guildPermissions : gmap string GuildPermissions)
    (incoming : Incoming) :
  isUserAllowed guildPermissions incoming = true
  <-> exists guildId guildMember permissions,
        guild incoming = Some guildId
        /\ member incoming = Some guildMember
        /\ guildPermissions !! guildId = Some permissions
        /\ ((exists users,
                allowedUsers permissions = Some users /\ member_id guildMember ∈ users)
            \/ (exists allowed role,
                  allowedRoles permissions = Some allowed
                  /\ role ∈ roles guildMember /\ role ∈ allowed)).
Proof.
  unfold isUserAllowed. split.
  - destruct (guild incoming) as [guildId|]; [|done].
    destruct (member incoming) as [guildMember|]; [|done].
    destruct (guildPermissions !! guildId) as [permissions|] eqn:Hentry; [|done].
    intros Hallowed. exists guildId, guildMember, permissions. repeat split; try done.
    destruct (allowedUsers permissions) as [users|] eqn:Husers.
    + destruct (includes users (member_id guildMember)) eqn:Hin.
      * left. exists users. split; [done|]. by apply includes_elem_of.
      * right. destruct (allowedRoles permissions) as [[|r rs]|]; try done.
        apply existsb_exists in Hallowed as (role & Hrole & Hin').
        exists (r :: rs), role. split; [done|].
        split; [by apply list_elem_of_In|by apply includes_elem_of].
    + right. destruct (allowedRoles permissions) as [[|r rs]|]; try done.
      apply existsb_exists in Hallowed as (role & Hrole & Hin').
      exists (r :: rs), role. split; [done|].
      split; [by apply list_elem_of_In|by apply includes_elem_of].
  - intros (guildId & guildMember & permissions & -> & -> & -> & Hrule).
    destruct Hrule as [(users & -> & Hin)|(allowed & role & Hroles & Hrole & Hin)].
    + apply includes_elem_of in Hin. by rewrite Hin.
    + case_match; [done|]. rewrite Hroles.
      destruct allowed as [|r rs]; [by apply elem_of_nil in Hin|].
      apply existsb_exists. exists role.
      split; [by apply list_elem_of_In|by apply includes_elem_of].
Qed.

Section WithEnv.
Variable E : Env.
Variable fuel : nat.
Variable guildPermissions : gmap string GuildPermissions.
Variable reply : string -> Message.t -> World E -> (Thrown.t + Message.t) * World E.

(** X22.  Nothing is done for a message that does not pass the entry of the
    handler.  If handling a message leaves a trace (a completion request, a
    tool execution), or changes the ledger or the image cache, then the
    message was written by a user and not a bot, in a text channel, it
    mentions the bot, and its author is allowed. *)
Theorem only_allowed_mentions_are_served (incoming : Incoming)
    (clientUserId : option string) (p : Proc E) :
  let p' := (handleMessage E fuel guildPermissions reply incoming clientUserId p).2 in
  trace p' <> trace p \/ ledger p' <> ledger p \/ imageCache p' <> imageCache p ->
  Author.bot (Message.author (message incoming)) = false
  /\ inTextChannel incoming = true
  /\ (exists clientId,
        clientUserId = Some clientId /\ isBotMentioned incoming clientId = true)
  /\ isUserAllowed guildPermissions incoming = true.
Proof.
  intros p' Hmoved. subst p'. unfold handleMessage in Hmoved.
  destruct (Author.bot _); [cbn in Hmoved; tauto|].
  destruct (inTextChannel incoming); [|cbn in Hmoved; tauto]. cbn [negb] in Hmoved.
  destruct clientUserId as [clientId|]; [|cbn in Hmoved; tauto].
  destruct (String.eqb clientId EmptyString); [cbn in Hmoved; tauto|].
  destruct (isBotMentioned incoming clientId) eqn:Hmention; [|cbn in Hmoved; tauto].
  destruct (isUserAllowed guildPermissions incoming); [by eauto 10|].
  exfalso. revert Hmoved. cbn [negb]. unfold Delivery.replyTo, bind, ask.
  destruct (reply denied (message incoming) (world p)) as [[e|sent] w]; cbn; tauto.
Qed.

End WithEnv.
End AccessFacts.

(** ** Registries *)
Module RegistryFacts.
Import Spec Frame Registry AssemblerFacts AssemblerLaws.

Section WithEnv.
Variable E : Env.

Lemma registerAll_snoc (tools : list (Tool E)) (tool : Tool E) :
  registerAll (tools ++ [tool]) = registerTool tool (registerAll tools).
Proof. unfold registerAll. by rewrite foldl_app. Qed.

(** Both registries of the program are built this way. *)
Lemma registries_by_registration (fuel : nat) :
  ToolsRegistry.new E fuel
  = registerAll [externalTool "get_date_time" (dateTimeTool E);
                 OpenProjectAgent.openProjectAgentTool E fuel]
  /\ OpenProjectToolsRegistry.new E
     = registerAll [externalTool "list_projects" (listProjectsTool E);
                    externalTool "create_work_package" (createWorkPackageTool E);
                    externalTool "list_work_packages" (listWorkPackagesTool E);
                    externalTool "assign_user" (assignUserTool E);
                    externalTool "search_users" (searchUsersTool E);
                    externalTool "get_metadata" (getMetadataTool E)].
Proof. done. Qed.

Lemma get_set {V} (key name : string) (v : V) (m : list (string * V)) :
  JsMap.get name (JsMap.set key v m)
  = if String.eqb key name then Some v else JsMap.get name m.
Proof.
  induction m as [|[k v0] m IH]; cbn; [done|].
  destruct (String.eqb_spec k key) as [->|Hne]; cbn.
  - by destruct (String.eqb key name).
  - rewrite IH. destruct (String.eqb_spec k name) as [->|Hne']; [|done].
    destruct (String.eqb_spec key name); [congruence|done].
Qed.

Lemma keys_set {V} (key : string) (v : V) (m : list (string * V)) :
  JsMap.keys (JsMap.set key v m)
  = if bool_decide (key ∈ JsMap.keys m) then JsMap.keys m else JsMap.keys m ++ [key].
Proof.
  unfold JsMap.keys. induction m as [|[k v0] m IH]; cbn; [done|].
  destruct (String.eqb_spec k key) as [->|Hne]; cbn.
  - rewrite bool_decide_eq_true_2; [done|left].
  - rewrite IH. case_bool_decide as Hin.
    + rewrite bool_decide_eq_true_2; [done|by right].
    + rewrite bool_decide_eq_false_2; [done|]. intros [?|?]%elem_of_cons; congruence.
Qed.

(** X23.  In a registry built by registering tools one after the other,
    a name resolves to the tool registered last under it, and to nothing when
    no tool was registered under it. *)
Theorem registry_resolves_last_registered (tools : list (Tool E)) (name : string) :
  JsMap.get name (registerAll tools)
  = last (filter (fun tool => tool_name tool = name) tools).
Proof.
  induction tools as [|tool tools IH] using rev_ind; [done|].
  rewrite registerAll_snoc, filter_app. unfold registerTool. rewrite get_set, IH.
  rewrite filter_cons, filter_nil.
  destruct (String.eqb_spec (tool_name tool) name) as [Heq|Hne].
  - rewrite decide_True by done. by rewrite last_snoc.
  - rewrite decide_False by done. by rewrite app_nil_r.
Qed.

Lemma registerAll_keyed (tools : list (Tool E)) :
  Forall (fun entry => entry.1 = tool_name entry.2) (registerAll tools).
Proof.
  induction tools as [|tool tools IH] using rev_ind; [constructor|].
  rewrite registerAll_snoc. by apply Forall_set.
Qed.

Lemma registerAll_NoDup (tools : list (Tool E)) : NoDup (getToolNames (registerAll tools)).
Proof.
  unfold getToolNames. induction tools as [|tool tools IH] using rev_ind; [constructor|].
  rewrite registerAll_snoc. unfold registerTool. rewrite keys_set.
  case_bool_decide as Hin; [done|]. apply NoDup_app. split; [done|].
  split; [|apply NoDup_singleton]. intros x Hx ->%list_elem_of_singleton. done.
Qed.

(** X24.  A registry offers the model exactly what it can run: the names
    of its tool definitions are its tool names, no name occurs twice, and a
    name is among them precisely when [executeTool] finds a tool for it, which
    then bears that name. *)
Theorem registry_offers_what_it_runs (tools : list (Tool E)) :
  let registry := registerAll tools in
  def_name <$> getToolDefinitions registry = getToolNames registry
  /\ NoDup (getToolNames registry)
  /\ (forall name,
        name ∈ getToolNames registry
        <-> exists tool, JsMap.get name registry = Some tool /\ tool_name tool = name).
Proof.
  intros registry. pose proof (registerAll_keyed tools) as Hkeyed. fold registry in Hkeyed.
  split; [|split; [apply registerAll_NoDup|]].
  - unfold getToolDefinitions, getToolNames, JsMap.values, JsMap.keys.
    rewrite <- !list_fmap_compose. apply Forall_fmap_ext_1.
    eapply Forall_impl; [exact Hkeyed|]. by intros [k tool] ->.
  - intros name. unfold getToolNames, JsMap.keys. clear -Hkeyed. split.
    + induction Hkeyed as [|[k tool] rest Hk Hrest IH]; cbn.
      { by intros ?%elem_of_nil. }
      destruct (String.eqb_spec k name) as [->|Hne]; [by eauto|].
      intros [?|Hin]%elem_of_cons; [congruence|by apply IH].
    + intros (tool & Hget & _). apply get_entry in Hget.
      apply list_elem_of_fmap. by exists (name, tool).
Qed.

End WithEnv.
End RegistryFacts.
(** ** More on the outer pipeline *)
Module PipelineLaws.
Import Spec Frame ClientFacts AgentFacts PipelineFacts MessageHandler AssemblerLaws Text Shape.
Local Open Scope js_scope.

Lemma removeMentions_skip (plain nick a rest : string) :
  removeMentions plain nick (String.length a) (a +:+ rest)
  = removeMentions plain nick 0 rest.
Proof.
  induction a as [|c a IH]; [by destruct rest|].
  rewrite append_cons. cbn [String.length removeMentions]. apply IH.
Qed.

Lemma removeMentions_plain (plain nick rest : string) :
  plain <> EmptyString ->
  removeMentions plain nick 0 (plain +:+ rest) = removeMentions plain nick 0 rest.
Proof.
  destruct plain as [|c plain]; [done|]. intros _.
  rewrite append_cons. cbn [removeMentions]. rewrite <- append_cons.
  rewrite (prefix_app _ _ _ (prefix_refl (String c plain))).
  replace (String.length (String c plain) - 1)%nat with (String.length plain)
    by (cbn [String.length]; lia).
  apply removeMentions_skip.
Qed.

Lemma removeMentions_nothing (plain nick s : string) (c : ascii) :
  allChars (fun x => negb (Ascii.eqb x c)) s = true ->
  removeMentions (String c plain) (String c nick) 0 s = s.
Proof.
  induction s as [|x s IH]; [done|]. cbn [allChars removeMentions].
  intros [Hx Hs]%andb_prop. apply negb_true_iff, Ascii.eqb_neq in Hx.
  cbn [String.prefix]. destruct (ascii_dec c x) as [->|_]; [done|]. by rewrite IH.
Qed.

(** X25.  The query is the content without the mentions of the bot,
    trimmed: a content with no [<] in it is only trimmed, and a mention
    of the bot at the head of the content is taken off. *)
Theorem query_drops_the_mention (content clientId : string) :
  (allChars (fun x => negb (Ascii.eqb x "<")) content = true ->
   extractQueryFromMention content clientId = JS.trim content)
  /\ extractQueryFromMention (("<@" +:+ clientId +:+ ">") +:+ content) clientId
     = extractQueryFromMention content clientId.
Proof.
  unfold extractQueryFromMention. split.
  - intros Hplain. f_equal.
    by apply (removeMentions_nothing ("@" +:+ clientId +:+ ">") ("@!" +:+ clientId +:+ ">")).
  - f_equal. by apply removeMentions_plain.
Qed.

Section WithEnv.
Variable E : Env.
Variable fuel : nat.

Lemma keeps_sendSplit content message : KeepsLedger E (sendSplit E content message).
Proof. unfold sendSplit. frame keeps (@keeps_bind E) (@keeps_tryCatch E). Qed.

(** X26.  One handled message changes the ledger in two ways only: by the
    cleanup against the fetched window, and by at most one store, for the
    message that was sent, after it.  Nothing else in the pipeline writes
    the ledger, however the run ends. *)
Theorem ledger_changes_by_cleanup_and_store (message : Message.t) (clientId : string)
    (p : Proc E) :
  exists window p0,
    MessageUtils.fetchRecentMessages E (config_messageHistoryLimit E) p = (Ok window, p0)
    /\ let cleaned := ToolCallsStore.cleanupOldToolCalls window (ledger p) in
       let after := ledger (handleMessage E fuel message clientId p).2 in
       after = cleaned
       \/ exists sent calls results,
            after = ToolCallsStore.storeToolCallsForMessage sent calls results cleaned.
Proof.
  destruct (returns_fetchRecentMessages E (config_messageHistoryLimit E) p)
    as (window & p0 & Hfetch).
  exists window, p0. split; [done|]. cbn zeta.
  pose proof (keeps_fetchRecentMessages E (config_messageHistoryLimit E) p) as Hp0.
  rewrite Hfetch in Hp0. cbn in Hp0. unfold sameLedger in Hp0. rewrite <- Hp0.
  set (p1 := set_ledger (ToolCallsStore.cleanupOldToolCalls window (ledger p0)) p0).
  set (rest :=
         let* aiMessages :=
           MessageUtils.convertToAIMessages E window
             (extractQueryFromMention (Message.content message) clientId) in
         let* response :=
           AIService.generateResponse (outerService E fuel message) aiMessages in
         match Completion.tool_calls response with
         | Some (call :: others) =>
             handleToolCalls E fuel (outerService E fuel message) aiMessages response
               (call :: others)
         | _ => ret (PlainResponse (JS.orElse (Completion.content response) noResponse))
         end).
  assert (processUserMessage E fuel message clientId p = rest p1) as Hsplit.
  { unfold processUserMessage. by rewrite (bind_ok _ _ _ _ _ _ Hfetch). }
  assert (ledger (rest p1).2 = ToolCallsStore.cleanupOldToolCalls window (ledger p0))
    as Hrest.
  { assert (KeepsLedger E rest) as Hkeep.
    { apply keeps_bind; [apply keeps_convertToAIMessages|].
      intros aiMessages. apply keeps_after_assembly. }
    by rewrite Hkeep. }
  assert (forall e q, ledger ((sendSplit E (getErrorMessage e) message ;;; ret tt) q).2
                      = ledger q) as Hhandler.
  { intros e q.
    assert (KeepsLedger E (sendSplit E (getErrorMessage e) message ;;; ret tt)) as Hkeep.
    { apply keeps_bind; [apply keeps_sendSplit|intros; apply keeps_ret]. }
    apply Hkeep. }
  remember (handleMessage E fuel message clientId p) as run eqn:Hrun.
  unfold handleMessage, tryCatch in Hrun. unfold bind at 1 in Hrun. rewrite Hsplit in Hrun.
  destruct (rest p1) as [[response|e|] p2]; cbn [snd] in Hrest.
  - unfold sendResponse, bind at 1 in Hrun.
    pose proof (keeps_sendSplit (responseContent response) message p2) as Hsend.
    destruct (sendSplit E (responseContent response) message p2) as [[sent|e|] p3];
      cbn in Hsend; unfold sameLedger in Hsend.
    + destruct sent as [sent|], response as [text|text calls results]; subst run;
        cbn [snd ret modifyLedger set_ledger ledger]; rewrite ?Hsend, ?Hrest; eauto 10.
    + subst run. rewrite Hhandler, Hsend, Hrest. by left.
    + subst run. cbn [snd]. rewrite Hsend, Hrest. by left.
  - subst run. rewrite Hhandler, Hrest. by left.
  - subst run. cbn [snd]. rewrite Hrest. by left.
Qed.

End WithEnv.
End PipelineLaws.
(** ** The anchor file *)
Module AnchorFacts.
Import AnchorMessageUtils.

Lemma reparse_object (fields : gmap string JsonValue) :
  reparse (JObject fields) = JObject (reparse <$> fields).
Proof. done. Qed.

Lemma reparse_array (items : list JsonValue) :
  reparse (JArray items) = JArray (reparse <$> items).
Proof. done. Qed.

(** A value of the declared type is written and read back as it is. *)
Lemma reparse_configOf (anchors : gmap string string) :
  reparse (configOf anchors) = configOf anchors.
Proof.
  unfold configOf. rewrite reparse_object. f_equal. apply map_eq. intros key.
  rewrite !lookup_fmap. by destruct (anchors !! key).
Qed.

Lemma configOf_empty : emptyConfig = configOf ∅.
Proof. unfold emptyConfig, configOf. by rewrite fmap_empty. Qed.

Lemma configOf_insert (key value : string) (anchors : gmap string string) :
  JObject (<[key := JString value]> (JString <$> anchors))
  = configOf (<[key := value]> anchors).
Proof. unfold configOf. by rewrite fmap_insert. Qed.

Lemma configOf_delete (key : string) (anchors : gmap string string) :
  JObject (delete key (JString <$> anchors)) = configOf (delete key anchors).
Proof. unfold configOf. by rewrite fmap_delete. Qed.

Lemma read_after_write (config : JsonValue) (disk : Disk) :
  writable disk = true ->
  readAnchorMessages (writeAnchorMessages config disk)
  = (reparse config, writeAnchorMessages config disk).
Proof. intros Hw. unfold writeAnchorMessages. by rewrite Hw. Qed.

(** What [readAnchorMessages] gives on a file of the declared type: a
    configuration that a second read gives again, on a disk that is the
    same unless the file was missing and could be made. *)
Lemma read_typed (disk : Disk) :
  typed disk ->
  exists anchors disk1,
    readAnchorMessages disk = (configOf anchors, disk1)
    /\ readAnchorMessages disk1 = (configOf anchors, disk1)
    /\ writable disk1 = writable disk
    /\ (writable disk = false -> disk1 = disk)
    /\ (forall key, (getAnchorMessageId key disk).1 = Done (JString <$> anchors !! key)).
Proof.
  unfold typed, getAnchorMessageId, readAnchorMessages, writeAnchorMessages.
  destruct disk as [[| |[|value|]] w]; cbn [file writable].
  - intros _. exists ∅. rewrite <- configOf_empty.
    destruct w; eexists; (split; [reflexivity|]); cbn [file writable]; by repeat split.
  - intros _. exists ∅. rewrite <- configOf_empty. eexists. by repeat split.
  - intros _. exists ∅. rewrite <- configOf_empty. eexists. by repeat split.
  - intros [anchors ->]. exists anchors. eexists. split; [reflexivity|].
    cbn [file writable]. repeat split. intros key. unfold configOf. cbn [getProperty fst].
    by rewrite lookup_fmap.
  - intros _. exists ∅. rewrite <- configOf_empty. eexists. by repeat split.
Qed.

(** A configuration of the declared type, once written, is what every key
    reads from. *)
Lemma get_after_write (anchors : gmap string string) (disk : Disk) (key : string) :
  writable disk = true ->
  getAnchorMessageId key (writeAnchorMessages (configOf anchors) disk)
  = (Done (JString <$> anchors !! key), writeAnchorMessages (configOf anchors) disk).
Proof.
  intros Hw. unfold getAnchorMessageId. rewrite read_after_write by done.
  rewrite reparse_configOf. unfold configOf at 1. cbn [getProperty].
  by rewrite lookup_fmap.
Qed.

(** X27.  On a file of the declared type that can be written (a missing,
    blank or unparsable file counts as the empty configuration), the anchor
    set for a channel is the anchor read for it afterwards, and the anchors
    of the other channels read as they did before. *)
Theorem anchor_set_then_get (channelId messageId : string) (disk : Disk) :
  writable disk = true ->
  typed disk ->
  snowflake channelId = true ->
  exists disk1,
    setAnchorMessageId channelId messageId disk = (Done tt, disk1)
    /\ getAnchorMessageId channelId disk1 = (Done (Some (JString messageId)), disk1)
    /\ (forall other,
          snowflake other = true ->
          other <> channelId ->
          (getAnchorMessageId other disk1).1 = (getAnchorMessageId other disk).1).
Proof.
  intros Hw Htyped _.
  destruct (read_typed disk Htyped) as (anchors & disk0 & Hread & _ & Hw0 & _ & Hget).
  rewrite Hw in Hw0.
  exists (writeAnchorMessages (configOf (<[channelId := messageId]> anchors)) disk0).
  split; [|split].
  - unfold setAnchorMessageId. rewrite Hread. unfold configOf at 1. cbn [setProperty].
    by rewrite configOf_insert.
  - rewrite get_after_write by done. by rewrite lookup_insert_eq.
  - intros other _ Hne. rewrite get_after_write by done. cbn [fst].
    by rewrite lookup_insert_ne, Hget.
Qed.

(** X28.  On a file of the declared type that can be written, a channel
    whose anchor was cleared reads no anchor that [fetchRecentMessages] would
    use: it reads [undefined] or the empty string.  The anchors of the other
    channels read as they did before. *)
Theorem anchor_clear_then_get (channelId : string) (disk : Disk) :
  writable disk = true ->
  typed disk ->
  snowflake channelId = true ->
  exists disk1 value,
    clearAnchorMessageId channelId disk = (Done tt, disk1)
    /\ getAnchorMessageId channelId disk1 = (Done value, disk1)
    /\ (value = None \/ value = Some (JString EmptyString))
    /\ (forall other,
          snowflake other = true ->
          other <> channelId ->
          (getAnchorMessageId other disk1).1 = (getAnchorMessageId other disk).1).
Proof.
  intros Hw Htyped _.
  destruct (read_typed disk Htyped) as (anchors & disk0 & Hread & Hagain & Hw0 & _ & Hget).
  rewrite Hw in Hw0.
  unfold clearAnchorMessageId. rewrite Hread. unfold configOf at 1 2.
  cbn [getProperty deleteProperty]. rewrite lookup_fmap, configOf_delete.
  destruct (anchors !! channelId) as [anchor|] eqn:Hanchor; cbn [fmap option_fmap option_map truthy].
  - destruct (String.eqb_spec anchor EmptyString) as [->|Hne]; cbn [negb].
    + exists disk0, (Some (JString EmptyString)). split; [done|]. split; [|split].
      * unfold getAnchorMessageId. rewrite Hagain. unfold configOf. cbn [getProperty].
        by rewrite lookup_fmap, Hanchor.
      * by right.
      * intros other _ _. unfold getAnchorMessageId at 1. rewrite Hagain.
        unfold configOf. cbn [getProperty fst]. by rewrite lookup_fmap, Hget.
    + exists (writeAnchorMessages (configOf (delete channelId anchors)) disk0), None.
      split; [done|]. split; [|split].
      * rewrite get_after_write by done. by rewrite lookup_delete_eq.
      * by left.
      * intros other _ Hother. rewrite get_after_write by done. cbn [fst].
        by rewrite lookup_delete_ne, Hget.
  - exists disk0, None. split; [done|]. split; [|split].
    + unfold getAnchorMessageId. rewrite Hagain. unfold configOf. cbn [getProperty].
      by rewrite lookup_fmap, Hanchor.
    + by left.
    + intros other _ _. unfold getAnchorMessageId at 1. rewrite Hagain.
      unfold configOf. cbn [getProperty fst]. by rewrite lookup_fmap, Hget.
Qed.

(** X29.  How the module fails.  A write that fails is swallowed: on a file
    of the declared type that cannot be written, setting and clearing an
    anchor return normally and leave the disk as it is, as does reading.
    A file that holds [null] makes all three functions throw a [TypeError],
    on a disk that is left as it is.  A file that holds an array loses the
    anchor without a sign: for a channel id that is no array index, setting
    returns normally, the array is written back, and the anchor then reads
    [undefined]. *)
Theorem anchor_failures_by_file (channelId messageId : string) (disk : Disk) :
  (writable disk = false ->
   typed disk ->
   snowflake channelId = true ->
   setAnchorMessageId channelId messageId disk = (Done tt, disk)
   /\ clearAnchorMessageId channelId disk = (Done tt, disk)
   /\ exists value, getAnchorMessageId channelId disk = (Done value, disk))
  /\ (file disk = Present (Json JNull) ->
      getAnchorMessageId channelId disk = (TypeError, disk)
      /\ setAnchorMessageId channelId messageId disk = (TypeError, disk)
      /\ clearAnchorMessageId channelId disk = (TypeError, disk))
  /\ (forall items,
         file disk = Present (Json (JArray items)) ->
         writable disk = true ->
         snowflake channelId = true ->
         arrayIndex channelId = None ->
         exists disk1,
           setAnchorMessageId channelId messageId disk = (Done tt, disk1)
           /\ file disk1 = Present (Json (JArray (reparse <$> items)))
           /\ getAnchorMessageId channelId disk1 = (Done None, disk1)).
Proof.
  split; [|split].
  - intros Hw Htyped _.
    destruct (read_typed disk Htyped) as (anchors & disk0 & Hread & _ & _ & Hsame & _).
    rewrite (Hsame Hw) in Hread.
    assert (forall config, writeAnchorMessages config disk = disk) as Hwrite.
    { intros config. unfold writeAnchorMessages. by rewrite Hw. }
    unfold setAnchorMessageId, clearAnchorMessageId, getAnchorMessageId. rewrite Hread.
    unfold configOf. cbn [setProperty getProperty deleteProperty]. rewrite !Hwrite.
    split; [done|]. split; [by destruct (truthy _)|]. by eexists.
  - intros Hfile. unfold getAnchorMessageId, setAnchorMessageId, clearAnchorMessageId,
      readAnchorMessages. by rewrite Hfile.
  - intros items Hfile Hw _ Hindex.
    exists (writeAnchorMessages (JArray items) disk).
    unfold setAnchorMessageId, readAnchorMessages at 1. rewrite Hfile.
    cbn [setProperty]. rewrite Hindex. split; [done|].
    unfold getAnchorMessageId. rewrite read_after_write by done. rewrite reparse_array.
    cbn [getProperty]. rewrite Hindex. split; [|done].
    unfold writeAnchorMessages. by rewrite Hw.
Qed.

End AnchorFacts.

(** ** Date filters *)
Module DateFilterFacts.
Import Text DateFilters AssemblerLaws DeliveryFacts.

Lemma allChars_app (P : ascii -> bool) (a b : string) :
  allChars P (a +:+ b) = allChars P a && allChars P b.
Proof.
  induction a as [|c a IH]; [done|]. rewrite PipelineFacts.append_cons. cbn [allChars].
  by rewrite IH, andb_assoc.
Qed.

Lemma allChars_impl (P Q : ascii -> bool) (s : string) :
  (forall c, P c = true -> Q c = true) -> allChars P s = true -> allChars Q s = true.
Proof.
  intros HPQ. induction s as [|c s IH]; [done|]. cbn [allChars].
  intros [Hc Hs]%andb_prop. by rewrite (HPQ _ Hc), IH.
Qed.

(** A text without the first character of a pattern does not contain the
    pattern, and is one piece when split at it. *)
Lemma includes_without_first (c : ascii) (pat s : string) :
  allChars (fun x => negb (Ascii.eqb x c)) s = true ->
  JS.includes s (String c pat) = false.
Proof.
  induction s as [|x s IH]; [done|]. cbn [allChars JS.includes String.prefix].
  intros [Hx Hs]%andb_prop. apply negb_true_iff, Ascii.eqb_neq in Hx.
  destruct (ascii_dec c x) as [->|_]; [done|]. by rewrite IH.
Qed.

Lemma splitFrom_without_first (c : ascii) (pat current s : string) :
  allChars (fun x => negb (Ascii.eqb x c)) s = true ->
  splitFrom (String c pat) 0 current s = [current +:+ s].
Proof.
  revert current. induction s as [|x s IH]; intros current.
  { by rewrite append_empty_r. }
  cbn [allChars splitFrom String.prefix].
  intros [Hx Hs]%andb_prop. apply negb_true_iff, Ascii.eqb_neq in Hx.
  destruct (ascii_dec c x) as [->|_]; [done|]. rewrite IH by done.
  by rewrite append_assoc.
Qed.

Lemma splitFrom_skip (sep current a rest : string) :
  splitFrom sep (String.length a) current (a +:+ rest) = splitFrom sep 0 current rest.
Proof.
  induction a as [|c a IH]; [by destruct rest|].
  rewrite PipelineFacts.append_cons. cbn [String.length splitFrom]. apply IH.
Qed.

Lemma split_comma (current a b : string) :
  allChars (fun x => negb (Ascii.eqb x ",")) a = true ->
  allChars (fun x => negb (Ascii.eqb x ",")) b = true ->
  splitFrom "," 0 current (a +:+ "," +:+ b) = [current +:+ a; b].
Proof.
  intros Ha Hb. revert current. induction a as [|x a IH]; intros current.
  - rewrite append_nil_l, append_empty_r. change ("," +:+ b) with (String "," b).
    cbn [splitFrom String.prefix String.length].
    destruct (ascii_dec "," ","); [|done]. destruct b; [done|]. cbn [Nat.sub]. f_equal.
    by rewrite (splitFrom_without_first "," EmptyString EmptyString _ Hb).
  - rewrite PipelineFacts.append_cons. cbn [allChars] in Ha.
    apply andb_prop in Ha as [Hx Ha]. apply negb_true_iff, Ascii.eqb_neq in Hx.
    cbn [splitFrom String.prefix]. destruct (ascii_dec "," x) as [<-|_]; [done|].
    rewrite IH by done. by rewrite append_assoc.
Qed.

Lemma plainText_no (c : ascii) (s : string) :
  plainChar c = false -> plainText s -> allChars (fun x => negb (Ascii.eqb x c)) s = true.
Proof.
  intros Hc. apply allChars_impl. intros x Hx.
  destruct (Ascii.eqb_spec x c) as [->|]; [congruence|done].
Qed.

Lemma plainText_app (a b : string) : plainText a -> plainText b -> plainText (a +:+ b).
Proof. unfold plainText. intros Ha Hb. by rewrite allChars_app, Ha, Hb. Qed.

Section WithRegExp.
Variable legacyRange : string -> option (string * string).

Lemma decode_range key (a b : string) :
  a <> EmptyString -> b <> EmptyString -> plainText a -> plainText b ->
  dateFilterFor legacyRange key ("<>d:" +:+ a +:+ "," +:+ b)
  = [{| filter_key := key; operator := "<>d"; values := [a; b] |}].
Proof.
  intros Ha Hb Hpa Hpb. unfold dateFilterFor.
  rewrite (includes_here "<>d:" (a +:+ "," +:+ b)).
  assert (split "<>d:" ("<>d:" +:+ a +:+ "," +:+ b) = [EmptyString; a +:+ "," +:+ b]) as ->.
  { unfold split. change ("<>d:" +:+ a +:+ "," +:+ b)
      with (String "<" (">d:" +:+ (a +:+ "," +:+ b))).
    cbn [splitFrom]. rewrite <- PipelineFacts.append_cons.
    rewrite (PipelineFacts.prefix_app _ _ _ (prefix_refl "<>d:")).
    f_equal. change (String.length "<>d:" - 1)%nat with (String.length ">d:").
    rewrite splitFrom_skip. rewrite splitFrom_without_first; [done|].
    by rewrite !allChars_app, (plainText_no "<" a), (plainText_no "<" b). }
  assert (String.eqb (a +:+ "," +:+ b) EmptyString = false) as ->.
  { destruct a; [done|]. done. }
  unfold split. rewrite split_comma by (by apply (plainText_no ",")).
  rewrite append_nil_l. apply String.eqb_neq in Ha, Hb. by rewrite Ha, Hb.
Qed.

Lemma decode_from key (a : string) :
  plainText a ->
  dateFilterFor legacyRange key (">=" +:+ a)
  = [{| filter_key := key; operator := ">="; values := [a] |}].
Proof.
  intros Hpa. unfold dateFilterFor.
  assert (allChars (fun x => negb (Ascii.eqb x "<")) (">=" +:+ a) = true) as Hp.
  { rewrite allChars_app. by rewrite (plainText_no "<" a). }
  rewrite (includes_without_first "<" ">d:") by done.
  rewrite (includes_without_first "<" EmptyString) by done.
  rewrite andb_false_r. change (">=" +:+ a) with (String ">" (String "=" a)).
  by destruct a.
Qed.

Lemma decode_until key (b : string) :
  plainText b ->
  dateFilterFor legacyRange key ("<" +:+ b)
  = [{| filter_key := key; operator := "<"; values := [b] |}].
Proof.
  intros Hpb. unfold dateFilterFor. change ("<" +:+ b) with (String "<" b).
  assert (JS.includes (String "<" b) "<>d:" = false) as ->.
  { cbn [JS.includes String.prefix]. destruct (ascii_dec "<" "<"); [|done].
    rewrite (includes_without_first "<" ">d:") by (by apply (plainText_no "<")).
    rewrite orb_false_r. destruct b as [|x b]; [done|].
    cbn [String.prefix]. destruct (ascii_dec ">" x) as [<-|_]; [|done].
    by apply andb_prop in Hpb as [Hx _]. }
  assert (JS.includes (String "<" b) ">=" = false) as ->.
  { cbn [JS.includes String.prefix]. destruct (ascii_dec ">" "<"); [done|].
    by rewrite (includes_without_first ">" "=") by (by apply (plainText_no ">")). }
  by destruct b.
Qed.

(** X30.  The value the tool writes for a date filter is read back by the
    client as the filter the tool meant.  For dates that are not empty and
    hold none of the characters [<], [>] and [,]: two dates give the range
    operator with the two bounds, a date to start from alone gives [>=] with
    that bound, a date to end at alone gives [<] with that bound; with no
    date there is no filter. *)
Theorem date_filter_round_trip (key startOfDay endOfDay after before : string) :
  plainDate after -> plainDate before -> plainText startOfDay -> plainText endOfDay ->
  (dateFilterFor legacyRange key
     <$> dateFilter startOfDay endOfDay (Some after) (Some before))
  = Some [{| filter_key := key; operator := "<>d";
             values := [after +:+ startOfDay; before +:+ endOfDay] |}]
  /\ (dateFilterFor legacyRange key
        <$> dateFilter startOfDay endOfDay (Some after) None)
     = Some [{| filter_key := key; operator := ">=";
                values := [after +:+ startOfDay] |}]
  /\ (dateFilterFor legacyRange key
        <$> dateFilter startOfDay endOfDay None (Some before))
     = Some [{| filter_key := key; operator := "<";
                values := [before +:+ endOfDay] |}]
  /\ dateFilter startOfDay endOfDay None None = None.
Proof.
  intros [Ha Hpa] [Hb Hpb] Hps Hpe. unfold dateFilter, JS.truthy.
  pose proof Ha as Ha'. pose proof Hb as Hb'.
  apply String.eqb_neq in Ha' as ->. apply String.eqb_neq in Hb' as ->.
  cbn [negb andb default fmap option_fmap option_map].
  assert (after +:+ startOfDay <> EmptyString) as Hna by (by destruct after).
  assert (before +:+ endOfDay <> EmptyString) as Hnb by (by destruct before).
  pose proof (plainText_app _ _ Hpa Hps) as Hpas.
  pose proof (plainText_app _ _ Hpb Hpe) as Hpbe.
  repeat split.
  - f_equal. rewrite <- (decode_range key _ _ Hna Hnb Hpas Hpbe).
    f_equal. by rewrite !append_assoc.
  - f_equal. by rewrite <- (decode_from key _ Hpas).
  - f_equal. by rewrite <- (decode_until key _ Hpbe).
Qed.

End WithRegExp.
End DateFilterFacts.

(** ** The properties at concrete inputs *)
Module Checks.
Import Spec Examples.

(** The reply comes back with its creation time one millisecond off: its
    composite key is no longer in the window, its identity is, and the
    entry stays. *)
Lemma evict_keeps_live_identity_witness :
  dateLedger !! "900_5000" = Some dateEntry
  /\ ("900_5000" ∉ ToolCallsStore.recentMessageKeys [botReplyDrifted])
  /\ ToolCallsStore.cleanupOldToolCalls [botReplyDrifted] dateLedger !! "900_5000"
     = Some dateEntry.
Proof.
  assert (dateLedger !! "900_5000" = Some dateEntry) as Hentry by reflexivity.
  split; [exact Hentry|]. split.
  - apply (bool_decide_unpack _). vm_compute. reflexivity.
  - apply (proj1 (LedgerFacts.evict_keeps_live_identity [botReplyDrifted] dateLedger
                    "900_5000" dateEntry Hentry)).
    apply (bool_decide_unpack _). vm_compute. reflexivity.
Defined.

(** An image attachment that downloads is a PNG-tagged image segment. *)
Lemma image_attachment_is_native_witness :
  JS.endsWith "https://cdn.example/a.png" ".png" = true
  /\ exists src p',
      MessageUtils.convertAttachmentToContentPart online
        (image "https://cdn.example/a.png" (Some "image/png")) (start online 0%nat ∅)
      = (Ok (ImagePart src), p')
      /\ pngTagged src = true.
Proof.
  split; [reflexivity|].
  destruct (AssemblerFacts.image_attachment_is_native online
              (image "https://cdn.example/a.png" (Some "image/png")) "image/png"
              (start online 0%nat ∅) eq_refl eq_refl (List.Forall_nil _))
    as (src & p' & Hrun & _ & Hpng).
  exists src, p'. split; [exact Hrun|].
  destruct (Hpng eq_refl) as [Htag|(_ & _ & Hfail)]; [exact Htag | discriminate Hfail].
Defined.

(** C9 fails as stated: an image attachment whose URL ends in .png is
    assembled with the bare URL as its source when the download fails, and
    an attachment with such a URL but no declared content type is assembled
    into text. *)
Lemma png_url_not_always_tagged :
  JS.endsWith "https://cdn.example/a.png" ".png" = true
  /\ MessageUtils.convertAttachmentToContentPart quiet
       (image "https://cdn.example/a.png" (Some "image/png")) (start quiet 0%nat ∅)
     = (Ok (ImagePart "https://cdn.example/a.png"), start quiet 0%nat ∅)
  /\ pngTagged "https://cdn.example/a.png" = false
  /\ MessageUtils.convertAttachmentToContentPart online
       (image "https://cdn.example/a.png" None) (start online 0%nat ∅)
     = (Ok (TextPart
              "[Attachment: image (0.13MB) - URL: https://cdn.example/a.png]"),
        start online 0%nat ∅).
Proof. repeat split; reflexivity. Qed.

(** A window with an earlier question, the reply with its entry, and a new
    question. *)
Lemma ledger_matched_turn_order_witness :
  Stored.ledgerWellFormed dateLedger
  /\ Author.bot (Message.author botReply) = true
  /\ Message.content botReply <> EmptyString
  /\ ToolCallsStore.getToolCallsForMessage botReply dateLedger = Some dateEntry
  /\ exists out p' before after text,
      MessageUtils.convertToAIMessages quiet
        [message "100" 1000 false "what day is it" []; botReply;
         message "101" 6000 false "thanks" []]
        "find X" (start quiet 0%nat dateLedger)
      = (Ok out, p')
      /\ out = before
               ++ AssistantMessage None (Some [dateCall])
                  :: MessageUtils.toolMessages [dateCall] [dateResult]
                  ++ AssistantMessage (Some text) None :: after
      /\ length (MessageUtils.toolMessages [dateCall] [dateResult]) = 1%nat.
Proof.
  assert (Stored.ledgerWellFormed dateLedger) as Hledger.
  { unfold dateLedger, ToolCallsStore.storeToolCallsForMessage.
    apply map_Forall_insert_2; [|apply map_Forall_empty].
    split; [reflexivity|]. apply NoDup_singleton. }
  assert (Message.content botReply <> EmptyString) as Htext by discriminate.
  split; [exact Hledger|]. split; [reflexivity|]. split; [exact Htext|].
  split; [reflexivity|].
  destruct (AssemblerFacts.ledger_matched_turn_order quiet
              [message "100" 1000 false "what day is it" []]
              [message "101" 6000 false "thanks" []]
              botReply "find X" (start quiet 0%nat dateLedger) dateEntry
              Hledger eq_refl Htext eq_refl ltac:(discriminate))
    as (out & p' & before & p1 & after & text & Hrun & _ & Hout & _ & _ & Hlen & _).
  exists out, p', before, after, text. split; [exact Hrun|]. split; [exact Hout|].
  exact Hlen.
Defined.

Lemma insatiable_always_requests_tools : alwaysRequestsTools insatiable.
Proof.
  intros req w. exists None, (FunctionToolCall "c" "list_projects" "{}"), [], (S w).
  cbn. by destruct w.
Qed.

(** A budget of two against an endpoint that never stops asking for
    tools. *)
Lemma always_tools_budget_boundary_witness :
  0 <= 2
  /\ alwaysRequestsTools insatiable
  /\ exists s p',
      OpenProjectAgent.execute insatiable 4
        {| task := "show projects"; context := None; max_iterations := Some 2 |}
        (start insatiable 0%nat ∅)
      = (Ok (OpenProjectAgent.resultText insatiable (OpenProjectToolsRegistry.new insatiable) s),
         p')
      /\ 0 <= OpenProjectAgent.iterationCount s <= 2 + 2.
Proof.
  split; [lia|]. split; [exact insatiable_always_requests_tools|].
  destruct (AgentFacts.always_tools_budget_boundary insatiable 4
              {| task := "show projects"; context := None; max_iterations := Some 2 |}
              (start insatiable 0%nat ∅) ltac:(cbn; lia)
              insatiable_always_requests_tools ltac:(cbn; lia))
    as (s & p' & _ & Hcount & Hrun & _).
  exists s, p'. split; [exact Hrun | exact Hcount].
Defined.

(** The first round of a run with a budget of one: the tool turn brings
    the counter to the budget, and one request follows. *)
Lemma summary_then_one_request_witness :
  let service := serviceFor slowSummary budgetOfOne in
  let s := initialState budgetOfOne in
  let p := start slowSummary 0%nat ∅ in
  let p1 := (AIService.generateResponse service (OpenProjectAgent.messages s) p).2 in
  let calls := [FunctionToolCall "c1" "list_projects" "{}"] in
  let p2 :=
    (OpenProjectAgent.executeToolCalls slowSummary (OpenProjectToolsRegistry.new slowSummary)
       [] calls p1).2 in
  OpenProjectAgent.loopCondition 1 s = true
  /\ requestCount slowSummary
       ((let* s' := OpenProjectAgent.agentLoop slowSummary 1 service
                      (OpenProjectToolsRegistry.new slowSummary) "show projects" 1 s in
         OpenProjectAgent.finalRequest slowSummary service 1 s') p).2
     = S (requestCount slowSummary p2).
Proof.
  intros service s p p1 calls p2. split; [reflexivity|].
  apply (AgentFacts.summary_then_one_request slowSummary 0 service "show projects" 1 s
           p p1 p2
           {| Completion.content := None; Completion.tool_calls := Some calls |}
           (FunctionToolCall "c1" "list_projects" "{}") []
           [{| OpenProjectAgent.tool_call_id := "c1";
               OpenProjectAgent.content := "No projects found in OpenProject." |}]);
    try reflexivity.
  left. split; reflexivity.
Defined.

(** C4 fails as stated: with a budget of one and an endpoint that asks for
    a tool on the request after the summary instruction and would give its
    summary on the next one, the loop runs no extra iteration, makes that
    single request, and returns the generic notice. *)
Lemma no_extra_iterations_after_summary :
  exists s p',
    OpenProjectAgent.runAgent slowSummary 10 (serviceFor slowSummary budgetOfOne)
      (OpenProjectToolsRegistry.new slowSummary) "show projects" None 1
      (start slowSummary 0%nat ∅)
    = (Ok s, p')
    /\ last (OpenProjectAgent.messages s) = Some OpenProjectAgent.summaryRequest
    /\ OpenProjectAgent.iterationCount s = 1
    /\ requestCount slowSummary p' = 2%nat
    /\ OpenProjectAgent.finalResponse s
       = "OpenProject task completed after maximum iterations."
    /\ (forall req, (chatCompletionsCreate slowSummary req (world p')).1
                    = says "Summary: no projects.").
Proof.
  eexists _, _. split; [reflexivity|]. by repeat split.
Qed.

(** A call of a tool the nested registry does not have, after a call that
    succeeds: the step returns, and the missing tool is answered with the
    error text under the id of its call. *)
Lemma tool_failures_are_recorded_witness :
  JSON_parse quiet "{}" = inr "{}"
  /\ JsMap.get "delete_project" (OpenProjectToolsRegistry.new quiet) = None
  /\ exists earlier later p2,
      OpenProjectAgent.executeToolCalls quiet (OpenProjectToolsRegistry.new quiet) []
        ([FunctionToolCall "c6" "list_projects" "{}"]
         ++ FunctionToolCall "c7" "delete_project" "{}" :: [])
        (start quiet 0%nat ∅)
      = (Ok (earlier
             ++ errorResult "c7" "delete_project"
                  (newError "OpenProject tool not found: delete_project")
                :: later),
         p2)
      /\ length earlier = 1%nat.
Proof.
  assert (JSON_parse quiet "{}" = inr "{}") as Hparse by reflexivity.
  assert (JsMap.get "delete_project" (OpenProjectToolsRegistry.new quiet) = None) as Hget
    by reflexivity.
  split; [exact Hparse|]. split; [exact Hget|].
  destruct (proj1 (PipelineFacts.tool_failures_are_recorded quiet 8)
              [FunctionToolCall "c6" "list_projects" "{}"] "c7" "delete_project" "{}" []
              (start quiet 0%nat ∅))
    as (earlier & p1 & result & later & p2 & Hbefore & Hrun & _ & _ & _ & Hmissing & _).
  pose proof (Hmissing "{}" Hparse Hget) as Hresult. subst result.
  exists earlier, later, p2. split; [exact Hrun|].
  vm_compute in Hbefore. injection Hbefore as <- _. reflexivity.
Defined.

(** A delivered reply with tool calls is stored, and nothing else is. *)
Lemma nested_agent_is_isolated_witness :
  ledger (MessageHandler.sendResponse quiet botReply
            (MessageHandler.ToolResponse "It is Friday." [dateCall] [dateResult])
            (start quiet 0%nat ∅)).2
  = ToolCallsStore.storeToolCallsForMessage (message "900" 5000 true "sent" [])
      [dateCall] [dateResult] ∅.
Proof.
  exact (proj2 (proj2 (proj2 (proj2 (proj2 (proj2
           (PipelineFacts.nested_agent_is_isolated quiet 0))))))
           botReply "It is Friday." [dateCall] [dateResult] (start quiet 0%nat ∅)
           (message "900" 5000 true "sent" []) 0%nat eq_refl).
Defined.

(** A rate-limited endpoint ends the nested loop on its first request. *)
Lemma endpoint_failure_aborts_witness :
  OpenProjectAgent.loopCondition 1 (initialState budgetOfOne) = true
  /\ OpenProjectAgent.agentLoop rateLimited 1 (serviceFor rateLimited budgetOfOne)
       (OpenProjectToolsRegistry.new rateLimited) "show projects" 1
       (initialState budgetOfOne) (start rateLimited 0%nat ∅)
     = (Throw (newError "AI service rate limit exceeded. Please try again later."),
        afterRequest rateLimited (serviceFor rateLimited budgetOfOne)
          (OpenProjectAgent.messages (initialState budgetOfOne))
          (start rateLimited 0%nat ∅)).
Proof.
  split; [reflexivity|].
  exact (proj1 (PipelineFacts.endpoint_failure_aborts rateLimited 0)
           0%nat (serviceFor rateLimited budgetOfOne) "show projects" 1
           (initialState budgetOfOne) (start rateLimited 0%nat ∅)
           _ 1%nat eq_refl eq_refl).
Defined.

(** One failed fetch, and the entry of the earlier reply is gone. *)
Lemma empty_window_wipes_ledger_witness :
  dateLedger !! "900_5000" = Some dateEntry
  /\ ledger (MessageHandler.processUserMessage unreachable 8
               (message "102" 7000 false "<@1> hello" []) "1"
               (start unreachable 0%nat dateLedger)).2
     = ∅.
Proof.
  split; [reflexivity|].
  exact (proj2 (proj2 (PipelineFacts.empty_window_wipes_ledger unreachable 8)
                  (message "102" 7000 false "<@1> hello" []) "1"
                  (start unreachable 0%nat dateLedger)
                  0%nat false (newError "network") 0%nat eq_refl eq_refl)).
Defined.

End Checks.

(** ** The further properties at concrete inputs *)
Module MoreChecks.
Import Spec Examples Cases.

(** Five lines cut for a limit of seven characters. *)
Lemma splitContent_parts_fit_witness :
  (1 <= 7)%nat
  /\ exists parts,
      Delivery.splitContent fiveLines 7 = Some parts
      /\ parts <> []
      /\ Forall (fun part => (String.length part <= 7)%nat) parts
      /\ (fiveLines <> EmptyString -> Forall (fun part => part <> EmptyString) parts).
Proof.
  split; [lia|]. apply (DeliveryFacts.splitContent_parts_fit fiveLines 7). lia.
Defined.

Lemma splitContent_keeps_text_witness :
  Delivery.splitContent fiveLines 7 = Some fiveLinesSplit
  /\ Delivery.withoutNewlines (Delivery.joined fiveLinesSplit)
     = Delivery.withoutNewlines fiveLines.
Proof.
  split; [reflexivity|].
  apply (DeliveryFacts.splitContent_keeps_text fiveLines 7 fiveLinesSplit). reflexivity.
Defined.

(** The reply is found under the message the channel gives back later. *)
Lemma stored_entry_survives_cleanup_witness :
  botReply ∈ exchange
  /\ ToolCallsStore.getToolCallsForMessage botReply
       (ToolCallsStore.cleanupOldToolCalls exchange
          (ToolCallsStore.storeToolCallsForMessage botReply [dateCall] [dateResult] ∅))
     = Some dateEntry.
Proof.
  assert (botReply ∈ exchange) as Hin by (right; left).
  split; [exact Hin|].
  exact (LedgerLaws.stored_entry_survives_cleanup ∅ botReply botReply [dateCall]
           [dateResult] exchange Hin eq_refl eq_refl).
Defined.

(** A picture that downloads is converted once. *)
Lemma image_is_converted_once_witness :
  let first := MessageUtils.convertImageToBase64 online "https://cdn.example/a.png"
                 (start online 0%nat ∅) in
  first.1 = Ok "data:image/png;base64,iVBORw0KGgo="
  /\ MessageUtils.convertImageToBase64 online "https://cdn.example/a.png" first.2
     = (Ok "data:image/png;base64,iVBORw0KGgo=", first.2).
Proof.
  split; [reflexivity|].
  apply (AssemblerLaws.image_is_converted_once online "https://cdn.example/a.png"
           "data:image/png;base64,iVBORw0KGgo=" (start online 0%nat ∅)).
  - reflexivity.
  - discriminate.
Defined.

(** The anchor of the channel is unknown to Discord: it is cleared and the
    window comes from the plain fetch, oldest first. *)
Lemma stale_anchor_is_cleared_witness :
  getAnchorMessageId anchoredChannel (Some "555") = (Some "555", Some "555")
  /\ "555" <> EmptyString
  /\ MessageUtils.fetchRecentMessages anchoredChannel 20
       (start anchoredChannel (Some "555") ∅)
     = (Ok exchange, start anchoredChannel None ∅).
Proof.
  assert (getAnchorMessageId anchoredChannel (Some "555") = (Some "555", Some "555"))
    as Hanchor by reflexivity.
  assert ("555" <> EmptyString) as Hne by discriminate.
  split; [exact Hanchor|]. split; [exact Hne|].
  exact (proj1 (AssemblerLaws.stale_anchor_is_cleared anchoredChannel 20
                  (start anchoredChannel (Some "555") ∅) "555" (Some "555")
                  unknownMessage (Some "555") Hanchor Hne)
           eq_refl (rev exchange) None eq_refl).
Defined.

(** A window with a picture leaves one entry in an empty cache. *)
Lemma image_cache_stays_bounded_witness :
  Forall (fun m => Forall (fun a => Attachment.url a <> EmptyString)
                     (Message.attachments m)) [withPicture]
  /\ Shape.cacheBounded []
  /\ Shape.cacheBounded
       (imageCache (MessageUtils.convertToAIMessages online [withPicture] "look"
                      (start online 0%nat ∅)).2).
Proof.
  assert (Forall (fun m => Forall (fun a => Attachment.url a <> EmptyString)
                             (Message.attachments m)) [withPicture]) as Hurls.
  { repeat constructor; discriminate. }
  assert (Shape.cacheBounded []) as Hempty.
  { split; [cbn; lia|constructor]. }
  split; [exact Hurls|]. split; [exact Hempty|].
  exact (AssemblerLaws.image_cache_stays_bounded online [withPicture] "look"
           (start online 0%nat ∅) Hurls Hempty).
Defined.

(** The exchange has one user turn, under the name of its speaker. *)
Lemma user_turns_follow_window_witness :
  exists out p',
    MessageUtils.convertToAIMessages quiet exchange "and tomorrow?"
      (start quiet 0%nat dateLedger) = (Ok out, p')
    /\ omap Shape.userName out = ["Raj"].
Proof.
  destruct (MessageUtils.convertToAIMessages quiet exchange "and tomorrow?"
              (start quiet 0%nat dateLedger)) as [[out|e|] p'] eqn:Hrun;
    try (vm_compute in Hrun; discriminate Hrun).
  exists out, p'. split; [reflexivity|].
  exact (AssemblerLaws.user_turns_follow_window quiet exchange "and tomorrow?"
           (start quiet 0%nat dateLedger) p' out Hrun).
Defined.

(** A document is described, not downloaded. *)
Lemma only_images_are_downloaded_witness :
  (forall contentType,
      Attachment.contentType document = Some contentType ->
      JS.startsWith contentType "image/" = false)
  /\ exists text,
      MessageUtils.convertAttachmentToContentPart online document (start online 0%nat ∅)
      = (Ok (TextPart text), start online 0%nat ∅)
      /\ JS.includes text (Attachment.url document) = true.
Proof.
  assert (forall contentType,
             Attachment.contentType document = Some contentType ->
             JS.startsWith contentType "image/" = false) as Hnot.
  { intros contentType [= <-]. reflexivity. }
  split; [exact Hnot|].
  exact (AssemblerLaws.only_images_are_downloaded online document (start online 0%nat ∅)
           Hnot).
Defined.

(** What a rate-limited endpoint makes the client throw. *)
Lemma errors_are_categorized_witness :
  AIService.generateResponse (serviceFor rateLimited budgetOfOne) []
    (start rateLimited 0%nat ∅)
  = (Throw rateLimitError,
     afterRequest rateLimited (serviceFor rateLimited budgetOfOne) []
       (start rateLimited 0%nat ∅))
  /\ Thrown.instanceofError rateLimitError = true
  /\ Thrown.status rateLimitError = None
  /\ JS.startsWith (Thrown.message rateLimitError) "AI service" = true
  /\ Thrown.toString rateLimitError = "Error: " +:+ Thrown.message rateLimitError.
Proof.
  assert (AIService.generateResponse (serviceFor rateLimited budgetOfOne) []
            (start rateLimited 0%nat ∅)
          = (Throw rateLimitError,
             afterRequest rateLimited (serviceFor rateLimited budgetOfOne) []
               (start rateLimited 0%nat ∅))) as Hthrow by reflexivity.
  split; [exact Hthrow|].
  exact (ClientLaws.errors_are_categorized rateLimited _ _ _ _ _ Hthrow).
Defined.

(** The date call of the example, executed and replayed. *)
Lemma ledger_replays_tool_messages_witness :
  Forall (fun call => call_function_name call <> None) [dateCall]
  /\ (AIService.processToolCalls
        (ToolsRegistry.executeTool (ToolsRegistry.new quiet 0)) (Some [dateCall])
        (start quiet 0%nat ∅)).1
     = Ok [dateResult]
  /\ MessageUtils.toolMessages [dateCall] [dateResult]
     = AIService.createToolResultMessages [dateResult].
Proof.
  assert (Forall (fun call => call_function_name call <> None) [dateCall]) as Hfun.
  { repeat constructor. discriminate. }
  split; [exact Hfun|]. split; [reflexivity|].
  apply (ClientLaws.ledger_replays_tool_messages quiet
           (ToolsRegistry.executeTool (ToolsRegistry.new quiet 0)) [dateCall] [dateResult]
           (start quiet 0%nat ∅)
           (AIService.processToolCalls
              (ToolsRegistry.executeTool (ToolsRegistry.new quiet 0)) (Some [dateCall])
              (start quiet 0%nat ∅)).2 Hfun).
  reflexivity.
Defined.

(** An assignment with a budget of two, against an endpoint that never
    stops asking for tools: three requests. *)
Lemma no_extension_without_listing_task_witness :
  OpenProjectAgent.taskAsksForListing (task assignment) = false
  /\ (requestCount insatiable
        (OpenProjectAgent.execute insatiable 8 assignment (start insatiable 0%nat ∅)).2
      <= 0 + Z.to_nat 2 + 1)%nat.
Proof.
  assert (OpenProjectAgent.taskAsksForListing (task assignment) = false) as Htask
    by reflexivity.
  split; [exact Htask|].
  exact (AgentLaws.no_extension_without_listing_task insatiable 8 assignment
           (start insatiable 0%nat ∅) Htask).
Defined.

(** A greeting in answer to the first request. *)
Lemma direct_answer_costs_one_request_witness :
  0 < 1
  /\ "Hello." <> EmptyString
  /\ OpenProjectAgent.execute quiet 1 budgetOfOne (start quiet 0%nat ∅)
     = (Ok (OpenProjectAgent.resultText quiet (OpenProjectToolsRegistry.new quiet)
              {| OpenProjectAgent.messages :=
                   OpenProjectAgent.initialMessages "show projects" None;
                 OpenProjectAgent.iterationCount := 1;
                 OpenProjectAgent.finalResponse := "Hello.";
                 OpenProjectAgent.foundUserIdButNeedsList := false |}),
        afterRequest quiet (serviceFor quiet budgetOfOne)
          (OpenProjectAgent.initialMessages "show projects" None) (start quiet 0%nat ∅)).
Proof.
  assert (0 < 1) as Hbudget by lia.
  assert ("Hello." <> EmptyString) as Htext by discriminate.
  split; [exact Hbudget|]. split; [exact Htext|].
  exact (AgentLaws.direct_answer_costs_one_request quiet 0 budgetOfOne
           (start quiet 0%nat ∅) "Hello." None 1%nat Hbudget Htext (or_introl eq_refl)
           eq_refl).
Defined.

(** A guest with the staff role mentions the bot in a guild that allows
    the staff: the message is handled, and the trace shows it. *)
Lemma only_allowed_mentions_are_served_witness :
  trace (Entry.handleMessage quiet 8 permissions accepts incoming (Some "1")
           (start quiet 0%nat ∅)).2
  <> trace (start quiet 0%nat ∅)
  /\ Author.bot (Message.author (Permissions.message incoming)) = false
  /\ Permissions.inTextChannel incoming = true
  /\ (exists clientId,
        Some "1" = Some clientId /\ Permissions.isBotMentioned incoming clientId = true)
  /\ Permissions.isUserAllowed permissions incoming = true.
Proof.
  assert (trace (Entry.handleMessage quiet 8 permissions accepts incoming (Some "1")
                   (start quiet 0%nat ∅)).2
          <> trace (start quiet 0%nat ∅)) as Hmoved.
  { vm_compute. discriminate. }
  split; [exact Hmoved|].
  exact (AccessFacts.only_allowed_mentions_are_served quiet 8 permissions accepts incoming
           (Some "1") (start quiet 0%nat ∅) (or_introl Hmoved)).
Defined.

(** The anchor of the example channel is replaced. *)
Lemma anchor_set_then_get_witness :
  AnchorMessageUtils.writable anchoredDisk = true
  /\ AnchorMessageUtils.typed anchoredDisk
  /\ AnchorMessageUtils.snowflake channelId = true
  /\ exists disk1,
      AnchorMessageUtils.setAnchorMessageId channelId "777" anchoredDisk
      = (AnchorMessageUtils.Done tt, disk1)
      /\ AnchorMessageUtils.getAnchorMessageId channelId disk1
         = (AnchorMessageUtils.Done (Some (AnchorMessageUtils.JString "777")), disk1)
      /\ (forall other,
            AnchorMessageUtils.snowflake other = true ->
            other <> channelId ->
            (AnchorMessageUtils.getAnchorMessageId other disk1).1
            = (AnchorMessageUtils.getAnchorMessageId other anchoredDisk).1).
Proof.
  assert (AnchorMessageUtils.typed anchoredDisk) as Htyped.
  { exact (ex_intro _ {[ channelId := "555" ]} eq_refl). }
  split; [reflexivity|]. split; [exact Htyped|]. split; [reflexivity|].
  exact (AnchorFacts.anchor_set_then_get channelId "777" anchoredDisk eq_refl Htyped eq_refl).
Defined.

(** The anchor of the example channel is cleared. *)
Lemma anchor_clear_then_get_witness :
  AnchorMessageUtils.writable anchoredDisk = true
  /\ AnchorMessageUtils.typed anchoredDisk
  /\ AnchorMessageUtils.snowflake channelId = true
  /\ exists disk1 value,
      AnchorMessageUtils.clearAnchorMessageId channelId anchoredDisk
      = (AnchorMessageUtils.Done tt, disk1)
      /\ AnchorMessageUtils.getAnchorMessageId channelId disk1
         = (AnchorMessageUtils.Done value, disk1)
      /\ (value = None \/ value = Some (AnchorMessageUtils.JString EmptyString))
      /\ (forall other,
            AnchorMessageUtils.snowflake other = true ->
            other <> channelId ->
            (AnchorMessageUtils.getAnchorMessageId other disk1).1
            = (AnchorMessageUtils.getAnchorMessageId other anchoredDisk).1).
Proof.
  assert (AnchorMessageUtils.typed anchoredDisk) as Htyped.
  { exact (ex_intro _ {[ channelId := "555" ]} eq_refl). }
  split; [reflexivity|]. split; [exact Htyped|]. split; [reflexivity|].
  exact (AnchorFacts.anchor_clear_then_get channelId anchoredDisk eq_refl Htyped eq_refl).
Defined.

(** A file that does not parse on a disk that cannot be written stays as it
    is; a file that holds [null] makes the three functions throw; the empty
    array swallows the anchor. *)
Lemma anchor_failures_by_file_witness :
  (AnchorMessageUtils.setAnchorMessageId channelId "777" readOnlyDisk
   = (AnchorMessageUtils.Done tt, readOnlyDisk)
   /\ AnchorMessageUtils.clearAnchorMessageId channelId readOnlyDisk
      = (AnchorMessageUtils.Done tt, readOnlyDisk)
   /\ exists value,
       AnchorMessageUtils.getAnchorMessageId channelId readOnlyDisk
       = (AnchorMessageUtils.Done value, readOnlyDisk))
  /\ (AnchorMessageUtils.getAnchorMessageId channelId nullDisk
      = (AnchorMessageUtils.TypeError, nullDisk)
      /\ AnchorMessageUtils.setAnchorMessageId channelId "777" nullDisk
         = (AnchorMessageUtils.TypeError, nullDisk)
      /\ AnchorMessageUtils.clearAnchorMessageId channelId nullDisk
         = (AnchorMessageUtils.TypeError, nullDisk))
  /\ exists disk1,
      AnchorMessageUtils.setAnchorMessageId channelId "777" arrayDisk
      = (AnchorMessageUtils.Done tt, disk1)
      /\ AnchorMessageUtils.file disk1
         = AnchorMessageUtils.Present
             (AnchorMessageUtils.Json (AnchorMessageUtils.JArray []))
      /\ AnchorMessageUtils.getAnchorMessageId channelId disk1
         = (AnchorMessageUtils.Done None, disk1).
Proof.
  split; [|split].
  - exact (proj1 (AnchorFacts.anchor_failures_by_file channelId "777" readOnlyDisk)
             eq_refl I eq_refl).
  - exact (proj1 (proj2 (AnchorFacts.anchor_failures_by_file channelId "777" nullDisk))
             eq_refl).
  - exact (proj2 (proj2 (AnchorFacts.anchor_failures_by_file channelId "777" arrayDisk))
             [] eq_refl eq_refl eq_refl eq_refl).
Defined.

(** The first month of 2024, with the day bounds the tool appends. *)
Lemma date_filter_round_trip_witness :
  DateFilters.plainDate "2024-01-01"
  /\ DateFilters.plainDate "2024-02-01"
  /\ DateFilters.plainText "T00:00:00Z"
  /\ DateFilters.plainText "T23:59:59Z"
  /\ (DateFilters.dateFilterFor (fun _ => None) "createdAt"
        <$> DateFilters.dateFilter "T00:00:00Z" "T23:59:59Z"
              (Some "2024-01-01") (Some "2024-02-01"))
     = Some [{| DateFilters.filter_key := "createdAt"; DateFilters.operator := "<>d";
                DateFilters.values := ["2024-01-01T00:00:00Z"; "2024-02-01T23:59:59Z"] |}].
Proof.
  assert (DateFilters.plainDate "2024-01-01") as Hafter by (split; [discriminate|reflexivity]).
  assert (DateFilters.plainDate "2024-02-01") as Hbefore by (split; [discriminate|reflexivity]).
  assert (DateFilters.plainText "T00:00:00Z") as Hstart by reflexivity.
  assert (DateFilters.plainText "T23:59:59Z") as Hend by reflexivity.
  split; [exact Hafter|]. split; [exact Hbefore|]. split; [exact Hstart|].
  split; [exact Hend|].
  exact (proj1 (DateFilterFacts.date_filter_round_trip (fun _ => None) "createdAt"
                  "T00:00:00Z" "T23:59:59Z" "2024-01-01" "2024-02-01"
                  Hafter Hbefore Hstart Hend)).
Defined.

End MoreChecks.
